(** * file-organiser: a shallow embedding of [organise_files.py]

    The development follows the layout of the script:
    - Python strings and the two character tables the script relies on
      ([str.isspace] and the Unicode decimal digits behind [\d]);
    - a backtracking matcher for the fragment of [re] used by [PATTERNS]
      and [INVALID_CHARS];
    - [sanitize] and [extract_title];
    - a directory tree with the file-system calls made by [organise]
      and [sync_folder_mtime], threaded through a state-and-exception monad;
    - the entry point.

    The theorems come after all definitions. *)

From Stdlib Require Import List NArith ZArith Bool Lia String Ascii Permutation.
Import ListNotations.

Set Implicit Arguments.

(* ================================================================== *)
(** * Python strings *)

(** A [str] is a sequence of Unicode code points. *)
Definition pystr := list N.

Definition chr (a : ascii) : N := N_of_ascii a.

(** An ASCII literal seen as a [str]. *)
Definition py (s : string) : pystr := map chr (list_ascii_of_string s).

Definition pystr_eqb (a b : pystr) : bool :=
  if list_eq_dec N.eq_dec a b then true else false.

Definition between (lo hi c : N) : bool := ((lo <=? c) && (c <=? hi))%N.

(** [str.isspace] on one character, which is also what [\s] tests in a
    [str] pattern and what [str.strip()] removes. *)
Definition isspace (c : N) : bool :=
  between 9 13 c || between 28 32 c
  || (c =? 133)%N || (c =? 160)%N || (c =? 5760)%N
  || between 8192 8202 c
  || (c =? 8232)%N || (c =? 8233)%N || (c =? 8239)%N
  || (c =? 8287)%N || (c =? 12288)%N.

(** First code points of the runs of decimal digits (general category Nd),
    with the length of each run; Unicode 14 as shipped with CPython 3.11. *)
Definition decimal_runs : list (N * N) :=
  map (fun z => (z, 10%N))
    [ 48; 1632; 1776; 1984; 2406; 2534; 2662; 2790; 2918; 3046; 3174; 3302;
      3430; 3558; 3664; 3792; 3872; 4160; 4240; 6112; 6160; 6470; 6608; 6784;
      6800; 6992; 7088; 7232; 7248; 42528; 43216; 43264; 43472; 43504; 43600;
      44016; 65296; 66720; 68912; 69734; 69872; 69942; 70096; 70384; 70736;
      70864; 71248; 71360; 71472; 71904; 72016; 72784; 73040; 73120; 92768;
      92864; 93008; 123200; 123632; 125264; 130032 ]%N
  ++ [ (120782, 50) ]%N.

(** [str.isdecimal] on one character: what [\d] tests in a [str] pattern. *)
Definition isdecimal (c : N) : bool :=
  existsb (fun r => between (fst r) (fst r + snd r - 1) c) decimal_runs.

Fixpoint dropwhile (p : N -> bool) (s : pystr) : pystr :=
  match s with
  | c :: s' => if p c then dropwhile p s' else s
  | [] => []
  end.

Definition lstrip (s : pystr) : pystr := dropwhile isspace s.
Definition rstrip (s : pystr) : pystr := rev (dropwhile isspace (rev s)).

(** [s.strip()] *)
Definition strip (s : pystr) : pystr := rstrip (lstrip s).

(** Rendering of a natural number by [str(n)]. *)
Fixpoint digits_fuel (fuel : nat) (n : N) (acc : pystr) : pystr :=
  match fuel with
  | O => acc
  | S fuel' =>
      let acc' := (48 + n mod 10)%N :: acc in
      if (n / 10 =? 0)%N then acc' else digits_fuel fuel' (n / 10)%N acc'
  end.

Definition str_of_nat (n : nat) : pystr :=
  digits_fuel (S n) (N.of_nat n) [].

(* ================================================================== *)
(** * The fragment of [re] used by the script *)

Module Re.

(** Members of a bracketed class. *)
Inductive citem :=
| Ch (c : N)
| Rg (lo hi : N).

(** One-character matchers. *)
Inductive cset :=
| Lit (c : N)                 (* a literal character *)
| Dot                         (* [.] without DOTALL  *)
| Space                       (* [\s] *)
| Digit                       (* [\d] *)
| OneOf (l : list citem)      (* [[...]]  *)
| NoneOf (l : list citem).    (* [[^...]] *)

Definition item_mem (i : citem) (c : N) : bool :=
  match i with
  | Ch x => (x =? c)%N
  | Rg lo hi => between lo hi c
  end.

Definition mem (cs : cset) (c : N) : bool :=
  match cs with
  | Lit x => (x =? c)%N
  | Dot => negb (c =? 10)%N
  | Space => isspace c
  | Digit => isdecimal c
  | OneOf l => existsb (fun i => item_mem i c) l
  | NoneOf l => negb (existsb (fun i => item_mem i c) l)
  end.

(** Patterns.  Repetition ranges over one-character matchers only, which is
    all the script's patterns need; the only group is the named group
    [title]. *)
Inductive regex :=
| Bol                                   (* [^] *)
| Eol                                   (* [$] without MULTILINE *)
| One (c : cset)
| Rep (c : cset) (lo : nat) (hi : option nat) (greedy : bool)
| Cat (r1 r2 : regex)
| Opt (r : regex)                       (* [(?: r )?] *)
| Title (r : regex).                    (* [(?P<title> r )] *)

Record match_obj := { m_end : nat; m_title : option pystr }.

Section Matcher.
Variable R : Type.

(** Position after the characters consumed, the rest of the subject,
    the capture so far. *)
Definition cont := nat -> pystr -> option pystr -> option R.

Definition may_take (hi : option nat) : bool :=
  match hi with Some O => false | _ => true end.

Definition one_less (hi : option nat) : option nat :=
  match hi with Some n => Some (pred n) | None => None end.

(** [c{lo,hi}] and [c{lo,hi}?]: the greedy form tries one more character
    before trying the rest of the pattern, the lazy form the other way
    round. *)
Fixpoint rep (c : cset) (greedy : bool) (lo : nat) (hi : option nat)
    (pos : nat) (s : pystr) (k : nat -> pystr -> option R) {struct s}
    : option R :=
  let more :=
    fun _ : unit =>
      match s with
      | x :: s' =>
          if mem c x && may_take hi
          then rep c greedy (pred lo) (one_less hi) (S pos) s' k
          else None
      | [] => None
      end in
  match lo with
  | S _ => more tt
  | O =>
      if greedy
      then match more tt with Some r => Some r | None => k pos s end
      else match k pos s with Some r => Some r | None => more tt end
  end.

Fixpoint run (r : regex) (pos : nat) (s : pystr) (cap : option pystr)
    (k : cont) {struct r} : option R :=
  match r with
  | Bol => if Nat.eqb pos 0 then k pos s cap else None
  | Eol =>
      match s with
      | [] => k pos s cap
      | [c] => if (c =? 10)%N then k pos s cap else None
      | _ => None
      end
  | One c =>
      match s with
      | x :: s' => if mem c x then k (S pos) s' cap else None
      | [] => None
      end
  | Rep c lo hi greedy =>
      rep c greedy lo hi pos s (fun pos' s' => k pos' s' cap)
  | Cat r1 r2 =>
      run r1 pos s cap (fun pos' s' cap' => run r2 pos' s' cap' k)
  | Opt r1 =>
      match run r1 pos s cap k with
      | Some x => Some x
      | None => k pos s cap
      end
  | Title r1 =>
      run r1 pos s cap
        (fun pos' s' _ => k pos' s' (Some (firstn (pos' - pos) s)))
  end.
End Matcher.

(** [pat.match(s)]: the first match, in backtracking order, that starts at
    position 0. *)
Definition re_match (r : regex) (s : pystr) : option match_obj :=
  run r 0 s None (fun pos _ cap => Some {| m_end := pos; m_title := cap |}).

(** [m.group("title")]; the group takes part in every match of the
    script's patterns (lemma [PATTERNS_title_set]). *)
Definition group_title (m : match_obj) : pystr :=
  match m_title m with Some t => t | None => [] end.

(** [pat.sub(repl, s)] for a pattern that is a single one-character
    matcher. *)
Definition sub (c : cset) (repl : pystr) (s : pystr) : pystr :=
  flat_map (fun x => if mem c x then repl else [x]) s.

Definition lit (a : ascii) : regex := One (Lit (chr a)).
Definition star (c : cset) : regex := Rep c 0 None true.
Definition plus (c : cset) : regex := Rep c 1 None true.
Definition lazy_star (c : cset) : regex := Rep c 0 None false.
Definition lazy_plus (c : cset) : regex := Rep c 1 None false.
Definition exactly (n : nat) (c : cset) : regex := Rep c n (Some n) true.

Definition range (a b : ascii) : citem := Rg (chr a) (chr b).

End Re.

Import Re.

Declare Scope re_scope.
Delimit Scope re_scope with re.
Infix "&" := Cat (at level 60, right associativity) : re_scope.

(* ================================================================== *)
(** * patterns *)

Definition alnum : cset := OneOf [range "A" "Z"; range "a" "z"; range "0" "9"].
Definition hexdigit : cset := OneOf [range "0" "9"; range "A" "F"; range "a" "f"].
Definition not_ch (a : ascii) : cset := NoneOf [Ch (chr a)].

(** Fansubbed TV episodes. *)
Definition EPISODE : regex :=
  (Bol & star Space &
   lit "[" & plus (not_ch "]") & lit "]" &           (* leading [Group] *)
   plus Space &
   Title (lazy_star Dot) &                           (* series title    *)
   star Space & lit "-" & star Space &
   (plus Digit & Opt (lit "." & plus Digit) &        (*   01  or  09.5  *)
    Opt (lit "v" & plus Digit)) &                    (*   v2 (optional) *)
   Opt (star Space & lit "(" & plus (not_ch ")") & lit ")") & (* (720p) *)
   star Space & lit "[" & plus hexdigit & lit "]" &  (* trailing hash   *)
   lit "." & plus alnum & Eol)%re.                   (* extension       *)

(** Stand-alone movies: Title (YEAR) ... *)
Definition MOVIE : regex :=
  (Bol & star Space &
   Opt (lit "[" & plus (not_ch "]") & lit "]" & plus Space) &
   Title (lazy_plus Dot) & star Space &              (* movie title     *)
   lit "(" & exactly 4 Digit & lit ")" &             (* (YEAR)          *)
   lazy_star Dot & lit "." & plus alnum & Eol)%re.   (* rest + extension *)

Definition PATTERNS : list regex := [EPISODE; MOVIE].

(** The class of the raw string: an escaped backslash, then the other
    eight characters as they are (34 is the double quote). *)
Definition INVALID_CHARS : cset :=
  OneOf [Ch (chr "\"); Ch (chr "/"); Ch (chr ":"); Ch (chr "*"); Ch (chr "?");
         Ch 34%N; Ch (chr "<"); Ch (chr ">"); Ch (chr "|")].

(* ================================================================== *)
(** * helpers *)

Definition underscore : N := chr "_".

Definition sanitize (name : pystr) : pystr :=
  strip (Re.sub INVALID_CHARS [underscore] name).

(** The [for pat in PATTERNS] loop of [extract_title]. *)
Fixpoint first_title (pats : list regex) (filename : pystr) : option pystr :=
  match pats with
  | [] => None
  | pat :: rest =>
      match re_match pat filename with
      | Some m => Some (sanitize (group_title m))
      | None => first_title rest filename
      end
  end.

Definition extract_title (filename : pystr) : option pystr :=
  first_title PATTERNS filename.

(* ================================================================== *)
(** * The directory tree *)

(** What a path can name.  Time stamps are the values [st_mtime] reports,
    ordered as numbers; an access time changes through [os.utime] only.
    Symbolic links are outside the model. *)
#[local] Unset Elimination Schemes.
Inductive node :=
| File (data : list N) (mtime : Z)        (* regular file *)
| Special (mtime : Z)                     (* fifo, socket, device *)
| Dir (atime mtime : Z) (entries : list (pystr * node)).
#[local] Set Elimination Schemes.

(** The entries of a directory, in the order the system lists them. *)
Definition entries := list (pystr * node).

Fixpoint lookup (name : pystr) (es : entries) : option node :=
  match es with
  | [] => None
  | (n, x) :: es' => if pystr_eqb n name then Some x else lookup name es'
  end.

Definition remove (name : pystr) (es : entries) : entries :=
  filter (fun e => negb (pystr_eqb (fst e) name)) es.

Fixpoint update (name : pystr) (f : node -> node) (es : entries) : entries :=
  match es with
  | [] => []
  | (n, x) :: es' =>
      if pystr_eqb n name then (n, f x) :: es' else (n, x) :: update name f es'
  end.

Definition names (es : entries) : list pystr := map fst es.

Definition is_dir_node (x : option node) : bool :=
  match x with Some (Dir _ _ _) => true | _ => false end.

(** [p.stat().st_mtime for p in folder.rglob("*") if p.is_file()], for
    [folder] naming node [x]: the regular files at any depth below it. *)
Fixpoint file_mtimes (x : node) : list Z :=
  match x with
  | File _ m => [m]
  | Special _ => []
  | Dir _ _ es => flat_map (fun e => file_mtimes (snd e)) es
  end.

Definition rglob_file_mtimes (x : node) : list Z :=
  match x with
  | Dir _ _ es => flat_map (fun e => file_mtimes (snd e)) es
  | _ => []
  end.

(** [max(t :: ts)] *)
Definition py_max (t : Z) (ts : list Z) : Z := fold_left Z.max ts t.

(** The root directory being organised, as the resolved path [root] sees
    it: its direct children, and its parent directory (reached through
    [root / ".."]). *)
Record world := {
  above : option (pystr * entries);
    (* the root's own name in its parent and the parent's other entries;
       [None] when the root is [/] *)
  here : entries;           (* direct children of the root *)
  now : Z                   (* the time the system stamps on a directory
                               that is created or gains an entry *)
}.

Definition set_here (w : world) (es : entries) : world :=
  {| above := above w; here := es; now := now w |}.

Definition set_above (w : world) (a : option (pystr * entries)) : world :=
  {| above := a; here := here w; now := now w |}.

(** [root / title] for a [title] without separators. *)
Inductive place :=
| Here                      (* [root / "."] is [root]: pathlib drops the dot *)
| DotDot                    (* [root / ".."] *)
| Sub (t : pystr).          (* any other title *)

Definition root_join (title : pystr) : place :=
  if pystr_eqb title (py ".") then Here
  else if pystr_eqb title (py "..") then DotDot
  else Sub title.

(* ================================================================== *)
(** * Effects: state, output and exceptions *)

Inductive message :=
| Skipped (dest_dir : place) (name : pystr)  (* "Skipped (already exists): {target}" *)
| Moved (name dir_name : pystr)              (* "Moved: {entry.name} -> {dest_dir.name}/" *)
| Done (moved : nat).                        (* the summary *)

Inductive event :=
| Call_extract_title (filename : pystr)
| Print (m : message).

(** The exceptions that depend on the shape of the tree.  Failures of the
    environment (permissions, a full or read-only device, a terminal that
    cannot encode a name) are not modelled. *)
Inductive exn := FileExistsError | FileNotFoundError | NotADirectoryError.

Record state := { fs : world; trace : list event }.

Inductive result (A : Type) :=
| Ok (a : A)
| Raise (e : exn).
Arguments Ok {A} a.
Arguments Raise {A} e.

Definition M (A : Type) : Type := state -> result A * state.

Definition ret {A} (a : A) : M A := fun st => (Ok a, st).

Definition bind {A B} (c : M A) (k : A -> M B) : M B :=
  fun st =>
    match c st with
    | (Ok a, st') => k a st'
    | (Raise e, st') => (Raise e, st')
    end.

Notation "x <- c ;; k" := (bind c (fun x => k))
  (at level 61, c at next level, right associativity).
Notation "c ;; k" := (bind c (fun _ => k))
  (at level 61, right associativity).

Definition raise {A} (e : exn) : M A := fun st => (Raise e, st).
Definition get_fs : M world := fun st => (Ok (fs st), st).
Definition put_fs (w : world) : M unit :=
  fun st => (Ok tt, {| fs := w; trace := trace st |}).
Definition emit (e : event) : M unit :=
  fun st => (Ok tt, {| fs := fs st; trace := trace st ++ [e] |}).

Definition print (m : message) : M unit := emit (Print m).

(** The text of each line, for [root] the string of the resolved root
    path ([/] or a path that does not end in a separator). *)
Definition path_join (a b : pystr) : pystr :=
  if pystr_eqb a (py "/") then a ++ b else a ++ py "/" ++ b.

Definition place_path (root : pystr) (p : place) : pystr :=
  match p with
  | Here => root
  | DotDot => path_join root (py "..")
  | Sub t => path_join root t
  end.

Definition render (root : pystr) (m : message) : pystr :=
  match m with
  | Skipped dest_dir name =>
      [9888; 65039]%N ++ py "  Skipped (already exists): "
      ++ path_join (place_path root dest_dir) name
  | Moved name dir_name =>
      [10004; 65038]%N ++ py "  Moved: " ++ name
      ++ py " " ++ [8594%N] ++ py " " ++ dir_name ++ py "/"
  | Done moved =>
      [10%N] ++ py "Done. " ++ str_of_nat moved
      ++ py " file(s) moved; folder timestamps updated."
  end.

(** ** File-system calls *)

(** [root.iterdir()]: the names present when the loop starts. *)
Definition iterdir : M (list pystr) :=
  w <- get_fs ;; ret (names (here w)).

(** [(root / name).is_dir()] *)
Definition is_dir (name : pystr) : M bool :=
  w <- get_fs ;; ret (is_dir_node (lookup name (here w))).

(** What [dest_dir / name] names, for [dest_dir] the place [p]. *)
Inductive found :=
| Nothing
| RootItself                (* [root / ".." / name] with [name] the root's own *)
| Entry (x : node).

Definition found_of (x : option node) : found :=
  match x with Some n => Entry n | None => Nothing end.

(** What [name] names inside the folder [t] of a listing. *)
Definition inside (es : entries) (t name : pystr) : found :=
  match lookup t es with
  | Some (Dir _ _ c) => found_of (lookup name c)
  | _ => Nothing
  end.

Definition target (w : world) (p : place) (name : pystr) : found :=
  match p with
  | Here => found_of (lookup name (here w))
  | DotDot =>
      match above w with
      | Some (rn, sibs) =>
          if pystr_eqb rn name then RootItself
          else found_of (lookup name sibs)
      | None => found_of (lookup name (here w))     (* [/..] is [/] *)
      end
  | Sub t => inside (here w) t name
  end.

(** [(dest_dir / name).exists()] *)
Definition target_exists (w : world) (p : place) (name : pystr) : bool :=
  match target w p name with Nothing => false | _ => true end.

Definition exists_ (p : place) (name : pystr) : M bool :=
  w <- get_fs ;; ret (target_exists w p name).

(** The root after [mkdir] created the folder [t] in it. *)
Definition made (t : pystr) (w : world) : world :=
  set_here w (here w ++ [(t, Dir (now w) (now w) [])]).

(** [dest_dir.mkdir(exist_ok=True)]: creates the folder, accepts an
    existing directory, raises on an existing entry that is not one. *)
Definition mkdir_exist_ok (p : place) : M unit :=
  w <- get_fs ;;
  match p with
  | Sub t =>
      match lookup t (here w) with
      | None => put_fs (made t w)
      | Some (Dir _ _ _) => ret tt
      | Some _ => raise FileExistsError
      end
  | _ => ret tt
  end.

(** A directory that gained the entry [(name, x)] at time [t]. *)
Definition add_entry (t : Z) (name : pystr) (x : node) (d : node) : node :=
  match d with
  | Dir a _ es => Dir a t (es ++ [(name, x)])
  | other => other
  end.

(** The root after its entry [(name, x)] was renamed into the folder [t],
    and after it was renamed into the parent directory. *)
Definition moved_into (t name : pystr) (x : node) (w : world) : world :=
  set_here w (update t (add_entry (now w) name x) (remove name (here w))).

Definition moved_up (rn : pystr) (sibs : entries) (name : pystr) (x : node)
    (w : world) : world :=
  set_above (set_here w (remove name (here w)))
    (Some (rn, sibs ++ [(name, x)])).

(** [shutil.move(root / name, dest_dir / name)], called when the target
    does not exist: a rename. *)
Definition move (name : pystr) (p : place) : M unit :=
  w <- get_fs ;;
  match lookup name (here w) with
  | None => raise FileNotFoundError
  | Some x =>
      match p with
      | Sub t =>
          if is_dir_node (lookup t (remove name (here w)))
          then put_fs (moved_into t name x w)
          else raise NotADirectoryError
      | DotDot =>
          match above w with
          | Some (rn, sibs) => put_fs (moved_up rn sibs name x w)
          | None => ret tt                (* onto itself *)
          end
      | Here => ret tt                    (* onto itself *)
      end
  end.

(** [dest_dir.name] *)
Definition place_name (w : world) (p : place) : pystr :=
  match p with
  | Here => match above w with Some (rn, _) => rn | None => [] end
  | DotDot => py ".."
  | Sub t => t
  end.

(** [os.utime(root / name, (a, m))] *)
Definition set_times (a m : Z) (d : node) : node :=
  match d with
  | Dir _ _ es => Dir a m es
  | File data _ => File data m
  | Special _ => Special m
  end.

Definition touched (name : pystr) (a m : Z) (w : world) : world :=
  set_here w (update name (set_times a m) (here w)).

Definition utime (name : pystr) (a m : Z) : M unit :=
  w <- get_fs ;;
  match lookup name (here w) with
  | Some _ => put_fs (touched name a m w)
  | None => raise FileNotFoundError
  end.

(** [[... for p in (root / name).rglob("*") if p.is_file()]] *)
Definition rglob_mtimes (name : pystr) : M (list Z) :=
  w <- get_fs ;;
  match lookup name (here w) with
  | Some x => ret (rglob_file_mtimes x)
  | None => ret []
  end.

Definition call_extract_title (filename : pystr) : M (option pystr) :=
  emit (Call_extract_title filename) ;; ret (extract_title filename).

(* ================================================================== *)
(** * helpers, continued *)

(** Set the folder's mtime to the newest file it (recursively) contains. *)
Definition sync_folder_mtime (folder : pystr) : M unit :=
  mtimes <- rglob_mtimes folder ;;
  match mtimes with
  | t :: ts =>
      let newest := py_max t ts in
      utime folder newest newest
  | [] => ret tt
  end.

(* ================================================================== *)
(** * core organiser *)

(** Body of the first loop of [organise], for the entry [name]; [moved] is
    the counter, returned updated. *)
Definition scan_entry (name : pystr) (moved : nat) : M nat :=
  d <- is_dir name ;;
  if d then ret moved                     (* process only files *)
  else
    title <- call_extract_title name ;;
    match title with
    | Some (c :: cs) =>
        let dest_dir := root_join (c :: cs) in
        mkdir_exist_ok dest_dir ;;
        e <- exists_ dest_dir name ;;
        if e then
          print (Skipped dest_dir name) ;;
          ret moved
        else
          move name dest_dir ;;
          w <- get_fs ;;
          print (Moved name (place_name w dest_dir)) ;;
          ret (S moved)
    | _ => ret moved                      (* [if not title: continue] *)
    end.

Fixpoint scan (todo : list pystr) (moved : nat) : M nat :=
  match todo with
  | [] => ret moved
  | name :: rest => moved' <- scan_entry name moved ;; scan rest moved'
  end.

(** The second loop. *)
Fixpoint sync_pass (todo : list pystr) : M unit :=
  match todo with
  | [] => ret tt
  | sub :: rest =>
      d <- is_dir sub ;;
      (if d then sync_folder_mtime sub else ret tt) ;;
      sync_pass rest
  end.

Definition organise : M unit :=
  todo <- iterdir ;;
  moved <- scan todo 0 ;;
  subs <- iterdir ;;
  sync_pass subs ;;
  print (Done moved).

(* ================================================================== *)
(** * entry point *)

(** What the resolved command-line path names. *)
Inductive root_arg :=
| Missing
| Regular (data : list N) (mtime : Z)
| Other (mtime : Z)
| Directory (w : world).

Inductive stderr_text :=
| Not_a_directory                (* "Error: {root_arg} is not a directory." *)
| Traceback (e : exn).

Record outcome := {
  exit_status : nat;
  stderr : option stderr_text;
  stdout : list message;
  calls : list pystr;            (* arguments of the calls of [extract_title] *)
  after : root_arg
}.

Definition printed (tr : list event) : list message :=
  flat_map (fun e => match e with Print m => [m] | _ => [] end) tr.

Definition extract_calls (tr : list event) : list pystr :=
  flat_map (fun e => match e with Call_extract_title f => [f] | _ => [] end) tr.

(** The state in which a run starts: nothing printed yet. *)
Definition start (w : world) : state := {| fs := w; trace := [] |}.

Definition main (arg : root_arg) : outcome :=
  match arg with
  | Directory w =>
      match organise (start w) with
      | (Ok _, st) =>
          {| exit_status := 0; stderr := None; stdout := printed (trace st);
             calls := extract_calls (trace st); after := Directory (fs st) |}
      | (Raise e, st) =>
          {| exit_status := 1; stderr := Some (Traceback e);
             stdout := printed (trace st);
             calls := extract_calls (trace st); after := Directory (fs st) |}
      end
  | _ =>
      {| exit_status := 1; stderr := Some Not_a_directory; stdout := [];
         calls := []; after := arg |}
  end.

(* ================================================================== *)
(** * Vocabulary of the statements *)

(** A string that does not start with a character satisfying [p]. *)
Definition starts_clean (p : N -> bool) (l : pystr) : Prop :=
  match l with c :: _ => p c = false | [] => True end.

(** The characters the specification calls filesystem-reserved, by code
    point: backslash, forward slash, colon, asterisk, question mark,
    double quote, less-than, greater-than, pipe. *)
Definition reserved : list N := [92; 47; 58; 42; 63; 34; 60; 62; 124]%N.

Definition is_reserved (c : N) : bool :=
  if in_dec N.eq_dec c reserved then true else false.

(** What the specification says [sanitize] does to one character. *)
Definition replace_reserved (c : N) : N :=
  if is_reserved c then underscore else c.

(** A pattern every match of which goes through the group [title]. *)
Fixpoint definite (r : regex) : bool :=
  match r with
  | Title _ => true
  | Cat r1 r2 => definite r1 || definite r2
  | _ => false
  end.

(** [t] occurs in [s] as a run of consecutive characters. *)
Definition substring (t s : pystr) : Prop := exists a b, s = a ++ t ++ b.

(** The state after the events [es] were appended to the trace. *)
Definition logged (es : list event) (st : state) : state :=
  {| fs := fs st; trace := trace st ++ es |}.

(** [w'] is [w] after [mkdir(exist_ok=True)] of the folder for title [t]
    went through. *)
Inductive prepared (w : world) (t : pystr) : world -> Prop :=
| Prepared_new :
    root_join t = Sub t -> lookup t (here w) = None ->
    prepared w t (made t w)
| Prepared_old :
    (forall t', root_join t = Sub t' ->
                is_dir_node (lookup t' (here w)) = true) ->
    prepared w t w.

(** The ways one round of the first loop can go. *)
Inductive scan_entry_spec (name : pystr) (mv : nat) (st : state)
  : result nat * state -> Prop :=
| SE_dir :
    is_dir_node (lookup name (here (fs st))) = true ->
    scan_entry_spec name mv st (Ok mv, st)
| SE_untitled :
    is_dir_node (lookup name (here (fs st))) = false ->
    extract_title name = None \/ extract_title name = Some [] ->
    scan_entry_spec name mv st (Ok mv, logged [Call_extract_title name] st)
| SE_blocked t x :
    is_dir_node (lookup name (here (fs st))) = false ->
    extract_title name = Some t -> t <> [] ->
    root_join t = Sub t ->
    lookup t (here (fs st)) = Some x -> is_dir_node (Some x) = false ->
    scan_entry_spec name mv st
      (Raise FileExistsError, logged [Call_extract_title name] st)
| SE_skipped t w' :
    is_dir_node (lookup name (here (fs st))) = false ->
    extract_title name = Some t -> t <> [] ->
    prepared (fs st) t w' ->
    target_exists w' (root_join t) name = true ->
    scan_entry_spec name mv st
      (Ok mv,
       {| fs := w';
          trace := trace st ++ [Call_extract_title name;
                                Print (Skipped (root_join t) name)] |})
| SE_move_failed t w' e :
    is_dir_node (lookup name (here (fs st))) = false ->
    extract_title name = Some t -> t <> [] ->
    prepared (fs st) t w' ->
    target_exists w' (root_join t) name = false ->
    lookup name (here (fs st)) = None ->
    scan_entry_spec name mv st
      (Raise e, {| fs := w'; trace := trace st ++ [Call_extract_title name] |})
| SE_moved_into t w' x :
    extract_title name = Some t -> t <> [] ->
    prepared (fs st) t w' ->
    root_join t = Sub t ->
    lookup name (here (fs st)) = Some x -> is_dir_node (Some x) = false ->
    target_exists w' (Sub t) name = false ->
    scan_entry_spec name mv st
      (Ok (S mv),
       {| fs := moved_into t name x w';
          trace := trace st ++ [Call_extract_title name;
                                Print (Moved name t)] |})
| SE_moved_up t rn sibs x :
    extract_title name = Some t -> t <> [] ->
    root_join t = DotDot ->
    above (fs st) = Some (rn, sibs) ->
    lookup name (here (fs st)) = Some x -> is_dir_node (Some x) = false ->
    target_exists (fs st) DotDot name = false ->
    scan_entry_spec name mv st
      (Ok (S mv),
       {| fs := moved_up rn sibs name x (fs st);
          trace := trace st ++ [Call_extract_title name;
                                Print (Moved name (py ".."))] |}).

(** A root entry at which the first loop changes nothing: a directory, a
    name without usable title, or a name whose target exists. *)
Definition settled (w : world) (name : pystr) : bool :=
  is_dir_node (lookup name (here w))
  || match extract_title name with
     | Some (c :: cs) => target_exists w (root_join (c :: cs)) name
     | _ => true
     end.

(** Events of a round that moves nothing. *)
Definition is_quiet (e : event) : bool :=
  match e with
  | Call_extract_title _ => true
  | Print (Skipped _ _) => true
  | _ => false
  end.

(** Two nodes that are the same but, for a directory, its own times. *)
Definition same_but_times (x y : node) : Prop :=
  x = y \/ exists a m a' m' es, x = Dir a m es /\ y = Dir a' m' es.

(** Two worlds that are the same but for the times of first-level
    folders. *)
Definition only_folder_times_differ (w w' : world) : Prop :=
  above w' = above w
  /\ Forall2 (fun e e' => fst e' = fst e /\ same_but_times (snd e) (snd e'))
       (here w) (here w').

Definition is_done (m : message) : bool :=
  match m with Done _ => true | _ => false end.

Definition is_moved (m : message) : bool :=
  match m with Moved _ _ => true | _ => false end.

(** Number of "Moved" lines among the lines printed. *)
Definition count_moved (out : list message) : nat :=
  List.length (filter is_moved out).

(** What one round of the first loop adds to the trace [tr], for the
    entry [name] scanned in world [w] with counter [mv]. *)
Record round_trace (name : pystr) (w : world) (mv : nat) (r : result nat)
    (tr : list event) : Prop := {
  rt_no_summary : forallb (fun m => negb (is_done m)) (printed tr) = true;
  rt_counted : forall m', r = Ok m' -> m' = mv + count_moved (printed tr);
  rt_calls : forall f, In f (extract_calls tr) ->
    f = name /\ is_dir_node (lookup name (here w)) = false;
  rt_moves : forall n d, In (Moved n d) (printed tr) ->
    n = name /\ settled w name = false
}.

(** ** Sample roots *)

(** An episode whose title is the name of a regular file of the root. *)
Definition blocked_root : world :=
  {| above := Some (py "videos", []);
     here := [ (py "[G] X - 01 [AB].mkv", File [1%N] 7%Z);
               (py "X", File [] 9%Z) ];
     now := 100%Z |}.

(** A named pipe next to a regular file. *)
Definition fifo_root : world :=
  {| above := Some (py "videos", []);
     here := [ (py "pipe", Special 3%Z);
               (py "notes.txt", File [2%N] 4%Z) ];
     now := 100%Z |}.

(** Episodes, a movie, a file that matches nothing, a folder that already
    holds the movie, and titles [..] and [.]. *)
Definition sample_root : world :=
  {| above := Some (py "videos", [(py "x.mkv", File [] 5%Z)]);
     here := [ (py "[G] X - 01 [AB].mkv", File [1%N] 7%Z);
               (py "randomfile.txt", File [] 9%Z);
               (py "[G] X - 02 [AB].mkv", File [2%N] 3%Z);
               (py "M", Dir 1 2 [(py "M (2018).mkv", File [] 50%Z)]);
               (py "M (2018).mkv", File [3%N] 60%Z);
               (py "[G] .. - 01 [AB].mkv", File [] 8%Z);
               (py "[G] . - 01 [AB].mkv", File [] 8%Z) ];
     now := 100%Z |}.

(** The root [w] as a later run may list it: the same entries in another
    order. *)
Definition relisted (w : world) : world :=
  {| above := above w; here := rev (here w); now := now w |}.

(** C2 as stated, for the root [w]: whatever the first run did, the second
    reports the summary count 0. *)
Definition rerun_reports_zero (w : world) : Prop :=
  forall r1 st1, organise (start w) = (r1, st1) ->
    exists st2, organise (start (fs st1)) = (Ok tt, st2)
                /\ In (Print (Done 0)) (trace st2).

(** C8 as stated, for a root [w] that is a directory: exit status 0 after
    a trailing summary line. *)
Definition exits_zero_with_summary (w : world) : Prop :=
  exit_status (main (Directory w)) = 0
  /\ exists body n, stdout (main (Directory w)) = body ++ [Done n].

(** C9 as stated, for the root [w]: every name passed to [extract_title]
    is that of a regular file of the root. *)
Definition only_regular_files_extracted (w : world) : Prop :=
  forall f, In f (calls (main (Directory w))) ->
    exists data mtime, lookup f (here w) = Some (File data mtime).

Fixpoint nodupb (l : list pystr) : bool :=
  match l with
  | [] => true
  | x :: l' => negb (existsb (pystr_eqb x) l') && nodupb l'
  end.

(** [contains es path x]: following [path] from a directory with entries
    [es], through directories only, leads to the node [x]. *)
Inductive contains : entries -> list pystr -> node -> Prop :=
| Contains_here es n x :
    In (n, x) es -> contains es [n] x
| Contains_below es n a m es' path x :
    In (n, Dir a m es') es -> contains es' path x ->
    contains es (n :: path) x.

(** A root that holds one file, which matches no pattern. *)
Definition random_root : world :=
  {| above := Some (py "videos", []);
     here := [ (py "randomfile.txt", File [7%N] 9%Z) ];
     now := 100%Z |}.

(** A folder that already holds an episode, and the same episode at the
    root. *)
Definition collision_root : world :=
  {| above := Some (py "videos", []);
     here := [ (py "X", Dir 1 2 [(py "[G] X - 01 [AB].mkv", File [1%N] 7%Z)]);
               (py "[G] X - 01 [AB].mkv", File [2%N] 8%Z) ];
     now := 100%Z |}.

(** A folder with a file two levels down. *)
Definition nested_entries : entries :=
  [ (py "a.mkv", File [] 30%Z);
    (py "extras",
     Dir 3 4 [ (py "b.mkv", File [] 70%Z); (py "pipe", Special 90%Z) ]) ].

Definition nested_root : world :=
  {| above := None;
     here := [ (py "S", Dir 1 2 nested_entries) ];
     now := 100%Z |}.

(** The three facts every call preserves about the entries it does not
    rename: a directory of the root stays one; another entry stays as it
    is; what its target names stays the same. *)
Record leaves_alone (gone : pystr -> Prop) (w w' : world) : Prop := {
  dirs_stay : forall n,
    is_dir_node (lookup n (here w)) = true ->
    is_dir_node (lookup n (here w')) = true;
  others_stay : forall n x,
    ~ gone n -> lookup n (here w) = Some x -> is_dir_node (Some x) = false ->
    lookup n (here w') = Some x;
  targets_stay : forall n x p,
    ~ gone n -> lookup n (here w) = Some x -> is_dir_node (Some x) = false ->
    target w' p n = target w p n
}.

(** ** Proof steps that recur *)

(** Closes the side conditions of a case of [scan_entry_spec]. *)
Ltac se_done :=
  cbn [fs trace];
  first
    [ eassumption | reflexivity | congruence
    | match goal with
      | H : lookup ?n ?e = _ |- context [lookup ?n ?e] =>
          rewrite H; first [reflexivity | assumption]
      end
    | eauto ].

(** ** What a run keeps *)

(** What every call keeps of a world: an entry inside a first-level
    folder stays there as it is; the parent directory keeps its entries
    (and the root its name in it); a non-directory found at the root
    afterwards was there before, as it is. *)
Record keeps (w w' : world) : Prop := {
  kept_inside : forall d n x,
    inside (here w) d n = Entry x -> inside (here w') d n = Entry x;
  kept_above :
    match above w with
    | None => above w' = None
    | Some (rn, sibs) =>
        exists sibs', above w' = Some (rn, sibs')
                      /\ forall n x, lookup n sibs = Some x ->
                                     lookup n sibs' = Some x
    end;
  kept_files : forall n x,
    lookup n (here w') = Some x -> is_dir_node (Some x) = false ->
    lookup n (here w) = Some x
}.

(** Where the file [(name, x)] of the root is once it was moved: inside
    the folder of its title, or in the parent directory for the title
    [..]. *)
Definition relocated (name : pystr) (x : node) (w : world) : Prop :=
  exists t, extract_title name = Some t /\ t <> []
            /\ root_join t <> Here
            /\ (root_join t = DotDot -> above w <> None)
            /\ target w (root_join t) name = Entry x.

(** A movie next to a folder that bears another title. *)
Definition movie_root : world :=
  {| above := Some (py "videos", []);
     here := [ (py "Old", Dir 1 2 [(py "a.mkv", File [] 5%Z)]);
               (py "M (2018).mkv", File [3%N] 60%Z) ];
     now := 100%Z |}.

(** A directory whose two times are the newest mtime among the regular
    files below it, if there are any. *)
Definition synced (x : node) : Prop :=
  match rglob_file_mtimes x with
  | [] => True
  | t :: ts =>
      match x with
      | Dir a m _ => a = py_max t ts /\ m = py_max t ts
      | _ => True
      end
  end.

(** The names of the root's non-directories, in listing order. *)
Definition non_dirs (w : world) : list pystr :=
  filter (fun n => negb (is_dir_node (lookup n (here w)))) (names (here w)).

(** The root's parent holds nothing but the root; the root holds an
    episode whose title is [..]. *)
Definition dotdot_root : world :=
  {| above := Some (py "videos", []);
     here := [ (py "[G] .. - 01 [AB].mkv", File [4%N] 8%Z) ];
     now := 100%Z |}.

(** The root holds an episode whose title is [.]. *)
Definition dot_root : world :=
  {| above := Some (py "videos", []);
     here := [ (py "[G] . - 01 [AB].mkv", File [5%N] 8%Z) ];
     now := 100%Z |}.

(** ** What a pattern matches *)

(** [matches r pos mid rest]: at position [pos], with [mid ++ rest] still
    to read, the pattern [r] can match exactly [mid]. *)
Fixpoint matches (r : regex) (pos : nat) (mid rest : pystr) : Prop :=
  match r with
  | Bol => pos = 0 /\ mid = []
  | Eol => mid = [] /\ (rest = [] \/ rest = [10%N])
  | One c => exists x, mid = [x] /\ mem c x = true
  | Rep c lo hi _ =>
      forallb (mem c) mid = true /\ lo <= List.length mid
      /\ match hi with Some h => List.length mid <= h | None => True end
  | Cat r1 r2 =>
      exists m1 m2, mid = m1 ++ m2 /\ matches r1 pos m1 (m2 ++ rest)
                    /\ matches r2 (pos + List.length m1) m2 rest
  | Opt r1 => mid = [] \/ matches r1 pos mid rest
  | Title r1 => matches r1 pos mid rest
  end.

(** A pattern that contains the group [title]. *)
Fixpoint has_title (r : regex) : bool :=
  match r with
  | Title _ => true
  | Cat r1 r2 => has_title r1 || has_title r2
  | Opt r1 => has_title r1
  | _ => false
  end.

(** What follows the group [title] in each pattern. *)
Definition EPISODE_TAIL : regex :=
  (star Space & lit "-" & star Space &
   (plus Digit & Opt (lit "." & plus Digit) & Opt (lit "v" & plus Digit)) &
   Opt (star Space & lit "(" & plus (not_ch ")") & lit ")") &
   star Space & lit "[" & plus hexdigit & lit "]" &
   lit "." & plus alnum & Eol)%re.

Definition MOVIE_TAIL : regex :=
  (star Space & lit "(" & exactly 4 Digit & lit ")" &
   lazy_star Dot & lit "." & plus alnum & Eol)%re.

(** A string that does not end with a character satisfying [p]. *)
Definition ends_clean (p : N -> bool) (l : pystr) : Prop :=
  starts_clean p (rev l).

(** [l] does not contain the character [c]. *)
Definition lacks (c : N) (l : pystr) : bool :=
  forallb (fun x => negb (x =? c)%N) l.

(* ================================================================== *)
(** * Theorems *)

(* ================================================================== *)
(** * Strings: stripping *)

Section Dropwhile.
Variable p : N -> bool.

Lemma dropwhile_split (l : pystr) :
  exists a, l = a ++ dropwhile p l /\ forallb p a = true.
Proof.
  induction l as [|c l IH]; simpl.
  - exists []. auto.
  - destruct (p c) eqn:E.
    + destruct IH as (a & H1 & H2). exists (c :: a). simpl.
      rewrite E, H2. split; [congruence | reflexivity].
    + exists []. auto.
Qed.

Lemma dropwhile_clean (l : pystr) : starts_clean p (dropwhile p l).
Proof.
  induction l as [|c l IH]; simpl; auto.
  destruct (p c) eqn:E; simpl; auto.
Qed.

Lemma dropwhile_id (l : pystr) : starts_clean p l -> dropwhile p l = l.
Proof. destruct l; simpl; intros H; [reflexivity | now rewrite H]. Qed.

Lemma dropwhile_idem (l : pystr) :
  dropwhile p (dropwhile p l) = dropwhile p l.
Proof. apply dropwhile_id, dropwhile_clean. Qed.

Lemma dropwhile_incl (l : pystr) c : In c (dropwhile p l) -> In c l.
Proof.
  destruct (dropwhile_split l) as (a & H & _). intros Hc.
  rewrite H. apply in_or_app. now right.
Qed.
End Dropwhile.

Lemma rstrip_split (l : pystr) :
  exists r, l = rstrip l ++ r /\ forallb isspace r = true.
Proof.
  unfold rstrip. destruct (dropwhile_split isspace (rev l)) as (a & H & Ha).
  exists (rev a). split.
  - rewrite <- (rev_involutive l) at 1. rewrite H at 1. apply rev_app_distr.
  - rewrite forallb_forall in *. intros c Hc. apply Ha. now apply in_rev.
Qed.

Lemma rstrip_ends_clean (l l' : pystr) c :
  rstrip l = l' ++ [c] -> isspace c = false.
Proof.
  unfold rstrip. intros H.
  pose proof (dropwhile_clean isspace (rev l)) as Hc.
  assert (E : dropwhile isspace (rev l) = c :: rev l').
  { rewrite <- (rev_involutive (dropwhile _ _)), H, rev_app_distr.
    reflexivity. }
  rewrite E in Hc. exact Hc.
Qed.

Lemma rstrip_idem (l : pystr) : rstrip (rstrip l) = rstrip l.
Proof. unfold rstrip. now rewrite rev_involutive, dropwhile_idem. Qed.

Lemma rstrip_starts_clean (l : pystr) :
  starts_clean isspace l -> starts_clean isspace (rstrip l).
Proof.
  destruct (rstrip_split l) as (r & H & _). intros Hl.
  destruct (rstrip l) as [|c t]; simpl; auto.
  rewrite H in Hl. exact Hl.
Qed.

Lemma strip_split (l : pystr) :
  exists a r, l = a ++ strip l ++ r
              /\ forallb isspace a = true /\ forallb isspace r = true.
Proof.
  destruct (dropwhile_split isspace l) as (a & Ha & Hsa).
  destruct (rstrip_split (lstrip l)) as (r & Hr & Hsr).
  exists a, r. unfold strip. repeat split; auto.
  rewrite <- Hr. exact Ha.
Qed.

Lemma strip_starts_clean (l : pystr) : starts_clean isspace (strip l).
Proof. apply rstrip_starts_clean, dropwhile_clean. Qed.

Lemma strip_idem (l : pystr) : strip (strip l) = strip l.
Proof.
  unfold strip at 1. unfold lstrip.
  rewrite (dropwhile_id _ _ (strip_starts_clean l)).
  unfold strip. apply rstrip_idem.
Qed.

Lemma strip_incl (l : pystr) c : In c (strip l) -> In c l.
Proof.
  destruct (strip_split l) as (a & r & H & _). intros Hc. rewrite H.
  apply in_or_app. right. apply in_or_app. now left.
Qed.

(* ================================================================== *)
(** * sanitize *)

Lemma INVALID_CHARS_reserved (c : N) :
  mem INVALID_CHARS c = is_reserved c.
Proof.
  unfold is_reserved. destruct (in_dec N.eq_dec c reserved) as [H|H].
  - simpl in H.
    repeat (destruct H as [H|H]; [subst c; reflexivity|]). destruct H.
  - cbv [mem INVALID_CHARS existsb item_mem].
    repeat (apply orb_false_intro); try reflexivity;
      apply N.eqb_neq; intros E; apply H; subst c; simpl; tauto.
Qed.

Lemma sub_INVALID_CHARS (s : pystr) :
  Re.sub INVALID_CHARS [underscore] s = map replace_reserved s.
Proof.
  unfold Re.sub. induction s as [|c s IH]; [reflexivity|].
  cbn [flat_map map]. rewrite IH, INVALID_CHARS_reserved.
  unfold replace_reserved. now destruct (is_reserved c).
Qed.

Lemma replace_reserved_clean (c : N) : is_reserved (replace_reserved c) = false.
Proof.
  unfold replace_reserved. destruct (is_reserved c) eqn:E; [reflexivity | exact E].
Qed.

Lemma replace_reserved_fix (l : pystr) :
  (forall c, In c l -> is_reserved c = false) -> map replace_reserved l = l.
Proof.
  induction l as [|c l IH]; simpl; intros H; [reflexivity|].
  unfold replace_reserved at 1. rewrite (H c (or_introl eq_refl)).
  f_equal. apply IH. intros; apply H; now right.
Qed.

Lemma sanitize_clean (s : pystr) c : In c (sanitize s) -> is_reserved c = false.
Proof.
  unfold sanitize. rewrite sub_INVALID_CHARS. intros H.
  apply strip_incl, in_map_iff in H. destruct H as (x & <- & _).
  apply replace_reserved_clean.
Qed.

(** C6: [sanitize] is defined on every string, the empty one included;
    its result is the input with each of the nine reserved characters
    replaced by an underscore and then the leading and trailing white space
    removed (what is removed on either side is white space only, and the
    result neither starts nor ends with white space); no reserved character
    is left in the result. *)
Theorem sanitize_spec (s : pystr) :
  sanitize s = strip (map replace_reserved s)
  /\ (exists a r, map replace_reserved s = a ++ sanitize s ++ r
                  /\ forallb isspace a = true /\ forallb isspace r = true)
  /\ (forall c t, sanitize s = c :: t -> isspace c = false)
  /\ (forall t c, sanitize s = t ++ [c] -> isspace c = false)
  /\ (forall c, In c (sanitize s) -> In c reserved -> False)
  /\ sanitize [] = [].
Proof.
  assert (E : sanitize s = strip (map replace_reserved s)).
  { unfold sanitize. now rewrite sub_INVALID_CHARS. }
  split; [exact E|]. split; [|split; [|split; [|split]]].
  - rewrite E. apply strip_split.
  - intros c t H. pose proof (strip_starts_clean (map replace_reserved s)) as Hc.
    rewrite <- E, H in Hc. exact Hc.
  - intros t c H. rewrite E in H. unfold strip in H.
    eapply rstrip_ends_clean; eauto.
  - intros c Hc Hr. apply sanitize_clean in Hc. unfold is_reserved in Hc.
    destruct (in_dec N.eq_dec c reserved); [discriminate | contradiction].
  - reflexivity.
Qed.

(** C7: [sanitize] is idempotent. *)
Theorem sanitize_idempotent (s : pystr) : sanitize (sanitize s) = sanitize s.
Proof.
  unfold sanitize at 1. rewrite sub_INVALID_CHARS.
  rewrite replace_reserved_fix by apply sanitize_clean.
  unfold sanitize. apply strip_idem.
Qed.

(* ================================================================== *)
(** * The matcher *)

Lemma rep_inv (R : Type) (c : cset) (g : bool) (s : pystr) :
  forall lo hi pos (k : nat -> pystr -> option R) x,
    rep c g lo hi pos s k = Some x ->
    exists mid s', s = mid ++ s' /\ k (pos + List.length mid) s' = Some x
                   /\ forallb (mem c) mid = true.
Proof.
  induction s as [|a s IH]; intros lo hi pos k x H.
  - exists [], []. simpl. rewrite Nat.add_0_r.
    destruct lo; simpl in H; [|discriminate].
    destruct g; [auto | destruct (k pos []); [auto | discriminate]].
  - assert (Hmore :
      (if mem c a && may_take hi
       then rep c g (pred lo) (one_less hi) (S pos) s k else None) = Some x ->
      exists mid s', a :: s = mid ++ s' /\ k (pos + List.length mid) s' = Some x
                     /\ forallb (mem c) mid = true).
    { destruct (mem c a) eqn:Ea; [|discriminate].
      destruct (may_take hi); [|discriminate]. simpl. intros H'.
      apply IH in H'. destruct H' as (mid & s' & -> & Hk & Hall).
      exists (a :: mid), s'. simpl. rewrite Nat.add_succ_r, Ea. auto. }
    assert (Hstop : k pos (a :: s) = Some x ->
      exists mid s', a :: s = mid ++ s' /\ k (pos + List.length mid) s' = Some x
                     /\ forallb (mem c) mid = true).
    { intros H'. exists [], (a :: s). simpl. rewrite Nat.add_0_r. auto. }
    cbn [rep] in H. destruct lo; [|auto].
    destruct g.
    + destruct (if mem c a && may_take hi then _ else None) eqn:E; auto.
    + destruct (k pos (a :: s)) eqn:E; auto.
Qed.

(** Every result of [run] comes from the continuation, called after a run
    [mid] of characters was consumed; the capture it receives is the one
    passed in or a part of [mid], and the latter when the pattern is
    [definite]. *)
Lemma run_inv (R : Type) (r : regex) :
  forall pos s cap (k : cont R) x,
    run r pos s cap k = Some x ->
    exists mid s' cap',
      s = mid ++ s' /\ k (pos + List.length mid) s' cap' = Some x
      /\ (cap' = cap \/ exists t, cap' = Some t /\ substring t mid)
      /\ (definite r = true -> exists t, cap' = Some t /\ substring t mid).
Proof.
  induction r as [| |c|c lo hi g|r1 IH1 r2 IH2|r1 IH1|r1 IH1];
    intros pos s cap k x H; cbn [run definite] in *.
  - destruct (Nat.eqb pos 0); [|discriminate].
    exists [], s, cap. simpl. rewrite Nat.add_0_r. intuition discriminate.
  - assert (Hk : k pos s cap = Some x).
    { destruct s as [|c [|c' s]]; auto; [|discriminate].
      destruct (c =? 10)%N; [auto | discriminate]. }
    exists [], s, cap. simpl. rewrite Nat.add_0_r. intuition discriminate.
  - destruct s as [|a s]; [discriminate|].
    destruct (mem c a); [|discriminate].
    exists [a], s, cap. simpl. rewrite Nat.add_1_r. intuition discriminate.
  - apply rep_inv in H. destruct H as (mid & s' & -> & Hk & _).
    exists mid, s', cap. intuition discriminate.
  - apply IH1 in H. destruct H as (m1 & s1 & c1 & -> & H & Hc1 & Hd1).
    apply IH2 in H. destruct H as (m2 & s2 & c2 & -> & H & Hc2 & Hd2).
    exists (m1 ++ m2), s2, c2. rewrite length_app, Nat.add_assoc, <- app_assoc.
    assert (Hin1 : forall t, substring t m1 -> substring t (m1 ++ m2)).
    { intros t (a & b & ->). exists a, (b ++ m2). now rewrite <- !app_assoc. }
    assert (Hin2 : forall t, substring t m2 -> substring t (m1 ++ m2)).
    { intros t (a & b & ->). exists (m1 ++ a), b. now rewrite <- !app_assoc. }
    split; [reflexivity|]. split; [exact H|]. split.
    + destruct Hc2 as [->|(t & -> & Ht)]; [|right; eauto].
      destruct Hc1 as [->|(t & -> & Ht)]; [left; reflexivity | right; eauto].
    + intros Hd. destruct (definite r2).
      * destruct Hd2 as (t & -> & Ht); eauto.
      * rewrite orb_false_r in Hd. destruct Hd1 as (t & -> & Ht); auto.
        destruct Hc2 as [->|(t' & -> & Ht')]; eauto.
  - destruct (run r1 pos s cap k) eqn:E.
    + injection H as ->. apply IH1 in E.
      destruct E as (m1 & s1 & c1 & -> & H & Hc1 & _).
      exists m1, s1, c1. intuition discriminate.
    + exists [], s, cap. simpl. rewrite Nat.add_0_r. intuition discriminate.
  - apply IH1 in H. destruct H as (m1 & s1 & c1 & -> & H & _ & _).
    replace (pos + List.length m1 - pos) with (List.length m1) in H by lia.
    rewrite firstn_app, Nat.sub_diag, firstn_all, firstn_O, app_nil_r in H.
    exists m1, s1, (Some m1). split; [reflexivity|]. split; [exact H|].
    assert (substring m1 m1) by (exists [], []; now rewrite app_nil_r).
    split; [right|intros _]; eauto.
Qed.

(** A match starts at the first character and covers a prefix of the
    subject; the captured title is a part of that prefix. *)
Lemma re_match_prefix (r : regex) (f : pystr) (m : match_obj) :
  re_match r f = Some m ->
  exists matched rest,
    f = matched ++ rest /\ m_end m = List.length matched
    /\ (forall t, m_title m = Some t -> substring t matched)
    /\ (definite r = true -> m_title m <> None).
Proof.
  unfold re_match. intros H. apply run_inv in H.
  destruct H as (mid & s' & cap' & -> & H & Hc & Hd).
  injection H as <-. simpl. exists mid, s'. repeat split.
  - intros t Ht. destruct Hc as [->|(t' & -> & Hs)]; [discriminate|].
    now injection Ht as <-.
  - intros D. destruct (Hd D) as (t & -> & _). discriminate.
Qed.

(** In both patterns of the script the group [title] takes part in every
    match, so [m.group("title")] is a string. *)
Lemma PATTERNS_title_set (p : regex) (f : pystr) (m : match_obj) :
  In p PATTERNS -> re_match p f = Some m -> m_title m = Some (group_title m).
Proof.
  intros Hp H. apply re_match_prefix in H.
  destruct H as (_ & _ & _ & _ & _ & Hd).
  assert (D : definite p = true).
  { destruct Hp as [<-|[<-|[]]]; reflexivity. }
  unfold group_title. destruct (m_title m); [reflexivity | now elim (Hd D)].
Qed.

(* ================================================================== *)
(** * Directory listings *)

Lemma pystr_eqb_eq (a b : pystr) : pystr_eqb a b = true <-> a = b.
Proof.
  unfold pystr_eqb. destruct (list_eq_dec N.eq_dec a b); intuition discriminate.
Qed.

Lemma pystr_eqb_refl (a : pystr) : pystr_eqb a a = true.
Proof. now apply pystr_eqb_eq. Qed.

Lemma pystr_eqb_neq (a b : pystr) : pystr_eqb a b = false <-> a <> b.
Proof.
  unfold pystr_eqb. destruct (list_eq_dec N.eq_dec a b); intuition discriminate.
Qed.

(** Case split on the equality of two names. *)
Ltac eqb_cases a b :=
  let E := fresh "E" in
  destruct (pystr_eqb a b) eqn:E;
  [apply pystr_eqb_eq in E | apply pystr_eqb_neq in E].

Lemma lookup_app (n : pystr) (es es' : entries) :
  lookup n (es ++ es') =
  match lookup n es with Some x => Some x | None => lookup n es' end.
Proof.
  induction es as [|[m x] es IH]; simpl; [reflexivity|].
  now destruct (pystr_eqb m n).
Qed.

Lemma lookup_remove_neq (n n' : pystr) (es : entries) :
  n <> n' -> lookup n (remove n' es) = lookup n es.
Proof.
  intros Hn. induction es as [|[m x] es IH]; simpl; [reflexivity|].
  eqb_cases m n'; simpl.
  - subst m. rewrite IH. eqb_cases n' n; [congruence | reflexivity].
  - now rewrite IH.
Qed.

Lemma lookup_remove_eq (n : pystr) (es : entries) : lookup n (remove n es) = None.
Proof.
  induction es as [|[m x] es IH]; simpl; [reflexivity|].
  eqb_cases m n; simpl; [exact IH|].
  eqb_cases m n; [contradiction | exact IH].
Qed.

Lemma lookup_update (n t : pystr) (f : node -> node) (es : entries) :
  lookup n (update t f es) =
  if pystr_eqb t n then option_map f (lookup n es) else lookup n es.
Proof.
  induction es as [|[m x] es IH]; simpl.
  - now destruct (pystr_eqb t n).
  - eqb_cases m t; simpl.
    + subst m. eqb_cases t n; reflexivity.
    + rewrite IH. eqb_cases m n; [|reflexivity].
      subst m. eqb_cases t n; [congruence | reflexivity].
Qed.

Lemma names_update (t : pystr) (f : node -> node) (es : entries) :
  names (update t f es) = names es.
Proof.
  induction es as [|[m x] es IH]; simpl; [reflexivity|].
  destruct (pystr_eqb m t); simpl; [reflexivity | now rewrite IH].
Qed.

Lemma in_names_remove (n n' : pystr) (es : entries) :
  In n (names (remove n' es)) <-> In n (names es) /\ n <> n'.
Proof.
  unfold names, remove. rewrite !in_map_iff. split.
  - intros ([m x] & <- & H). apply filter_In in H. destruct H as (H & E).
    simpl in *. apply negb_true_iff, pystr_eqb_neq in E.
    split; [exists (m, x); auto | exact E].
  - intros (([m x] & <- & H) & E). exists (m, x). split; [reflexivity|].
    apply filter_In. split; [exact H|]. simpl in *.
    now apply negb_true_iff, pystr_eqb_neq.
Qed.

Lemma lookup_None (n : pystr) (es : entries) :
  lookup n es = None <-> ~ In n (names es).
Proof.
  induction es as [|[m x] es IH]; simpl; [tauto|].
  eqb_cases m n.
  - split; [discriminate | intros H; elim H; auto].
  - rewrite IH. tauto.
Qed.

Lemma lookup_Some_in (n : pystr) (x : node) (es : entries) :
  lookup n es = Some x -> In (n, x) es.
Proof.
  induction es as [|[m y] es IH]; simpl; [discriminate|].
  eqb_cases m n; [intros [= ->]; subst; auto | auto].
Qed.

Lemma lookup_in_names (n : pystr) (es : entries) :
  In n (names es) -> exists x, lookup n es = Some x.
Proof.
  intros H. destruct (lookup n es) eqn:E; [eauto|].
  apply lookup_None in E. contradiction.
Qed.

Lemma lookup_NoDup_in (n : pystr) (x : node) (es : entries) :
  NoDup (names es) -> In (n, x) es -> lookup n es = Some x.
Proof.
  induction es as [|[m y] es IH]; simpl; [tauto|].
  intros Hnd [H|H]; inversion Hnd; subst.
  - injection H as -> ->. now rewrite pystr_eqb_refl.
  - eqb_cases m n; [|auto]. subst m.
    elim H2. apply in_map_iff. exists (n, x). auto.
Qed.

Lemma lookup_perm (n : pystr) (es es' : entries) :
  NoDup (names es) -> Permutation es es' -> lookup n es = lookup n es'.
Proof.
  intros Hnd Hp.
  assert (Hnd' : NoDup (names es')).
  { eapply Permutation_NoDup; [|exact Hnd]. now apply Permutation_map. }
  destruct (lookup n es) eqn:E.
  - symmetry. apply lookup_NoDup_in; [exact Hnd'|].
    eapply Permutation_in; [exact Hp|]. now apply lookup_Some_in.
  - symmetry. apply lookup_None. apply lookup_None in E. intros H. apply E.
    eapply Permutation_in; [|exact H]. apply Permutation_map.
    now apply Permutation_sym.
Qed.

Lemma NoDup_names_remove (n : pystr) (es : entries) :
  NoDup (names es) -> NoDup (names (remove n es)).
Proof.
  induction es as [|[m x] es IH]; simpl; [auto|].
  intros H. inversion H; subst.
  destruct (negb (pystr_eqb m n)); simpl; [|auto].
  constructor; [|auto]. intros Hin. apply in_names_remove in Hin. tauto.
Qed.

Lemma NoDup_names_app (t : pystr) (x : node) (es : entries) :
  NoDup (names es) -> lookup t es = None -> NoDup (names (es ++ [(t, x)])).
Proof.
  intros H E. unfold names. rewrite map_app. simpl.
  apply NoDup_app; [exact H | repeat constructor; simpl; tauto |].
  intros n Hn [<-|[]]. apply lookup_None in E. contradiction.
Qed.

(* ================================================================== *)
(** * One round of the first loop *)

Lemma root_join_Sub (t t' : pystr) : root_join t = Sub t' -> t' = t.
Proof.
  unfold root_join. destruct (pystr_eqb t (py ".")); [discriminate|].
  destruct (pystr_eqb t (py "..")); [discriminate|]. now intros [= <-].
Qed.

Lemma is_dir_node_false_update (n t : pystr) (f : node -> node) (es : entries) x :
  lookup n es = Some x -> is_dir_node (Some x) = false ->
  (forall y, is_dir_node (Some y) = false -> f y = y) ->
  lookup n (update t f es) = Some x.
Proof.
  intros H Hx Hf. rewrite lookup_update, H.
  destruct (pystr_eqb t n); simpl; [now rewrite Hf | reflexivity].
Qed.

Lemma scan_entry_cases (name : pystr) (mv : nat) (st : state) :
  scan_entry_spec name mv st (scan_entry name mv st).
Proof.
  destruct st as [w tr].
  cbv beta iota zeta delta
    [scan_entry bind is_dir get_fs ret call_extract_title emit print
     mkdir_exist_ok exists_ move put_fs raise fs trace].
  destruct (is_dir_node (lookup name (here w))) eqn:Ed.
  { now apply SE_dir. }
  destruct (extract_title name) as [[|c cs]|] eqn:Et;
    [ apply (SE_untitled name mv {| fs := w; trace := tr |}); auto | |
      apply (SE_untitled name mv {| fs := w; trace := tr |}); auto ].
  set (t := c :: cs) in *.
  assert (Ht : t <> []) by discriminate.
  destruct (root_join t) as [| |t0] eqn:Ep; cbv beta iota zeta.
  - (* root / "." *)
    assert (P : prepared w t w) by (apply Prepared_old; congruence).
    destruct (target_exists w Here name) eqn:Ex; cbv beta iota zeta.
    + rewrite <- app_assoc. cbn [app]. rewrite <- Ep.
      eapply (SE_skipped name mv {| fs := w; trace := tr |}); se_done;
      try (now rewrite Ep).
    + pose proof Ex as Ex'. unfold target_exists, target in Ex'.
      destruct (lookup name (here w)) eqn:El; [discriminate|].
      eapply (SE_move_failed name mv {| fs := w; trace := tr |}); se_done.
  - (* root / ".." *)
    assert (P : prepared w t w) by (apply Prepared_old; congruence).
    destruct (target_exists w DotDot name) eqn:Ex; cbv beta iota zeta.
    + rewrite <- app_assoc. cbn [app]. rewrite <- Ep.
      eapply (SE_skipped name mv {| fs := w; trace := tr |}); se_done;
      try (now rewrite Ep).
    + destruct (lookup name (here w)) eqn:El.
      * destruct (above w) as [[rn sibs]|] eqn:Ea; cbv beta iota zeta.
        -- rewrite <- app_assoc. cbn [app].
           eapply (SE_moved_up name mv {| fs := w; trace := tr |}); se_done;
           try (now rewrite El in Ed).
        -- unfold target_exists, target in Ex. rewrite Ea, El in Ex.
           discriminate.
      * eapply (SE_move_failed name mv {| fs := w; trace := tr |}); se_done.
  - (* root / title *)
    apply root_join_Sub in Ep as Et0. subst t0.
    destruct (lookup t (here w)) as [[d m|m|a m es]|] eqn:Elt; cbv beta iota zeta.
    + eapply (SE_blocked name mv {| fs := w; trace := tr |}); se_done.
    + eapply (SE_blocked name mv {| fs := w; trace := tr |}); se_done.
    + assert (P : prepared w t w).
      { apply Prepared_old. intros t' E. rewrite Ep in E. injection E as <-.
        now rewrite Elt. }
      destruct (target_exists w (Sub t) name) eqn:Ex; cbv beta iota zeta.
      * rewrite <- app_assoc. cbn [app]. rewrite <- Ep.
        eapply (SE_skipped name mv {| fs := w; trace := tr |}); se_done;
        try (now rewrite Ep).
      * destruct (lookup name (here w)) eqn:El.
        -- assert (Hne : t <> name).
           { intros E. rewrite E, El in Elt. injection Elt as ->.
             discriminate Ed. }
           rewrite lookup_remove_neq, Elt by exact Hne. cbv beta iota zeta delta [is_dir_node].
           rewrite <- app_assoc. cbn [app place_name]; cbv beta iota zeta.
           eapply (SE_moved_into name mv {| fs := w; trace := tr |}); se_done;
           try (now rewrite El in Ed).
        -- eapply (SE_move_failed name mv {| fs := w; trace := tr |}); se_done.
    + assert (P : prepared w t (made t w)) by now apply Prepared_new.
      destruct (target_exists (made t w) (Sub t) name) eqn:Ex; cbv beta iota zeta.
      * rewrite <- app_assoc. cbn [app]. rewrite <- Ep.
        eapply (SE_skipped name mv {| fs := w; trace := tr |}); se_done;
        try (now rewrite Ep).
      * destruct (lookup name (here w)) eqn:El.
        -- assert (Hne : t <> name) by (intros E; rewrite E in Elt; congruence).
           assert (El' : lookup name (here (made t w)) = Some n).
           { unfold made. cbn [here set_here]. now rewrite lookup_app, El. }
           rewrite El'.
           assert (Ed' : is_dir_node (lookup t (remove name (here (made t w)))) = true).
           { rewrite lookup_remove_neq by exact Hne. unfold made.
             cbn [here set_here]. rewrite lookup_app, Elt. simpl.
             now rewrite pystr_eqb_refl. }
           rewrite Ed'. cbv beta iota zeta.
           rewrite <- app_assoc. cbn [app place_name]; cbv beta iota zeta.
           eapply (SE_moved_into name mv {| fs := w; trace := tr |}); se_done;
           try (now rewrite El in Ed).
        -- (* the folder just created bears the scanned name *)
           unfold made at 1. cbn [here set_here]. rewrite lookup_app, El.
           cbn [lookup]. eqb_cases t name.
           ++ subst name. rewrite lookup_remove_eq. cbv beta iota zeta delta [is_dir_node].
              eapply (SE_move_failed t mv {| fs := w; trace := tr |}); se_done.
           ++ eapply (SE_move_failed name mv {| fs := w; trace := tr |}); se_done.
Qed.

(* ================================================================== *)
(** * What the file-system calls leave alone *)

Lemma add_entry_nondir (t : Z) (n : pystr) (x y : node) :
  is_dir_node (Some y) = false -> add_entry t n x y = y.
Proof. now destruct y. Qed.

Lemma is_dir_add_entry (t : Z) (n : pystr) (x : node) (y : option node) :
  is_dir_node (option_map (add_entry t n x) y) = is_dir_node y.
Proof. now destruct y as [[]|]. Qed.

Lemma is_dir_set_times (a m : Z) (y : option node) :
  is_dir_node (option_map (set_times a m) y) = is_dir_node y.
Proof. now destruct y as [[]|]. Qed.

Lemma inside_app_new (es : entries) (t t0 n : pystr) (a m : Z) :
  lookup t es = None ->
  inside (es ++ [(t, Dir a m [])]) t0 n = inside es t0 n.
Proof.
  intros H. unfold inside. rewrite lookup_app.
  destruct (lookup t0 es) eqn:E; [reflexivity|]. simpl.
  now destruct (pystr_eqb t t0).
Qed.

Lemma inside_remove (es : entries) (n' t0 n : pystr) (x' : node) :
  lookup n' es = Some x' -> is_dir_node (Some x') = false ->
  inside (remove n' es) t0 n = inside es t0 n.
Proof.
  intros H Hx. unfold inside.
  destruct (list_eq_dec N.eq_dec t0 n') as [->|Hne].
  - rewrite lookup_remove_eq, H. now destruct x'.
  - now rewrite lookup_remove_neq.
Qed.

Lemma inside_update_add (es : entries) (t n' t0 n : pystr) (x' : node) (now_ : Z) :
  n <> n' ->
  inside (update t (add_entry now_ n' x') es) t0 n = inside es t0 n.
Proof.
  intros Hne. unfold inside. rewrite lookup_update.
  destruct (pystr_eqb t t0); [|reflexivity].
  destruct (lookup t0 es) as [[d m|m|a m c]|]; simpl; try reflexivity.
  rewrite lookup_app. destruct (lookup n c); [reflexivity|]. simpl.
  eqb_cases n' n; [congruence | reflexivity].
Qed.

Lemma inside_update_times (es : entries) (d t0 n : pystr) (a m : Z) :
  inside (update d (set_times a m) es) t0 n = inside es t0 n.
Proof.
  unfold inside. rewrite lookup_update.
  destruct (pystr_eqb d t0); [|reflexivity].
  now destruct (lookup t0 es) as [[]|].
Qed.

Lemma leaves_alone_refl (gone : pystr -> Prop) (w : world) :
  leaves_alone gone w w.
Proof. split; auto. Qed.

Lemma leaves_alone_trans (gone : pystr -> Prop) (w1 w2 w3 : world) :
  leaves_alone gone w1 w2 -> leaves_alone gone w2 w3 ->
  leaves_alone gone w1 w3.
Proof.
  intros [A1 B1 C1] [A2 B2 C2]. split.
  - auto.
  - intros n x G H Hx. eauto.
  - intros n x p G H Hx. rewrite (C2 n x p); eauto.
Qed.

Lemma leaves_alone_weaken (gone gone' : pystr -> Prop) (w w' : world) :
  (forall n, gone n -> gone' n) ->
  leaves_alone gone w w' -> leaves_alone gone' w w'.
Proof.
  intros Hg [A B C]. split; [auto | |]; intros; [eapply B | eapply C]; eauto.
Qed.

(** Targets depend on the root's listing through [lookup] and [inside]. *)
Lemma target_set_here (w : world) (es : entries) (p : place) (n : pystr) :
  lookup n es = lookup n (here w) ->
  (forall t0, inside es t0 n = inside (here w) t0 n) ->
  target (set_here w es) p n = target w p n.
Proof.
  intros H1 H2. destruct p; unfold target; cbn [here above set_here].
  - now rewrite H1.
  - destruct (above w) as [[rn sibs]|]; [reflexivity | now rewrite H1].
  - apply H2.
Qed.

Lemma made_leaves_alone (t : pystr) (w : world) :
  lookup t (here w) = None -> leaves_alone (fun _ => False) w (made t w).
Proof.
  intros Ht. unfold made. split; cbn [here set_here].
  - intros n H. rewrite lookup_app. now destruct (lookup n (here w)).
  - intros n x _ H _. now rewrite lookup_app, H.
  - intros n x p _ H _. apply target_set_here.
    + now rewrite lookup_app, H.
    + intros t0. now apply inside_app_new.
Qed.

Lemma moved_into_leaves_alone (t name : pystr) (x : node) (w : world) :
  lookup name (here w) = Some x -> is_dir_node (Some x) = false ->
  leaves_alone (eq name) w (moved_into t name x w).
Proof.
  intros Hn Hx. unfold moved_into.
  assert (L : forall n y, name <> n -> lookup n (here w) = Some y ->
              is_dir_node (Some y) = false ->
              lookup n (update t (add_entry (now w) name x)
                          (remove name (here w))) = Some y).
  { intros n y G H Hy. apply is_dir_node_false_update; auto.
    - rewrite lookup_remove_neq; auto.
    - intros z Hz. now apply add_entry_nondir. }
  split; cbn [here set_here].
  - intros n H. rewrite lookup_update.
    assert (Hne : n <> name) by (intros ->; rewrite Hn, Hx in H; discriminate).
    rewrite lookup_remove_neq by exact Hne.
    destruct (pystr_eqb t n); [now rewrite is_dir_add_entry | exact H].
  - exact L.
  - intros n y p G H Hy. apply target_set_here.
    + rewrite H. now apply L.
    + intros t0. rewrite inside_update_add by auto.
      eapply inside_remove; eauto.
Qed.

Lemma moved_up_leaves_alone (rn : pystr) (sibs : entries) (name : pystr)
    (x : node) (w : world) :
  above w = Some (rn, sibs) ->
  lookup name (here w) = Some x -> is_dir_node (Some x) = false ->
  leaves_alone (eq name) w (moved_up rn sibs name x w).
Proof.
  intros Ha Hn Hx. unfold moved_up. split; cbn [here above set_here set_above].
  - intros n H.
    assert (Hne : n <> name) by (intros ->; rewrite Hn, Hx in H; discriminate).
    now rewrite lookup_remove_neq.
  - intros n y G H _. rewrite lookup_remove_neq; auto.
  - intros n y p G H Hy. destruct p; unfold target;
      cbn [here above set_here set_above]; rewrite ?Ha.
    + rewrite lookup_remove_neq; auto.
    + destruct (pystr_eqb rn n); [reflexivity|]. rewrite lookup_app.
      destruct (lookup n sibs); [reflexivity|]. simpl.
      eqb_cases name n; [congruence | reflexivity].
    + eapply inside_remove; eauto.
Qed.

Lemma touched_leaves_alone (d : pystr) (a m : Z) (w : world) :
  is_dir_node (lookup d (here w)) = true ->
  leaves_alone (fun _ => False) w (touched d a m w).
Proof.
  intros Hd. unfold touched.
  assert (L : forall n y, lookup n (here w) = Some y ->
              is_dir_node (Some y) = false ->
              lookup n (update d (set_times a m) (here w)) = Some y).
  { intros n y H Hy. rewrite lookup_update. eqb_cases d n; [|exact H].
    subst d. rewrite H, Hy in Hd. discriminate. }
  split; cbn [here set_here].
  - intros n H. rewrite lookup_update.
    destruct (pystr_eqb d n); [now rewrite is_dir_set_times | exact H].
  - intros n y _. apply L.
  - intros n y p _ H Hy. apply target_set_here.
    + rewrite H. now apply L.
    + intros t0. apply inside_update_times.
Qed.

Lemma prepared_leaves_alone (w w' : world) (t : pystr) :
  prepared w t w' -> leaves_alone (fun _ => False) w w'.
Proof.
  intros [Hp Ht|_]; [now apply made_leaves_alone | apply leaves_alone_refl].
Qed.

(* ================================================================== *)
(** * Consequences for the first loop *)

Lemma prepared_kept (w w' : world) (t n : pystr) :
  prepared w t w' -> target_exists w (root_join t) n = true -> w' = w.
Proof.
  intros [Hp Ht|_] H; [|reflexivity].
  rewrite Hp in H. unfold target_exists, target, inside in H.
  rewrite Ht in H. discriminate.
Qed.

Lemma prepared_names (w w' : world) (t n : pystr) :
  prepared w t w' -> In n (names (here w')) ->
  In n (names (here w))
  \/ (n = t /\ root_join t = Sub t /\ is_dir_node (lookup n (here w')) = true).
Proof.
  intros [Hp Ht|_] H; [|now left].
  unfold made, names in *. cbn [here set_here] in *.
  rewrite map_app in H. apply in_app_or in H. destruct H as [H|[<-|[]]].
  - now left.
  - right. repeat split; auto. simpl.
    now rewrite lookup_app, Ht; simpl; rewrite pystr_eqb_refl.
Qed.

Lemma prepared_NoDup (w w' : world) (t : pystr) :
  prepared w t w' -> NoDup (names (here w)) -> NoDup (names (here w')).
Proof.
  intros [Hp Ht|_] H; [|exact H]. now apply NoDup_names_app.
Qed.

Lemma scan_entry_leaves_alone (name : pystr) (mv : nat) (st : state) :
  leaves_alone (eq name) (fs st) (fs (snd (scan_entry name mv st))).
Proof.
  destruct (scan_entry_cases name mv st)
    as [Hd|Hd Ht|t x Hd Ht Hne Hp Hl Hx|t w' Hd Ht Hne P Hex
       |t w' e Hd Ht Hne P Hex Hl|t w' x Ht Hne P Hp Hl Hx Hex
       |t rn sibs x Ht Hne Hp Ha Hl Hx Hex];
    cbn [snd fs logged]; try apply leaves_alone_refl.
  - eapply leaves_alone_weaken; [|eapply prepared_leaves_alone; eauto]. now intros ? [].
  - eapply leaves_alone_weaken; [|eapply prepared_leaves_alone; eauto]. now intros ? [].
  - apply prepared_leaves_alone in P as LA.
    eapply leaves_alone_trans.
    + eapply leaves_alone_weaken; [|exact LA]. now intros ? [].
    + apply moved_into_leaves_alone; [|exact Hx].
      eapply (others_stay LA); eauto.
  - now apply moved_up_leaves_alone.
Qed.

Lemma settled_stays (gone : pystr -> Prop) (w w' : world) (n : pystr) (x : node) :
  leaves_alone gone w w' -> ~ gone n -> lookup n (here w) = Some x ->
  settled w n = true -> settled w' n = true.
Proof.
  intros LA G H S. unfold settled in *.
  destruct (is_dir_node (Some x)) eqn:Ex.
  - rewrite (dirs_stay LA n); [reflexivity | now rewrite H].
  - rewrite H, Ex in S. simpl in S.
    destruct (extract_title n) as [[|c cs]|]; try apply orb_true_r.
    unfold target_exists in *. rewrite (@targets_stay _ _ _ LA n x _ G H Ex).
    rewrite S. apply orb_true_r.
Qed.

Lemma scan_entry_NoDup (name : pystr) (mv : nat) (st : state) :
  NoDup (names (here (fs st))) ->
  NoDup (names (here (fs (snd (scan_entry name mv st))))).
Proof.
  intros H.
  destruct (scan_entry_cases name mv st)
    as [Hd|Hd Ht|t x Hd Ht Hne Hp Hl Hx|t w' Hd Ht Hne P Hex
       |t w' e Hd Ht Hne P Hex Hl|t w' x Ht Hne P Hp Hl Hx Hex
       |t rn sibs x Ht Hne Hp Ha Hl Hx Hex];
    cbn [snd fs logged]; auto; try (eapply prepared_NoDup; eauto; fail).
  - unfold moved_into. cbn [here set_here]. rewrite names_update.
    apply NoDup_names_remove. eapply prepared_NoDup; eauto.
  - unfold moved_up. cbn [here set_here set_above].
    now apply NoDup_names_remove.
Qed.

(** After a round that did not raise, every root entry is settled or was
    there before, unsettled, under another name than the one scanned. *)
Lemma scan_entry_settles (name : pystr) (mv m' : nat) (st st' : state) :
  scan_entry name mv st = (Ok m', st') ->
  forall n, In n (names (here (fs st'))) ->
    settled (fs st') n = true
    \/ (n <> name /\ In n (names (here (fs st)))
        /\ settled (fs st) n = false).
Proof.
  intros E n Hin.
  pose proof (scan_entry_leaves_alone name mv st) as LA. rewrite E in LA.
  cbn [snd] in LA.
  assert (Old : In n (names (here (fs st))) -> n <> name ->
                settled (fs st') n = true
                \/ (n <> name /\ In n (names (here (fs st)))
                    /\ settled (fs st) n = false)).
  { intros Hold Hne. destruct (settled (fs st) n) eqn:S; [left | now right].
    destruct (lookup_in_names _ _ Hold) as (x & Hx).
    eapply settled_stays; eauto. }
  assert (New : is_dir_node (lookup n (here (fs st'))) = true ->
                settled (fs st') n = true).
  { intros H. unfold settled. now rewrite H. }
  pose proof (scan_entry_cases name mv st) as C. rewrite E in C.
  inversion C as [Hd|Hd Ht|t x Hd Ht Hne Hp Hl Hx|t w' Hd Ht Hne P Hex
       |t w' e Hd Ht Hne P Hex Hl|t w' x Ht Hne P Hp Hl Hx Hex
       |t rn sibs x Ht Hne Hp Ha Hl Hx Hex]; subst; cbn [fs logged] in *.
  - destruct (list_eq_dec N.eq_dec n name) as [->|Hn]; [|auto].
    left. unfold settled. now rewrite Hd.
  - destruct (list_eq_dec N.eq_dec n name) as [->|Hn]; [|auto].
    left. unfold settled. destruct Ht as [-> | ->]; apply orb_true_r.
  - destruct (prepared_names n P Hin) as [Hold|(-> & _ & Hdir)]; [|auto].
    destruct (list_eq_dec N.eq_dec n name) as [->|Hn]; [|auto].
    left. unfold settled. rewrite Ht.
    destruct t; [congruence|]. rewrite Hex. apply orb_true_r.
  - unfold moved_into in Hin. cbn [here set_here] in Hin.
    rewrite names_update in Hin. apply in_names_remove in Hin.
    destruct Hin as (Hin & Hn).
    destruct (prepared_names n P Hin) as [Hold|(-> & _ & Hdir)]; [auto|].
    left. apply New.
    assert (Hl' : lookup name (here w') = Some x).
    { eapply (others_stay (prepared_leaves_alone P)); eauto. }
    pose proof (@moved_into_leaves_alone t name x w' Hl' Hx) as LA'.
    apply (dirs_stay LA'). exact Hdir.
  - unfold moved_up in Hin. cbn [here set_here set_above] in Hin.
    apply in_names_remove in Hin. destruct Hin as (Hin & Hn). auto.
Qed.

(* ================================================================== *)
(** * The second loop *)

Lemma same_but_times_refl (x : node) : same_but_times x x.
Proof. now left. Qed.

Lemma same_but_times_trans (x y z : node) :
  same_but_times x y -> same_but_times y z -> same_but_times x z.
Proof.
  intros [->|(a & m & a' & m' & es & -> & ->)] H; [exact H|].
  destruct H as [<-|(a2 & m2 & a3 & m3 & es2 & E & ->)].
  - right. now exists a, m, a', m', es.
  - injection E as -> -> ->. right. now exists a, m, a3, m3, es2.
Qed.

Lemma oftd_refl (w : world) : only_folder_times_differ w w.
Proof.
  split; [reflexivity|]. induction (here w); constructor; auto.
  split; [reflexivity | apply same_but_times_refl].
Qed.

Lemma oftd_trans (w1 w2 w3 : world) :
  only_folder_times_differ w1 w2 -> only_folder_times_differ w2 w3 ->
  only_folder_times_differ w1 w3.
Proof.
  intros [A1 F1] [A2 F2]. split; [congruence|].
  revert F2. generalize (here w3). induction F1 as [|e1 e2 l1 l2 [H1 H2] F1 IH];
    intros l3 F2; inversion F2 as [|e2' e3 l2' l3' [H3 H4]]; subst;
    constructor; auto.
  split; [congruence | eapply same_but_times_trans; eauto].
Qed.

Lemma oftd_names (w w' : world) :
  only_folder_times_differ w w' -> names (here w') = names (here w).
Proof.
  intros [_ F]. unfold names.
  induction F as [|e e' l l' [H _] F IH]; simpl; congruence.
Qed.

Lemma touched_oftd (d : pystr) (a m : Z) (w : world) :
  is_dir_node (lookup d (here w)) = true ->
  only_folder_times_differ w (touched d a m w).
Proof.
  intros Hd. split; [reflexivity|]. unfold touched. cbn [here set_here].
  induction (here w) as [|[n x] es IH]; simpl in *; [constructor|].
  destruct (pystr_eqb n d).
  - constructor.
    + split; [reflexivity|]. destruct x; try discriminate. right.
      simpl. now exists atime, mtime, a, m, entries0.
    + clear. induction es; constructor; auto.
      split; [reflexivity | apply same_but_times_refl].
  - constructor; [|auto]. split; [reflexivity | apply same_but_times_refl].
Qed.

Lemma sync_folder_mtime_cases (d : pystr) (st : state) :
  is_dir_node (lookup d (here (fs st))) = true ->
  sync_folder_mtime d st = (Ok tt, st)
  \/ exists t, sync_folder_mtime d st
               = (Ok tt, {| fs := touched d t t (fs st); trace := trace st |}).
Proof.
  intros Hd. destruct st as [w tr].
  cbv beta iota zeta delta
    [sync_folder_mtime rglob_mtimes utime bind get_fs put_fs ret raise fs trace]
    in *.
  destruct (lookup d (here w)) as [x|] eqn:E; [|discriminate].
  cbv beta iota. destruct (rglob_file_mtimes x) as [|t ts]; cbv beta iota.
  - now left.
  - right. rewrite E. cbv beta iota. eauto.
Qed.

Lemma sync_pass_spec (todo : list pystr) :
  forall st, exists w',
    sync_pass todo st = (Ok tt, {| fs := w'; trace := trace st |})
    /\ leaves_alone (fun _ => False) (fs st) w'
    /\ only_folder_times_differ (fs st) w'.
Proof.
  induction todo as [|d todo IH]; intros st.
  - exists (fs st). destruct st. cbn [fs trace].
    split; [reflexivity|]. split; [apply leaves_alone_refl | apply oftd_refl].
  - cbn [sync_pass]. unfold bind at 1. unfold is_dir, bind, get_fs, ret.
    destruct (is_dir_node (lookup d (here (fs st)))) eqn:Hd.
    + unfold bind.
      destruct (sync_folder_mtime_cases d st Hd) as [E|(t & E)]; rewrite E.
      * apply IH.
      * destruct (IH {| fs := touched d t t (fs st); trace := trace st |})
          as (w' & E' & LA & O). cbn [fs trace] in *.
        exists w'. split; [exact E'|]. split.
        -- eapply leaves_alone_trans; [|exact LA].
           now apply touched_leaves_alone.
        -- eapply oftd_trans; [|exact O]. now apply touched_oftd.
    + unfold bind, ret. apply IH.
Qed.

(* ================================================================== *)
(** * The first loop as a whole *)

Lemma scan_cons (name : pystr) (todo : list pystr) (mv : nat) (st : state) :
  scan (name :: todo) mv st =
  match scan_entry name mv st with
  | (Ok m', st') => scan todo m' st'
  | (Raise e, st') => (Raise e, st')
  end.
Proof. reflexivity. Qed.

Lemma scan_entry_settled (name : pystr) (mv : nat) (st : state) :
  settled (fs st) name = true ->
  exists tr, scan_entry name mv st = (Ok mv, logged tr st)
             /\ forallb is_quiet tr = true.
Proof.
  intros S. unfold settled in S.
  assert (K : forall t w', extract_title name = Some t -> t <> [] ->
                is_dir_node (lookup name (here (fs st))) = false ->
                prepared (fs st) t w' ->
                w' = fs st /\ target_exists w' (root_join t) name = true).
  { intros t w' Ht Hne Hd P. rewrite Ht, Hd in S. destruct t; [congruence|].
    simpl in S. rewrite (prepared_kept name P S). auto. }
  destruct (scan_entry_cases name mv st)
    as [Hd|Hd Ht|t x Hd Ht Hne Hp Hl Hx|t w' Hd Ht Hne P Hex
       |t w' e Hd Ht Hne P Hex Hl|t w' x Ht Hne P Hp Hl Hx Hex
       |t rn sibs x Ht Hne Hp Ha Hl Hx Hex].
  - exists []. unfold logged. rewrite app_nil_r. destruct st. auto.
  - eexists. split; [reflexivity|]. reflexivity.
  - rewrite Ht, Hd in S. destruct t; [congruence|]. simpl in S.
    rewrite Hp in S. unfold target_exists, target, inside in S.
    rewrite Hl in S. destruct x; discriminate.
  - destruct (K t w' Ht Hne Hd P) as (-> & _).
    eexists. split; [reflexivity|]. reflexivity.
  - destruct (K t w' Ht Hne Hd P) as (_ & E). congruence.
  - assert (Hd : is_dir_node (lookup name (here (fs st))) = false)
      by now rewrite Hl.
    destruct (K t w' Ht Hne Hd P) as (_ & E). rewrite Hp in E. congruence.
  - assert (Hd : is_dir_node (lookup name (here (fs st))) = false)
      by now rewrite Hl.
    destruct (K t (fs st) Ht Hne Hd) as (_ & E).
    + apply Prepared_old. congruence.
    + rewrite Hp in E. congruence.
Qed.

Lemma scan_settled (todo : list pystr) :
  forall mv st,
    (forall n, In n todo -> settled (fs st) n = true) ->
    exists tr, scan todo mv st = (Ok mv, logged tr st)
               /\ forallb is_quiet tr = true.
Proof.
  induction todo as [|name todo IH]; intros mv st H.
  - exists []. unfold logged. rewrite app_nil_r. destruct st. auto.
  - rewrite scan_cons.
    destruct (scan_entry_settled name mv st) as (tr1 & E1 & Q1);
      [apply H; now left|]. rewrite E1.
    destruct (IH mv (logged tr1 st)) as (tr2 & E2 & Q2).
    { intros n Hn. apply H. now right. }
    exists (tr1 ++ tr2). rewrite E2. unfold logged. cbn [fs trace].
    rewrite app_assoc, forallb_app, Q1, Q2. auto.
Qed.

Lemma scan_settles (todo : list pystr) :
  forall mv st m' st',
    scan todo mv st = (Ok m', st') ->
    (forall n, In n (names (here (fs st))) ->
               In n todo \/ settled (fs st) n = true) ->
    forall n, In n (names (here (fs st'))) -> settled (fs st') n = true.
Proof.
  induction todo as [|name todo IH]; intros mv st m' st' E Inv.
  - injection E as <- <-. intros n Hn. destruct (Inv n Hn) as [[]|]; auto.
  - rewrite scan_cons in E.
    destruct (scan_entry name mv st) as [[m1|e] st1] eqn:E1; [|discriminate].
    eapply IH; [exact E|]. intros n Hn.
    destruct (scan_entry_settles _ _ _ E1 n Hn) as [S|(Hne & Hold & S)];
      [now right|].
    destruct (Inv n Hold) as [[<-|Hin]|S']; [congruence | now left | congruence].
Qed.

Lemma scan_NoDup (todo : list pystr) :
  forall mv st,
    NoDup (names (here (fs st))) ->
    NoDup (names (here (fs (snd (scan todo mv st))))).
Proof.
  induction todo as [|name todo IH]; intros mv st H; [exact H|].
  rewrite scan_cons. pose proof (scan_entry_NoDup name mv st H) as H1.
  destruct (scan_entry name mv st) as [[m1|e] st1]; cbn [snd] in *; auto.
Qed.

(* ================================================================== *)
(** * What the first loop prints *)

Lemma printed_app (a b : list event) : printed (a ++ b) = printed a ++ printed b.
Proof. unfold printed. apply flat_map_app. Qed.

Lemma extract_calls_app (a b : list event) :
  extract_calls (a ++ b) = extract_calls a ++ extract_calls b.
Proof. unfold extract_calls. apply flat_map_app. Qed.

Lemma count_moved_app (a b : list message) :
  count_moved (a ++ b) = count_moved a + count_moved b.
Proof. unfold count_moved. now rewrite filter_app, length_app. Qed.

Lemma not_settled (w w' : world) (name t : pystr) :
  is_dir_node (lookup name (here w)) = false ->
  extract_title name = Some t -> t <> [] ->
  prepared w t w' -> target_exists w' (root_join t) name = false ->
  settled w name = false.
Proof.
  intros Hd Ht Hne P Hex. unfold settled. rewrite Hd, Ht.
  destruct t as [|c cs]; [congruence|]. simpl.
  destruct (target_exists w (root_join (c :: cs)) name) eqn:E; [|reflexivity].
  rewrite (prepared_kept name P E) in Hex. congruence.
Qed.

Lemma scan_entry_trace (name : pystr) (mv : nat) (st : state) :
  exists tr,
    trace (snd (scan_entry name mv st)) = trace st ++ tr
    /\ round_trace name (fs st) mv (fst (scan_entry name mv st)) tr.
Proof.
  destruct (scan_entry_cases name mv st)
    as [Hd|Hd Ht|t x Hd Ht Hne Hp Hl Hx|t w' Hd Ht Hne P Hex
       |t w' e Hd Ht Hne P Hex Hl|t w' x Ht Hne P Hp Hl Hx Hex
       |t rn sibs x Ht Hne Hp Ha Hl Hx Hex];
    cbn [fst snd trace logged].
  - exists []. split; [now rewrite app_nil_r|].
    split; cbn; try tauto. intros m' [= <-]. lia.
  - exists [Call_extract_title name]. split; [reflexivity|].
    split; cbn; try tauto.
    + intros m' [= <-]. lia.
    + intros f [<-|[]]. auto.
  - exists [Call_extract_title name]. split; [reflexivity|].
    split; cbn; try tauto; try discriminate.
    intros f [<-|[]]. auto.
  - exists [Call_extract_title name; Print (Skipped (root_join t) name)].
    split; [reflexivity|]. split; cbn.
    + reflexivity.
    + intros m' [= <-]. lia.
    + intros f [<-|[]]. auto.
    + intros n d [H|[]]. discriminate.
  - exists [Call_extract_title name]. split; [reflexivity|].
    split; cbn; try tauto; try discriminate.
    intros f [<-|[]]. auto.
  - assert (Hd : is_dir_node (lookup name (here (fs st))) = false)
      by now rewrite Hl.
    exists [Call_extract_title name; Print (Moved name t)].
    split; [reflexivity|]. split; cbn.
    + reflexivity.
    + intros m' [= <-]. lia.
    + intros f [<-|[]]. auto.
    + intros n d [[= <- <-]|[]]. split; [reflexivity|].
      eapply not_settled; eauto. now rewrite Hp.
  - assert (Hd : is_dir_node (lookup name (here (fs st))) = false)
      by now rewrite Hl.
    exists [Call_extract_title name; Print (Moved name (py ".."))].
    split; [reflexivity|]. split; cbn.
    + reflexivity.
    + intros m' [= <-]. lia.
    + intros f [<-|[]]. auto.
    + intros n d [[= <- <-]|[]]. split; [reflexivity|].
      eapply not_settled; eauto.
      * apply Prepared_old. congruence.
      * now rewrite Hp.
Qed.

(** The same for the whole loop: lines printed, the count returned, the
    names passed to [extract_title] and the names moved. *)
Lemma scan_trace (todo : list pystr) :
  forall mv st, exists tr,
    trace (snd (scan todo mv st)) = trace st ++ tr
    /\ forallb (fun m => negb (is_done m)) (printed tr) = true
    /\ (forall m', fst (scan todo mv st) = Ok m' ->
                   m' = mv + count_moved (printed tr))
    /\ (forall f, In f (extract_calls tr) ->
          In f todo /\ is_dir_node (lookup f (here (fs st))) = false).
Proof.
  induction todo as [|name todo IH]; intros mv st.
  - exists []. cbn. rewrite app_nil_r. repeat split; auto; try tauto.
    intros m' [= <-]. lia.
  - rewrite scan_cons.
    destruct (scan_entry_trace name mv st) as (tr1 & E1 & [A1 B1 C1 D1]).
    destruct (scan_entry name mv st) as [[m1|e] st1] eqn:Est;
      cbn [fst snd] in *.
    + destruct (IH m1 st1) as (tr2 & E2 & A2 & B2 & C2).
      exists (tr1 ++ tr2). rewrite E2, E1, app_assoc. split; [reflexivity|].
      rewrite printed_app, forallb_app, A1, A2, count_moved_app,
        extract_calls_app.
      split; [reflexivity|]. split.
      * intros m' H. rewrite (B2 m' H), (B1 m1 eq_refl). lia.
      * intros f H. apply in_app_or in H. destruct H as [H|H].
        -- destruct (C1 f H) as (-> & Hd). split; [now left | exact Hd].
        -- destruct (C2 f H) as (Hin & Hd). split; [now right|].
           pose proof (scan_entry_leaves_alone name mv st) as LA.
           rewrite Est in LA. cbn [snd] in LA.
           destruct (is_dir_node (lookup f (here (fs st)))) eqn:Ed;
             [|reflexivity].
           rewrite (dirs_stay LA f Ed) in Hd. discriminate.
    + exists tr1. split; [exact E1|]. split; [exact A1|]. split.
      * discriminate.
      * intros f H. destruct (C1 f H) as (-> & Hd). split; [now left | exact Hd].
Qed.

(* ================================================================== *)
(** * organise as a whole *)

Lemma organise_unfold (st : state) :
  organise st =
  match scan (names (here (fs st))) 0 st with
  | (Ok m, st1) =>
      match sync_pass (names (here (fs st1))) st1 with
      | (Ok _, st2) => (Ok tt, logged [Print (Done m)] st2)
      | (Raise e, st2) => (Raise e, st2)
      end
  | (Raise e, st1) => (Raise e, st1)
  end.
Proof.
  cbv beta iota zeta delta [organise bind iterdir get_fs ret print emit logged].
  destruct (scan (names (here (fs st))) 0 st) as [[m|e] st1]; [|reflexivity].
  destruct (sync_pass (names (here (fs st1))) st1) as [[[]|e] st2]; reflexivity.
Qed.

(** If the first loop ends normally, so does the run; the second loop
    only touches the times of first-level folders. *)
Lemma organise_after_scan (st st1 : state) (m : nat) :
  scan (names (here (fs st))) 0 st = (Ok m, st1) ->
  exists w2,
    organise st = (Ok tt, {| fs := w2; trace := trace st1 ++ [Print (Done m)] |})
    /\ leaves_alone (fun _ => False) (fs st1) w2
    /\ only_folder_times_differ (fs st1) w2.
Proof.
  intros E. rewrite organise_unfold, E.
  destruct (sync_pass_spec (names (here (fs st1))) st1) as (w2 & E2 & LA & O).
  rewrite E2. exists w2. auto.
Qed.

Lemma nodupb_NoDup (l : list pystr) : nodupb l = true -> NoDup l.
Proof.
  induction l as [|x l IH]; simpl; intros H; constructor;
    apply andb_true_iff in H; destruct H as (H1 & H2); [|auto].
  intros Hin. apply negb_true_iff in H1.
  assert (existsb (pystr_eqb x) l = true); [|congruence].
  apply existsb_exists. exists x. split; [exact Hin | apply pystr_eqb_refl].
Qed.

Lemma settled_perm (w w' : world) (n : pystr) :
  NoDup (names (here w)) -> Permutation (here w) (here w') ->
  above w' = above w -> settled w' n = settled w n.
Proof.
  intros ND P A.
  assert (L : forall m, lookup m (here w') = lookup m (here w)).
  { intros m. symmetry. now apply lookup_perm. }
  assert (T : forall p, target w' p n = target w p n).
  { intros [| |t]; unfold target, inside; now rewrite ?A, ?L. }
  unfold settled, target_exists. rewrite L.
  destruct (extract_title n) as [[|c cs]|]; try reflexivity. now rewrite T.
Qed.

(** The loop over [a ++ b] is the loop over [a], then the loop over [b]
    unless the first raised. *)
Lemma scan_app (a b : list pystr) :
  forall mv st,
    scan (a ++ b) mv st =
    match scan a mv st with
    | (Ok m, st') => scan b m st'
    | (Raise e, st') => (Raise e, st')
    end.
Proof.
  induction a as [|name a IH]; intros mv st; [reflexivity|].
  cbn [app]. rewrite !scan_cons.
  destruct (scan_entry name mv st) as [[m|e] st1]; [apply IH | reflexivity].
Qed.

(** The round for a non-directory whose title is the name of a
    non-directory of the root: [mkdir] raises. *)
Lemma scan_entry_blocked (name t : pystr) (x y : node) (mv : nat) (st : state) :
  lookup name (here (fs st)) = Some x -> is_dir_node (Some x) = false ->
  extract_title name = Some t -> t <> [] -> root_join t = Sub t ->
  lookup t (here (fs st)) = Some y -> is_dir_node (Some y) = false ->
  scan_entry name mv st
  = (Raise FileExistsError, logged [Call_extract_title name] st).
Proof.
  intros Hl Hx Ht Hne Hp Hb Hy.
  assert (NP : forall w', ~ prepared (fs st) t w').
  { intros w' P. inversion P as [_ Hnone|Hdir].
    - congruence.
    - specialize (Hdir t Hp). rewrite Hb, Hy in Hdir. discriminate. }
  destruct (scan_entry_cases name mv st)
    as [Hd|Hd Ht'|t' x' Hd Ht' Hne' Hp' Hl' Hx'|t' w' Hd Ht' Hne' P Hex
       |t' w' e Hd Ht' Hne' P Hex Hl'|t' w' x' Ht' Hne' P Hp' Hl' Hx' Hex
       |t' rn sibs x' Ht' Hne' Hp' Ha Hl' Hx' Hex].
  - rewrite Hl, Hx in Hd. discriminate.
  - destruct Ht' as [Ht'|Ht']; congruence.
  - reflexivity.
  - assert (t' = t) by congruence. subst t'. now elim (NP w').
  - assert (t' = t) by congruence. subst t'. now elim (NP w').
  - assert (t' = t) by congruence. subst t'. now elim (NP w').
  - assert (t' = t) by congruence. subst t'. congruence.
Qed.

(** C2, amended: when the first run on a root ends normally, a second run
    right after it (the system may list the entries in another order, and
    at another time) also ends normally, moves nothing and reports the
    count 0: it prints only skip notices before the summary, and the tree
    it leaves differs from the one it found in the times of first-level
    folders at most.  A run does not always end normally: when the first
    loop, having gone normally through the entries listed before it,
    reaches a non-directory whose title (other than [.] and [..]) is at
    that moment the name of a non-directory of the root, [mkdir] raises
    [FileExistsError]; the run stops there, with nothing more moved and no
    summary printed. *)
Theorem second_run_moves_nothing :
  (forall (w w2 : world) (st1 : state),
     NoDup (names (here w)) ->
     organise (start w) = (Ok tt, st1) ->
     Permutation (here (fs st1)) (here w2) -> above w2 = above (fs st1) ->
     exists skips st2,
       organise (start w2) = (Ok tt, st2)
       /\ trace st2 = skips ++ [Print (Done 0)]
       /\ forallb is_quiet skips = true
       /\ only_folder_times_differ w2 (fs st2))
  /\ (forall (w : world) (before after : list pystr) (name t : pystr)
             (x y : node) (mv : nat) (st : state),
        names (here w) = before ++ name :: after ->
        scan before 0 (start w) = (Ok mv, st) ->
        lookup name (here (fs st)) = Some x -> is_dir_node (Some x) = false ->
        extract_title name = Some t -> t <> [] -> root_join t = Sub t ->
        lookup t (here (fs st)) = Some y -> is_dir_node (Some y) = false ->
        organise (start w)
        = (Raise FileExistsError, logged [Call_extract_title name] st)
        /\ forall n,
             ~ In (Print (Done n))
                 (trace (logged [Call_extract_title name] st))).
Proof.
  split.
  - intros w w2 st1 ND E P A.
   rewrite organise_unfold in E.
    destruct (scan (names (here (fs (start w)))) 0 (start w)) as [[m|e] stA] eqn:ES;
      [|discriminate].
    destruct (sync_pass_spec (names (here (fs stA))) stA) as (wB & EB & LA & O).
    rewrite EB in E. injection E as <-. cbn [fs logged] in *.
    assert (SA : forall n, In n (names (here (fs stA))) ->
                           settled (fs stA) n = true).
    { eapply scan_settles; [exact ES|]. intros n Hn. now left. }
    assert (NA : NoDup (names (here (fs stA)))).
    { pose proof (scan_NoDup (names (here w)) 0 (start w) ND) as H.
      cbn [fs start] in ES. now rewrite ES in H. }
    assert (NB : NoDup (names (here wB))) by now rewrite (oftd_names O).
    assert (SB : forall n, In n (names (here wB)) -> settled wB n = true).
    { intros n Hn. rewrite (oftd_names O) in Hn.
      destruct (lookup_in_names _ _ Hn) as (x & Hx).
      eapply settled_stays; eauto. }
    assert (S2 : forall n, In n (names (here w2)) -> settled (fs (start w2)) n = true).
    { intros n Hn. cbn [fs start]. rewrite (@settled_perm wB w2 n NB P A). apply SB.
      eapply Permutation_in; [|exact Hn]. apply Permutation_map.
      now apply Permutation_sym. }
    destruct (scan_settled (names (here w2)) 0 (start w2) S2) as (tr & E2 & Q).
    destruct (organise_after_scan (start w2) E2) as (w3 & E3 & _ & O3).
    exists tr, {| fs := w3; trace := tr ++ [Print (Done 0)] |}.
    cbn [fs trace logged start] in *. auto.
  - intros w before after name t x y mv st Hn Hs Hl Hx Ht Hne Hp Hb Hy.
    split.
    + rewrite organise_unfold. cbn [fs start].
      rewrite Hn, scan_app, Hs, scan_cons.
      now rewrite (@scan_entry_blocked name t x y mv st Hl Hx Ht Hne Hp Hb Hy).
    + intros n Hin.
      destruct (scan_trace before 0 (start w)) as (tr & E & Q & _).
      rewrite Hs in E. cbn [snd trace start app] in E.
      cbn [trace logged] in Hin. rewrite E in Hin.
      apply in_app_or in Hin. destruct Hin as [Hin|[Hin|[]]]; [|discriminate].
      assert (Hp' : In (Done n) (printed tr)).
      { unfold printed. apply in_flat_map. exists (Print (Done n)).
        simpl. auto. }
      rewrite forallb_forall in Q. specialize (Q _ Hp'). discriminate.
Qed.

Lemma second_run_witness :
  (exists skips st2,
     organise (start (relisted (fs (snd (organise (start sample_root))))))
     = (Ok tt, st2)
     /\ trace st2 = skips ++ [Print (Done 0)]
     /\ forallb is_quiet skips = true
     /\ only_folder_times_differ
          (relisted (fs (snd (organise (start sample_root))))) (fs st2))
  /\ (organise (start blocked_root)
      = (Raise FileExistsError,
         logged [Call_extract_title (py "[G] X - 01 [AB].mkv")]
           (start blocked_root))
      /\ forall n,
           ~ In (Print (Done n))
               (trace (logged [Call_extract_title (py "[G] X - 01 [AB].mkv")]
                         (start blocked_root)))).
Proof.
  split.
  - apply (proj1 second_run_moves_nothing sample_root
             (relisted (fs (snd (organise (start sample_root)))))
             (snd (organise (start sample_root)))).
    + apply nodupb_NoDup. vm_compute. reflexivity.
    + vm_compute. reflexivity.
    + apply Permutation_rev.
    + reflexivity.
  - apply (proj2 second_run_moves_nothing blocked_root []
             [py "X"] (py "[G] X - 01 [AB].mkv") (py "X")
             (File [1%N] 7%Z) (File [] 9%Z) 0 (start blocked_root)).
    + reflexivity.
    + reflexivity.
    + reflexivity.
    + reflexivity.
    + reflexivity.
    + discriminate.
    + reflexivity.
    + reflexivity.
    + reflexivity.
Defined.

(** C2 as stated fails on a root where a regular file bears the title of
    an episode: both runs stop at [mkdir] and no summary is printed. *)
Lemma rerun_reports_zero_fails : ~ rerun_reports_zero blocked_root.
Proof.
  intros H.
  destruct (H (fst (organise (start blocked_root)))
              (snd (organise (start blocked_root))))
    as (st2 & E & _).
  - vm_compute. reflexivity.
  - vm_compute in E. discriminate E.
Qed.

(** Every name passed to [extract_title] is the name of a direct child of
    the root that is not a directory. *)
Lemma extract_title_only_on_non_directories (w : world) :
  Forall (fun f => exists x, lookup f (here w) = Some x
                             /\ is_dir_node (Some x) = false)
    (calls (main (Directory w))).
Proof.
  apply Forall_forall. intros f Hf.
  assert (H : In f (extract_calls (trace (snd (organise (start w)))))).
  { unfold main in Hf. destruct (organise (start w)) as [[u|e] st]; exact Hf. }
  clear Hf. rewrite organise_unfold in H.
  destruct (scan_trace (names (here w)) 0 (start w)) as (tr & E & _ & _ & C).
  cbn [fs start trace] in *.
  assert (H' : In f (extract_calls tr)).
  { destruct (scan (names (here w)) 0 (start w)) as [[m|e] stA]; cbn [snd] in *.
    - destruct (sync_pass_spec (names (here (fs stA))) stA) as (wB & EB & _).
      rewrite EB in H. cbn [snd logged trace] in H.
      rewrite E, extract_calls_app in H. cbn in H.
      now rewrite app_nil_r in H.
    - now rewrite E in H. }
  destruct (C f H') as (Hin & Hd).
  destruct (lookup_in_names _ _ Hin) as (x & Hx).
  exists x. split; [exact Hx | now rewrite Hx in Hd].
Qed.

(** C9: the claim fails on the code.  On a root that holds a named pipe
    next to a regular file, the first loop passes the name of the pipe to
    [extract_title] as it passes the name of the regular file: its guard
    skips directories, not every entry that is not a regular file.  So
    it is not true there that every name passed to [extract_title] is that
    of a regular file. *)
Theorem only_regular_files_extracted_fails :
  lookup (py "pipe") (here fifo_root) = Some (Special 3%Z)
  /\ calls (main (Directory fifo_root)) = [py "pipe"; py "notes.txt"]
  /\ ~ only_regular_files_extracted fifo_root.
Proof.
  split; [reflexivity|]. split; [reflexivity|].
  intros H. destruct (H (py "pipe")) as (data & mtime & E).
  - vm_compute. auto.
  - vm_compute in E. discriminate E.
Qed.

(** C8, amended: on a path that is missing or not a directory the program
    exits with status 1 and the error message, having printed and changed
    nothing.  On a directory it runs the organiser; if that ends normally
    the status is 0 and the output ends with the one summary line, whose
    count is the number of "Moved" lines before it; if the organiser
    raises (a regular file bears the title of an entry), the status is 1
    and no summary line is printed. *)
Theorem main_exit_behaviour (arg : root_arg) :
  match arg with
  | Directory w =>
      match fst (organise (start w)) with
      | Ok _ =>
          exit_status (main arg) = 0 /\ stderr (main arg) = None
          /\ exists body,
               stdout (main arg) = body ++ [Done (count_moved body)]
               /\ forallb (fun m => negb (is_done m)) body = true
      | Raise e =>
          exit_status (main arg) = 1
          /\ stderr (main arg) = Some (Traceback e)
          /\ forallb (fun m => negb (is_done m)) (stdout (main arg)) = true
      end
  | _ =>
      main arg = {| exit_status := 1; stderr := Some Not_a_directory;
                    stdout := []; calls := []; after := arg |}
  end
  /\ forall root n,
       render root (Done n)
       = [10%N] ++ py "Done. " ++ str_of_nat n
         ++ py " file(s) moved; folder timestamps updated.".
Proof.
  split; [|reflexivity].
  destruct arg as [| | |w]; try reflexivity.
  unfold main. rewrite organise_unfold.
  destruct (scan_trace (names (here w)) 0 (start w)) as (tr & E & A & B & _).
  cbn [fs start trace] in *.
  destruct (scan (names (here w)) 0 (start w)) as [[m|e] stA];
    cbn [fst snd] in *.
  - destruct (sync_pass_spec (names (here (fs stA))) stA) as (wB & EB & _).
    rewrite EB. cbn [fst exit_status stderr stdout logged trace].
    repeat split. exists (printed tr).
    rewrite E, printed_app. cbn. rewrite (B m eq_refl). auto.
  - cbn [exit_status stderr stdout]. rewrite E. auto.
Qed.

(** C8 as stated fails on a directory where a regular file bears the title
    of an episode: the status is 1 and no summary is printed. *)
Lemma exits_zero_with_summary_fails : ~ exits_zero_with_summary blocked_root.
Proof. intros (H & _). vm_compute in H. discriminate H. Qed.

(* ================================================================== *)
(** * extract_title *)

(** C4: the three scenario inputs give the scenario titles. *)
Theorem scenario_titles :
  extract_title (py "[SubsPlease] Series Title - 03v2 (720p) [ABCDEF12].mkv")
  = Some (py "Series Title")
  /\ extract_title (py "[SubsPlease] Aparida - 09.5 (720p) [F40254DB].mkv")
     = Some (py "Aparida")
  /\ extract_title
       (py "I Want to Eat Your Pancreas (2018) 1080p AV1 Opus [UnAV1Chain] v2.mkv")
     = Some (py "I Want to Eat Your Pancreas").
Proof. repeat split; vm_compute; reflexivity. Qed.

Lemma in_printed (m : message) (tr : list event) :
  In m (printed tr) <-> In (Print m) tr.
Proof.
  unfold printed. rewrite in_flat_map. split.
  - intros ([f|m'] & H & Hm); simpl in Hm; [tauto|].
    destruct Hm as [<-|[]]. exact H.
  - intros H. exists (Print m). simpl. auto.
Qed.

Lemma quiet_no_move (tr : list event) (n d : pystr) :
  forallb is_quiet tr = true -> ~ In (Print (Moved n d)) tr.
Proof.
  intros Q H. rewrite forallb_forall in Q. apply Q in H. discriminate.
Qed.

(** A settled entry that is not a directory goes through the first loop
    untouched: it stays where it is, as it is, its target stays what it
    was, and no "Moved" line is printed for it. *)
Lemma scan_keeps_settled (name : pystr) (x : node) (todo : list pystr) :
  forall mv st,
    lookup name (here (fs st)) = Some x -> is_dir_node (Some x) = false ->
    settled (fs st) name = true ->
    lookup name (here (fs (snd (scan todo mv st)))) = Some x
    /\ settled (fs (snd (scan todo mv st))) name = true
    /\ (forall p, target (fs (snd (scan todo mv st))) p name
                  = target (fs st) p name)
    /\ (forall d, In (Print (Moved name d)) (trace (snd (scan todo mv st))) ->
                  In (Print (Moved name d)) (trace st)).
Proof.
  induction todo as [|n todo IH]; intros mv st Hl Hx S; [cbn; auto|].
  rewrite scan_cons.
  assert (K : exists st1,
             snd (scan_entry n mv st) = st1
             /\ lookup name (here (fs st1)) = Some x
             /\ settled (fs st1) name = true
             /\ (forall p, target (fs st1) p name = target (fs st) p name)
             /\ (forall d, In (Print (Moved name d)) (trace st1) ->
                           In (Print (Moved name d)) (trace st))).
  { destruct (list_eq_dec N.eq_dec n name) as [->|Hne].
    - destruct (scan_entry_settled name mv st S) as (tr & E & Q).
      rewrite E. exists (logged tr st). cbn [snd fs logged trace].
      repeat split; auto. intros d H. apply in_app_or in H.
      destruct H as [H|H]; [exact H | now elim (@quiet_no_move tr name d Q H)].
    - pose proof (scan_entry_leaves_alone n mv st) as LA.
      destruct (scan_entry_trace n mv st) as (tr & E & [_ _ _ D]).
      exists (snd (scan_entry n mv st)). split; [reflexivity|].
      split; [eapply (others_stay LA); eauto|].
      split; [eapply settled_stays; eauto|].
      split; [intros p; eapply (targets_stay LA); eauto|].
      intros d H. rewrite E in H. apply in_app_or in H.
      destruct H as [H|H]; [exact H|].
      apply in_printed, D in H. destruct H as (H & _). congruence. }
  destruct K as (st1 & E1 & Hl1 & S1 & T1 & M1).
  destruct (scan_entry n mv st) as [[m1|e] st1'] eqn:E; cbn [snd] in *;
    subst st1'.
  - destruct (IH m1 st1 Hl1 Hx S1) as (A & B & C & D).
    repeat split; auto. intros p. now rewrite C.
  - auto.
Qed.

(** The same through a whole run. *)
Lemma organise_keeps_settled (w : world) (name : pystr) (x : node) :
  lookup name (here w) = Some x -> is_dir_node (Some x) = false ->
  settled w name = true ->
  lookup name (here (fs (snd (organise (start w))))) = Some x
  /\ (forall p, target (fs (snd (organise (start w)))) p name
                = target w p name)
  /\ (forall d, ~ In (Moved name d) (stdout (main (Directory w)))).
Proof.
  intros Hl Hx S.
  assert (Out : stdout (main (Directory w))
                = printed (trace (snd (organise (start w))))).
  { unfold main. now destruct (organise (start w)) as [[u|e] st]. }
  rewrite Out. rewrite organise_unfold.
  destruct (@scan_keeps_settled name x (names (here w)) 0 (start w) Hl Hx S)
    as (A & B & C & D).
  cbn [fs start] in *.
  destruct (scan (names (here w)) 0 (start w)) as [[m|e] stA]; cbn [snd] in *.
  - destruct (sync_pass_spec (names (here (fs stA))) stA) as (wB & EB & LA & _).
    rewrite EB. cbn [snd fs logged trace]. split; [|split].
    + eapply (others_stay LA); eauto.
    + intros p. rewrite <- C. eapply (targets_stay LA); eauto.
    + intros d H. apply in_printed, in_app_or in H. destruct H as [H|H].
      * apply (D d H).
      * destruct H as [H|[]]. discriminate.
  - repeat split; auto. intros d H. apply in_printed in H. apply (D d H).
Qed.

Lemma scan_entry_untitled (name : pystr) (mv : nat) (st : state) :
  is_dir_node (lookup name (here (fs st))) = false ->
  extract_title name = None \/ extract_title name = Some [] ->
  scan_entry name mv st = (Ok mv, logged [Call_extract_title name] st).
Proof.
  intros Hd Ht. destruct st as [w tr].
  cbv beta iota zeta delta
    [scan_entry bind is_dir get_fs ret call_extract_title emit fs trace logged]
    in *.
  rewrite Hd. now destruct Ht as [-> | ->].
Qed.

(** C3: [extract_title] tries the Episode pattern, then the Movie pattern,
    and returns the sanitized [title] group of the first that matches, or
    [None] when neither does; a match starts at the first character and
    covers a prefix of the name, the title being a part of that prefix.
    [randomfile.txt] matches nothing; the organiser leaves a file without
    match where it is, as it is, creating nothing for it, and a root that
    holds only [randomfile.txt] is left as it was. *)
Theorem extract_title_priority (filename : pystr) :
  extract_title filename
  = match re_match EPISODE filename with
    | Some m => Some (sanitize (group_title m))
    | None =>
        match re_match MOVIE filename with
        | Some m => Some (sanitize (group_title m))
        | None => None
        end
    end
  /\ (forall p m, In p PATTERNS -> re_match p filename = Some m ->
        m_title m = Some (group_title m)
        /\ exists matched rest,
             filename = matched ++ rest /\ m_end m = List.length matched
             /\ substring (group_title m) matched)
  /\ extract_title (py "randomfile.txt") = None
  /\ (extract_title filename = None ->
      (forall st moved,
         is_dir_node (lookup filename (here (fs st))) = false ->
         scan_entry filename moved st
         = (Ok moved, logged [Call_extract_title filename] st))
      /\ (forall w x,
            lookup filename (here w) = Some x ->
            is_dir_node (Some x) = false ->
            lookup filename (here (fs (snd (organise (start w))))) = Some x))
  /\ organise (start random_root)
     = (Ok tt, {| fs := random_root;
                  trace := [Call_extract_title (py "randomfile.txt");
                            Print (Done 0)] |}).
Proof.
  split; [reflexivity|]. split.
  { intros p m Hp Hm. pose proof (@PATTERNS_title_set p filename m Hp Hm) as T.
    split; [exact T|]. apply re_match_prefix in Hm.
    destruct Hm as (matched & rest & E & El & Hs & _).
    exists matched, rest. auto. }
  split; [vm_compute; reflexivity|]. split.
  { intros Hn. split.
    - intros st moved Hd. apply scan_entry_untitled; auto.
    - intros w x Hl Hx. eapply organise_keeps_settled; eauto.
      unfold settled. rewrite Hn. apply orb_true_r. }
  vm_compute. reflexivity.
Qed.

(* ================================================================== *)
(** * Collisions *)

Lemma settled_collision (w : world) (name t : pystr) :
  extract_title name = Some t ->
  target_exists w (root_join t) name = true -> settled w name = true.
Proof.
  intros Ht Hex. unfold settled. rewrite Ht.
  destruct t; [|rewrite Hex]; apply orb_true_r.
Qed.

Lemma scan_entry_collision (name t : pystr) (mv : nat) (st : state) :
  is_dir_node (lookup name (here (fs st))) = false ->
  extract_title name = Some t -> t <> [] ->
  target_exists (fs st) (root_join t) name = true ->
  scan_entry name mv st
  = (Ok mv, logged [Call_extract_title name;
                    Print (Skipped (root_join t) name)] st).
Proof.
  intros Hd Ht Hne Hex.
  pose proof (scan_entry_cases name mv st) as C.
  inversion C as [Hd'|Hd' Ht'|t' x Hd' Ht' Hne' Hp Hl Hx|t' w' Hd' Ht' Hne' P Hex'
       |t' w' e Hd' Ht' Hne' P Hex' Hl|t' w' x Ht' Hne' P Hp Hl Hx Hex'
       |t' rn sibs x Ht' Hne' Hp Ha Hl Hx Hex'];
    try congruence.
  - destruct Ht' as [Ht'|Ht']; congruence.
  - assert (t' = t) by congruence. subst t'. rewrite Hp in Hex.
    unfold target_exists, target, inside in Hex. rewrite Hl in Hex.
    destruct x; discriminate.
  - assert (t' = t) by congruence. subst t'.
    now rewrite (prepared_kept name P Hex).
  - assert (t' = t) by congruence. subst t'.
    rewrite (prepared_kept name P Hex) in Hex'. congruence.
  - assert (t' = t) by congruence. subst t'.
    rewrite (prepared_kept name P Hex), <- Hp in Hex'. congruence.
Qed.

Lemma scan_skips (name t : pystr) (x : node) (todo : list pystr) :
  extract_title name = Some t -> t <> [] -> is_dir_node (Some x) = false ->
  forall mv st,
    lookup name (here (fs st)) = Some x ->
    target_exists (fs st) (root_join t) name = true ->
    In name todo ->
    (exists m, fst (scan todo mv st) = Ok m) ->
    In (Print (Skipped (root_join t) name)) (trace (snd (scan todo mv st))).
Proof.
  intros Ht Hne Hx.
  induction todo as [|n todo IH]; intros mv st Hl Hex Hin (m & Hm); [elim Hin|].
  rewrite scan_cons in *.
  destruct (list_eq_dec N.eq_dec n name) as [->|Hn].
  - rewrite (@scan_entry_collision name t mv st) in *; auto;
      try (now rewrite Hl).
    destruct (scan_trace todo mv
                (logged [Call_extract_title name;
                         Print (Skipped (root_join t) name)] st))
      as (tr & E & _).
    rewrite E. cbn [logged trace]. apply in_or_app. left.
    apply in_or_app. right. simpl. auto.
  - destruct Hin as [Hin|Hin]; [congruence|].
    pose proof (scan_entry_leaves_alone n mv st) as LA.
    destruct (scan_entry n mv st) as [[m1|e] st1]; cbn [snd] in *;
      [|discriminate].
    apply IH; eauto.
    + eapply (others_stay LA); eauto.
    + unfold target_exists in *.
      now rewrite (@targets_stay _ _ _ LA name x (root_join t) Hn Hl Hx).
Qed.

(** C1: a file of the root whose title folder already holds an entry of
    the same name is skipped.  In the round that scans it the tree does
    not change at all, the counter is not increased and the skip notice is
    printed; over the whole run the file stays at the root as it is
    (same contents, same mtime), what the target path names stays the
    same node, no "Moved" line is printed for the file, and a run that
    ends normally has printed the skip notice. *)
Theorem collision_is_skipped (w : world) (name t : pystr) (x : node) :
  lookup name (here w) = Some x -> is_dir_node (Some x) = false ->
  extract_title name = Some t -> t <> [] ->
  target_exists w (root_join t) name = true ->
  (forall tr moved,
     scan_entry name moved {| fs := w; trace := tr |}
     = (Ok moved,
        {| fs := w;
           trace := tr ++ [Call_extract_title name;
                           Print (Skipped (root_join t) name)] |}))
  /\ lookup name (here (fs (snd (organise (start w))))) = Some x
  /\ target (fs (snd (organise (start w)))) (root_join t) name
     = target w (root_join t) name
  /\ (forall d, ~ In (Moved name d) (stdout (main (Directory w))))
  /\ (fst (organise (start w)) = Ok tt ->
      In (Skipped (root_join t) name) (stdout (main (Directory w)))).
Proof.
  intros Hl Hx Ht Hne Hex.
  assert (Hd : is_dir_node (lookup name (here w)) = false) by now rewrite Hl.
  pose proof (settled_collision w name Ht Hex) as S.
  destruct (organise_keeps_settled w name Hl Hx S) as (A & B & C).
  split; [|split; [exact A|split; [apply B|split; [exact C|]]]].
  - intros tr moved.
    apply (@scan_entry_collision name t moved {| fs := w; trace := tr |});
      auto.
  - intros Hok. unfold main. rewrite organise_unfold in *.
    pose proof (@scan_skips name t x (names (here w)) Ht Hne Hx 0 (start w)
                  Hl Hex) as K.
    cbn [fs start] in *.
    destruct (scan (names (here w)) 0 (start w)) as [[m|e] stA];
      cbn [fst snd] in *; [|discriminate].
    destruct (sync_pass_spec (names (here (fs stA))) stA) as (wB & EB & _).
    rewrite EB. cbn [stdout logged trace]. apply in_printed.
    apply in_or_app. left. apply K; eauto.
    apply in_map_iff. exists (name, x). split; [reflexivity|].
    now apply lookup_Some_in.
Qed.

Lemma collision_is_skipped_witness :
  (forall tr moved,
     scan_entry (py "[G] X - 01 [AB].mkv") moved
       {| fs := collision_root; trace := tr |}
     = (Ok moved,
        {| fs := collision_root;
           trace := tr ++ [Call_extract_title (py "[G] X - 01 [AB].mkv");
                           Print (Skipped (root_join (py "X"))
                                    (py "[G] X - 01 [AB].mkv"))] |}))
  /\ lookup (py "[G] X - 01 [AB].mkv")
       (here (fs (snd (organise (start collision_root)))))
     = Some (File [2%N] 8%Z)
  /\ target (fs (snd (organise (start collision_root))))
       (root_join (py "X")) (py "[G] X - 01 [AB].mkv")
     = target collision_root (root_join (py "X")) (py "[G] X - 01 [AB].mkv")
  /\ (forall d, ~ In (Moved (py "[G] X - 01 [AB].mkv") d)
                  (stdout (main (Directory collision_root))))
  /\ (fst (organise (start collision_root)) = Ok tt ->
      In (Skipped (root_join (py "X")) (py "[G] X - 01 [AB].mkv"))
        (stdout (main (Directory collision_root)))).
Proof.
  apply (@collision_is_skipped collision_root (py "[G] X - 01 [AB].mkv")
           (py "X") (File [2%N] 8%Z)).
  - vm_compute. reflexivity.
  - reflexivity.
  - vm_compute. reflexivity.
  - discriminate.
  - vm_compute. reflexivity.
Defined.

(* ================================================================== *)
(** * Empty titles *)

Lemma scan_entry_names (name : pystr) (mv : nat) (st : state) (n : pystr) :
  In n (names (here (fs (snd (scan_entry name mv st))))) ->
  In n (names (here (fs st))) \/ (n <> [] /\ extract_title name = Some n).
Proof.
  destruct (scan_entry_cases name mv st)
    as [Hd|Hd Ht|t x Hd Ht Hne Hp Hl Hx|t w' Hd Ht Hne P Hex
       |t w' e Hd Ht Hne P Hex Hl|t w' x Ht Hne P Hp Hl Hx Hex
       |t rn sibs x Ht Hne Hp Ha Hl Hx Hex];
    cbn [snd fs logged]; auto; intros Hin.
  - destruct (prepared_names n P Hin) as [H|(-> & _)]; auto.
  - destruct (prepared_names n P Hin) as [H|(-> & _)]; auto.
  - unfold moved_into in Hin. cbn [here set_here] in Hin.
    rewrite names_update in Hin. apply in_names_remove in Hin.
    destruct Hin as (Hin & _).
    destruct (prepared_names n P Hin) as [H|(-> & _)]; auto.
  - unfold moved_up in Hin. cbn [here set_here set_above] in Hin.
    apply in_names_remove in Hin. tauto.
Qed.

Lemma scan_names (todo : list pystr) :
  forall mv st n,
    In n (names (here (fs (snd (scan todo mv st))))) ->
    In n (names (here (fs st)))
    \/ (n <> [] /\ exists f, In f todo /\ extract_title f = Some n).
Proof.
  induction todo as [|name todo IH]; intros mv st n Hin; [now left|].
  rewrite scan_cons in Hin.
  pose proof (@scan_entry_names name mv st n) as K.
  destruct (scan_entry name mv st) as [[m1|e] st1]; cbn [snd] in *.
  - destruct (IH m1 st1 n Hin) as [H|(Hne & f & Hf & Ht)].
    + destruct (K H) as [H'|(Hne & Ht)]; [now left|].
      right. split; [exact Hne|]. exists name. simpl. auto.
    + right. split; [exact Hne|]. exists f. simpl. auto.
  - destruct (K Hin) as [H'|(Hne & Ht)]; [now left|].
    right. split; [exact Hne|]. exists name. simpl. auto.
Qed.

(** C10: a name whose pattern matches with an empty or blank title gives
    the empty title, and the organiser treats it as it treats a name that
    matches nothing: the round changes nothing and moves nothing, the file
    stays at the root as it is; every entry a run adds to the root bears
    the non-empty title of a file that was listed, so no folder with an
    empty name is created. *)
Theorem empty_title_is_no_match :
  extract_title (py "[Group] - 01 [AB].mkv") = Some []
  /\ (option_map group_title (re_match MOVIE (py "[G]  (2018).mkv"))
      = Some (py " ")
      /\ extract_title (py "[G]  (2018).mkv") = Some [])
  /\ (forall name st moved,
        is_dir_node (lookup name (here (fs st))) = false ->
        extract_title name = None \/ extract_title name = Some [] ->
        scan_entry name moved st
        = (Ok moved, logged [Call_extract_title name] st))
  /\ (forall w name x,
        lookup name (here w) = Some x -> is_dir_node (Some x) = false ->
        extract_title name = Some [] ->
        lookup name (here (fs (snd (organise (start w))))) = Some x)
  /\ (forall w n,
        In n (names (here (fs (snd (organise (start w)))))) ->
        In n (names (here w))
        \/ (n <> [] /\ exists f, In f (names (here w))
                                 /\ extract_title f = Some n)).
Proof.
  split; [vm_compute; reflexivity|].
  split; [split; vm_compute; reflexivity|].
  split; [intros; now apply scan_entry_untitled|]. split.
  - intros w name x Hl Hx Ht. eapply organise_keeps_settled; eauto.
    unfold settled. rewrite Ht. apply orb_true_r.
  - intros w n Hin. rewrite organise_unfold in Hin.
    pose proof (@scan_names (names (here w)) 0 (start w) n) as K.
    cbn [fs start] in *.
    destruct (scan (names (here w)) 0 (start w)) as [[m|e] stA];
      cbn [snd] in *; [|auto].
    destruct (sync_pass_spec (names (here (fs stA))) stA) as (wB & EB & _ & O).
    rewrite EB in Hin. cbn [snd fs logged] in Hin.
    rewrite (oftd_names O) in Hin. auto.
Qed.

(* ================================================================== *)
(** * sync_folder_mtime *)

(** Induction on a tree, with the hypothesis for every entry of a
    directory. *)
Lemma node_tree_ind (P : node -> Prop) :
  (forall data mtime, P (File data mtime)) ->
  (forall mtime, P (Special mtime)) ->
  (forall atime mtime es,
     Forall (fun e => P (snd e)) es -> P (Dir atime mtime es)) ->
  forall x, P x.
Proof.
  intros HF HS HD. fix IH 1. intros [data mtime|mtime|atime mtime es].
  - apply HF.
  - apply HS.
  - apply HD. induction es as [|[n y] es IHes]; constructor.
    + apply IH.
    + exact IHes.
Qed.

Lemma py_max_spec (ts : list Z) :
  forall t, In (py_max t ts) (t :: ts)
            /\ forall t', In t' (t :: ts) -> (t' <= py_max t ts)%Z.
Proof.
  unfold py_max. induction ts as [|u ts IH]; intros t; simpl.
  - split; [auto|]. intros t' [<-|[]]. lia.
  - destruct (IH (Z.max t u)) as (A & B). split.
    + destruct A as [A|A]; [|auto]. rewrite <- A.
      destruct (Z.max_spec t u) as [(_ & ->)|(_ & ->)]; auto.
    + intros t' [<-|[<-|H]].
      * etransitivity; [apply Z.le_max_l | apply B; now left].
      * etransitivity; [apply Z.le_max_r | apply B; now left].
      * apply B. now right.
Qed.

(** The times collected below a node are those of the regular files that
    a path reaches, at any depth. *)
Lemma file_mtimes_contains (x : node) :
  forall t, In t (file_mtimes x) <->
    match x with
    | File _ m => m = t
    | Special _ => False
    | Dir _ _ es => exists path data, contains es path (File data t)
    end.
Proof.
  induction x as [data m|m|a m es IH] using node_tree_ind; intros t; simpl.
  - tauto.
  - tauto.
  - rewrite in_flat_map. rewrite Forall_forall in IH. split.
    + intros ([n y] & Hin & Ht). apply (IH _ Hin) in Ht. simpl in Ht.
      destruct y as [data m'|m'|a' m' es'].
      * subst m'. exists [n], data. now constructor.
      * destruct Ht.
      * destruct Ht as (path & data & Hc). exists (n :: path), data.
        econstructor; eauto.
    + intros (path & data & Hc).
      inversion Hc as [es0 n y Hin|es0 n a' m' es' path' y Hin Hc']; subst.
      * exists (n, File data t). split; [exact Hin|].
        apply (IH _ Hin). reflexivity.
      * exists (n, Dir a' m' es'). split; [exact Hin|].
        apply (IH _ Hin). simpl. eauto.
Qed.

(** C5: for a directory of the root given to [sync_folder_mtime], the
    times collected are exactly the mtimes of the regular files a path
    reaches below it, at any depth.  If there are none the call changes
    nothing.  Otherwise the directory's atime and mtime both become the
    largest of them; its entries, the other entries of the root and the
    parent directory stay as they are, and nothing is printed. *)
Theorem sync_folder_mtime_spec (st : state) (folder : pystr) (a m : Z)
    (es : entries) :
  lookup folder (here (fs st)) = Some (Dir a m es) ->
  (forall t, In t (rglob_file_mtimes (Dir a m es)) <->
             exists path data, contains es path (File data t))
  /\ (rglob_file_mtimes (Dir a m es) = [] ->
      sync_folder_mtime folder st = (Ok tt, st))
  /\ (rglob_file_mtimes (Dir a m es) <> [] ->
      exists newest st',
        sync_folder_mtime folder st = (Ok tt, st')
        /\ In newest (rglob_file_mtimes (Dir a m es))
        /\ (forall t, In t (rglob_file_mtimes (Dir a m es)) ->
                      (t <= newest)%Z)
        /\ lookup folder (here (fs st')) = Some (Dir newest newest es)
        /\ (forall n, n <> folder ->
                      lookup n (here (fs st')) = lookup n (here (fs st)))
        /\ names (here (fs st')) = names (here (fs st))
        /\ above (fs st') = above (fs st)
        /\ trace st' = trace st).
Proof.
  intros Hl. split; [|split].
  - intros t. apply (file_mtimes_contains (Dir a m es)).
  - intros E. destruct st as [w tr].
    cbv beta iota zeta delta
      [sync_folder_mtime rglob_mtimes bind get_fs ret fs trace] in *.
    rewrite Hl. cbv beta iota. now rewrite E.
  - intros E. destruct st as [w tr].
    cbv beta iota zeta delta
      [sync_folder_mtime rglob_mtimes utime bind get_fs put_fs ret fs trace]
      in *.
    rewrite Hl. cbv beta iota.
    destruct (rglob_file_mtimes (Dir a m es)) as [|t ts]; [congruence|].
    cbv beta iota. rewrite Hl. cbv beta iota.
    destruct (py_max_spec ts t) as (A & B).
    exists (py_max t ts),
      {| fs := touched folder (py_max t ts) (py_max t ts) w; trace := tr |}.
    split; [reflexivity|]. split; [exact A|]. split; [exact B|].
    unfold touched. cbn [fs trace here above set_here].
    repeat split.
    + rewrite lookup_update, pystr_eqb_refl, Hl. reflexivity.
    + intros n Hn. rewrite lookup_update.
      eqb_cases folder n; [congruence | reflexivity].
    + apply names_update.
Qed.

Lemma sync_folder_mtime_witness :
  lookup (py "S") (here (fs (start nested_root)))
  = Some (Dir 1 2 nested_entries)
  /\ (forall t, In t (rglob_file_mtimes (Dir 1 2 nested_entries)) <->
                exists path data, contains nested_entries path (File data t))
  /\ (rglob_file_mtimes (Dir 1 2 nested_entries) = [] ->
      sync_folder_mtime (py "S") (start nested_root)
      = (Ok tt, start nested_root))
  /\ (rglob_file_mtimes (Dir 1 2 nested_entries) <> [] ->
      exists newest st',
        sync_folder_mtime (py "S") (start nested_root) = (Ok tt, st')
        /\ In newest (rglob_file_mtimes (Dir 1 2 nested_entries))
        /\ (forall t, In t (rglob_file_mtimes (Dir 1 2 nested_entries)) ->
                      (t <= newest)%Z)
        /\ lookup (py "S") (here (fs st'))
           = Some (Dir newest newest nested_entries)
        /\ (forall n, n <> py "S" ->
                      lookup n (here (fs st'))
                      = lookup n (here (fs (start nested_root))))
        /\ names (here (fs st')) = names (here (fs (start nested_root)))
        /\ above (fs st') = above (fs (start nested_root))
        /\ trace st' = trace (start nested_root)).
Proof.
  split; [reflexivity|].
  apply (@sync_folder_mtime_spec (start nested_root) (py "S") 1 2
           nested_entries).
  reflexivity.
Defined.

(* ================================================================== *)
(** * What a run keeps *)

Lemma keeps_refl (w : world) : keeps w w.
Proof.
  split; auto. destruct (above w) as [[rn sibs]|]; [|reflexivity].
  exists sibs. auto.
Qed.

Lemma keeps_trans (w1 w2 w3 : world) : keeps w1 w2 -> keeps w2 w3 -> keeps w1 w3.
Proof.
  intros [A1 B1 C1] [A2 B2 C2]. split.
  - auto.
  - destruct (above w1) as [[rn sibs]|].
    + destruct B1 as (sibs2 & E2 & H2). rewrite E2 in B2.
      destruct B2 as (sibs3 & E3 & H3). exists sibs3. auto.
    + rewrite B1 in B2. exact B2.
  - auto.
Qed.

Lemma inside_Entry_dir (es : entries) (d n : pystr) (x : node) :
  inside es d n = Entry x ->
  exists a m c, lookup d es = Some (Dir a m c) /\ lookup n c = Some x.
Proof.
  unfold inside. destruct (lookup d es) as [[data m|m|a m c]|]; try discriminate.
  destruct (lookup n c) eqn:E; [|discriminate]. intros [= ->]. eauto.
Qed.

Lemma keeps_above_same (w : world) (es : entries) :
  match above w with
  | None => above (set_here w es) = None
  | Some (rn, sibs) =>
      exists sibs', above (set_here w es) = Some (rn, sibs')
                    /\ forall n x, lookup n sibs = Some x ->
                                   lookup n sibs' = Some x
  end.
Proof.
  cbn [above set_here]. destruct (above w) as [[rn sibs]|]; [|reflexivity].
  exists sibs. auto.
Qed.

Lemma made_keeps (t : pystr) (w : world) :
  lookup t (here w) = None -> keeps w (made t w).
Proof.
  intros Ht. unfold made. split.
  - intros d n x H. cbn [here set_here]. now rewrite inside_app_new.
  - apply keeps_above_same.
  - intros n x. cbn [here set_here]. rewrite lookup_app.
    destruct (lookup n (here w)); [auto|]. simpl.
    destruct (pystr_eqb t n); [|discriminate]. intros [= <-]. discriminate.
Qed.

Lemma moved_into_keeps (t name : pystr) (x : node) (w : world) :
  lookup name (here w) = Some x -> is_dir_node (Some x) = false ->
  keeps w (moved_into t name x w).
Proof.
  intros Hn Hx. unfold moved_into. split.
  - intros d n y H. cbn [here set_here].
    destruct (inside_Entry_dir _ _ _ H) as (a & m & c & Hd & Hc).
    assert (Hne : d <> name).
    { intros ->. rewrite Hn in Hd. injection Hd as ->. discriminate. }
    unfold inside. rewrite lookup_update, lookup_remove_neq, Hd by exact Hne.
    destruct (pystr_eqb t d); simpl; [|now rewrite Hc].
    now rewrite lookup_app, Hc.
  - apply keeps_above_same.
  - intros n y. cbn [here set_here]. rewrite lookup_update.
    destruct (list_eq_dec N.eq_dec n name) as [->|Hne].
    + rewrite lookup_remove_eq. now destruct (pystr_eqb t name).
    + rewrite lookup_remove_neq by exact Hne.
      destruct (pystr_eqb t n); [|auto].
      destruct (lookup n (here w)) as [[data m|m|a m c]|]; simpl; auto.
      intros [= <-]. discriminate.
Qed.

Lemma moved_up_keeps (rn : pystr) (sibs : entries) (name : pystr) (x : node)
    (w : world) :
  above w = Some (rn, sibs) ->
  lookup name (here w) = Some x -> is_dir_node (Some x) = false ->
  keeps w (moved_up rn sibs name x w).
Proof.
  intros Ha Hn Hx. unfold moved_up. split.
  - intros d n y H. cbn [here set_here set_above].
    erewrite inside_remove; eauto.
  - rewrite Ha. cbn [above set_above]. exists (sibs ++ [(name, x)]).
    split; [reflexivity|]. intros n y H. now rewrite lookup_app, H.
  - intros n y. cbn [here set_here set_above].
    destruct (list_eq_dec N.eq_dec n name) as [->|Hne].
    + now rewrite lookup_remove_eq.
    + now rewrite lookup_remove_neq.
Qed.

Lemma touched_keeps (d : pystr) (a m : Z) (w : world) :
  is_dir_node (lookup d (here w)) = true -> keeps w (touched d a m w).
Proof.
  intros Hd. unfold touched. split.
  - intros d' n y H. cbn [here set_here]. now rewrite inside_update_times.
  - apply keeps_above_same.
  - intros n y. cbn [here set_here]. rewrite lookup_update.
    eqb_cases d n; [|auto]. subst d.
    destruct (lookup n (here w)) as [[data m'|m'|a' m' c]|]; try discriminate.
    simpl. intros [= <-]. discriminate.
Qed.

Lemma prepared_keeps (w w' : world) (t : pystr) : prepared w t w' -> keeps w w'.
Proof. intros [Hp Ht|_]; [now apply made_keeps | apply keeps_refl]. Qed.

Lemma scan_entry_keeps (name : pystr) (mv : nat) (st : state) :
  keeps (fs st) (fs (snd (scan_entry name mv st))).
Proof.
  destruct (scan_entry_cases name mv st)
    as [Hd|Hd Ht|t x Hd Ht Hne Hp Hl Hx|t w' Hd Ht Hne P Hex
       |t w' e Hd Ht Hne P Hex Hl|t w' x Ht Hne P Hp Hl Hx Hex
       |t rn sibs x Ht Hne Hp Ha Hl Hx Hex];
    cbn [snd fs logged]; try apply keeps_refl;
    try (eapply prepared_keeps; eauto; fail).
  - eapply keeps_trans; [eapply prepared_keeps; eauto|].
    apply moved_into_keeps; [|exact Hx].
    eapply (others_stay (prepared_leaves_alone P)); eauto.
  - now apply moved_up_keeps.
Qed.

Lemma scan_keeps (todo : list pystr) :
  forall mv st, keeps (fs st) (fs (snd (scan todo mv st))).
Proof.
  induction todo as [|name todo IH]; intros mv st; [apply keeps_refl|].
  rewrite scan_cons. pose proof (scan_entry_keeps name mv st) as K.
  destruct (scan_entry name mv st) as [[m1|e] st1]; cbn [snd] in *; [|exact K].
  eapply keeps_trans; [exact K | apply IH].
Qed.

Lemma sync_pass_keeps (todo : list pystr) :
  forall st, keeps (fs st) (fs (snd (sync_pass todo st))).
Proof.
  induction todo as [|d todo IH]; intros st; [apply keeps_refl|].
  cbn [sync_pass]. unfold bind at 1. unfold is_dir, bind, get_fs, ret.
  destruct (is_dir_node (lookup d (here (fs st)))) eqn:Hd.
  - unfold bind.
    destruct (sync_folder_mtime_cases d st Hd) as [E|(t & E)]; rewrite E.
    + apply IH.
    + eapply keeps_trans; [|apply IH]. cbn [fs]. now apply touched_keeps.
  - unfold bind, ret. apply IH.
Qed.

Lemma organise_keeps (w : world) : keeps w (fs (snd (organise (start w)))).
Proof.
  rewrite organise_unfold. pose proof (scan_keeps (names (here w)) 0 (start w)) as K.
  cbn [fs start] in *.
  destruct (scan (names (here w)) 0 (start w)) as [[m|e] stA]; cbn [snd] in *;
    [|exact K].
  pose proof (sync_pass_keeps (names (here (fs stA))) stA) as K2.
  destruct (sync_pass (names (here (fs stA))) stA) as [[[]|e] stB];
    cbn [snd fs logged] in *; eapply keeps_trans; eauto.
Qed.

Lemma root_join_DotDot (t : pystr) : root_join t = DotDot -> t = py "..".
Proof.
  unfold root_join. destruct (pystr_eqb t (py ".")); [discriminate|].
  eqb_cases t (py ".."); [auto | discriminate].
Qed.

Lemma root_join_Here (t : pystr) : root_join t = Here -> t = py ".".
Proof.
  unfold root_join. eqb_cases t (py "."); [auto|].
  destruct (pystr_eqb t (py "..")); discriminate.
Qed.

Lemma prepared_dir (w w' : world) (t : pystr) :
  prepared w t w' -> root_join t = Sub t ->
  is_dir_node (lookup t (here w')) = true.
Proof.
  intros [Hp Ht|H] E; [|auto]. unfold made. cbn [here set_here].
  rewrite lookup_app, Ht. simpl. now rewrite pystr_eqb_refl.
Qed.

Lemma relocated_kept (name : pystr) (x : node) (w w' : world) :
  keeps w w' -> relocated name x w -> relocated name x w'.
Proof.
  intros [A B C] (t & Ht & Hne & Hh & Hd & T). exists t.
  split; [exact Ht|]. split; [exact Hne|]. split; [exact Hh|].
  destruct (root_join t) as [| |t'] eqn:E; [congruence| |].
  - specialize (Hd eq_refl). unfold target in *.
    destruct (above w) as [[rn sibs]|]; [|congruence].
    destruct B as (sibs' & -> & H). split; [discriminate|].
    destruct (pystr_eqb rn name); [discriminate|].
    destruct (lookup name sibs) as [y|] eqn:L; [|discriminate].
    injection T as ->. now rewrite (H name x L).
  - split; [discriminate|]. unfold target in *. auto.
Qed.

Lemma moved_into_target (t name : pystr) (x : node) (w : world) :
  lookup name (here w) = Some x -> is_dir_node (Some x) = false ->
  is_dir_node (lookup t (here w)) = true ->
  target_exists w (Sub t) name = false ->
  target (moved_into t name x w) (Sub t) name = Entry x.
Proof.
  intros Hn Hx Hd Hex. unfold target_exists, target, inside in *.
  unfold moved_into. cbn [here set_here].
  destruct (lookup t (here w)) as [[data m|m|a m c]|] eqn:Ht; try discriminate.
  assert (Hne : t <> name).
  { intros ->. rewrite Hn in Ht. injection Ht as ->. discriminate. }
  rewrite lookup_update, pystr_eqb_refl, lookup_remove_neq, Ht by exact Hne.
  simpl. rewrite lookup_app.
  destruct (lookup name c); [discriminate|]. simpl.
  now rewrite pystr_eqb_refl.
Qed.

Lemma moved_up_target (rn : pystr) (sibs : entries) (name : pystr) (x : node)
    (w : world) :
  above w = Some (rn, sibs) -> target_exists w DotDot name = false ->
  target (moved_up rn sibs name x w) DotDot name = Entry x.
Proof.
  intros Ha Hex. unfold target_exists, target in *. rewrite Ha in Hex.
  unfold moved_up. cbn [above set_above].
  destruct (pystr_eqb rn name); [discriminate|]. rewrite lookup_app.
  destruct (lookup name sibs); [discriminate|]. simpl.
  now rewrite pystr_eqb_refl.
Qed.

(** A round that prints "Moved" has put the file at its target, as it
    was at the root. *)
Lemma scan_entry_moved (name : pystr) (mv : nat) (st : state) (n d : pystr) :
  In (Print (Moved n d))
    (skipn (List.length (trace st)) (trace (snd (scan_entry name mv st)))) ->
  n = name /\ extract_title name = Some d
  /\ exists x, lookup name (here (fs st)) = Some x
               /\ is_dir_node (Some x) = false
               /\ relocated name x (fs (snd (scan_entry name mv st))).
Proof.
  assert (K : forall (tr add : list event),
             skipn (List.length tr) (tr ++ add) = add).
  { intros tr add. rewrite skipn_app, skipn_all, Nat.sub_diag. reflexivity. }
  destruct (scan_entry_cases name mv st)
    as [Hd|Hd Ht|t x Hd Ht Hne Hp Hl Hx|t w' Hd Ht Hne P Hex
       |t w' e Hd Ht Hne P Hex Hl|t w' x Ht Hne P Hp Hl Hx Hex
       |t rn sibs x Ht Hne Hp Ha Hl Hx Hex];
    cbn [snd fs trace logged]; rewrite ?K.
  - rewrite skipn_all. intros [].
  - intros [H|[]]. discriminate.
  - intros [H|[]]. discriminate.
  - intros [H|[H|[]]]; discriminate.
  - intros [H|[]]. discriminate.
  - intros [H|[H|[]]]; [discriminate|]. injection H as <- <-.
    split; [reflexivity|]. split; [exact Ht|]. exists x.
    split; [exact Hl|]. split; [exact Hx|]. exists t.
    rewrite Hp. repeat split; auto; try discriminate.
    apply moved_into_target; auto.
    + eapply (others_stay (prepared_leaves_alone P)); eauto.
    + eapply prepared_dir; eauto.
  - intros [H|[H|[]]]; [discriminate|]. injection H as <- <-.
    split; [reflexivity|].
    split; [now rewrite Ht, (root_join_DotDot _ Hp)|]. exists x.
    split; [exact Hl|]. split; [exact Hx|]. exists t.
    rewrite Hp. repeat split; auto; try discriminate.
    now apply moved_up_target.
Qed.

(** A file of the root is, after a round, still at the root as it was or
    at its target as it was. *)
Lemma scan_entry_conserves (name : pystr) (mv : nat) (st : state)
    (n : pystr) (x : node) :
  lookup n (here (fs st)) = Some x -> is_dir_node (Some x) = false ->
  lookup n (here (fs (snd (scan_entry name mv st)))) = Some x
  \/ relocated n x (fs (snd (scan_entry name mv st))).
Proof.
  intros Hl Hx.
  destruct (list_eq_dec N.eq_dec name n) as [->|Hne].
  - destruct (scan_entry_cases n mv st)
      as [Hd|Hd Ht|t y Hd Ht Hne Hp Hl' Hy|t w' Hd Ht Hne P Hex
         |t w' e Hd Ht Hne P Hex Hl'|t w' y Ht Hne P Hp Hl' Hy Hex
         |t rn sibs y Ht Hne Hp Ha Hl' Hy Hex];
      cbn [snd fs logged]; auto.
    + left. eapply (others_stay (prepared_leaves_alone P)); eauto.
    + left. eapply (others_stay (prepared_leaves_alone P)); eauto.
    + right. assert (y = x) by congruence. subst y. exists t.
      rewrite Hp. repeat split; auto; try discriminate.
      apply moved_into_target; auto.
      * eapply (others_stay (prepared_leaves_alone P)); eauto.
      * eapply prepared_dir; eauto.
    + right. assert (y = x) by congruence. subst y. exists t.
      rewrite Hp. repeat split; auto; try discriminate.
      now apply moved_up_target.
  - left. eapply (others_stay (scan_entry_leaves_alone name mv st)); eauto.
Qed.

Lemma scan_conserves (todo : list pystr) :
  forall mv st n x,
    lookup n (here (fs st)) = Some x -> is_dir_node (Some x) = false ->
    lookup n (here (fs (snd (scan todo mv st)))) = Some x
    \/ relocated n x (fs (snd (scan todo mv st))).
Proof.
  induction todo as [|name todo IH]; intros mv st n x Hl Hx; [now left|].
  rewrite scan_cons.
  pose proof (scan_entry_conserves name mv st n Hl Hx) as K.
  destruct (scan_entry name mv st) as [[m1|e] st1]; cbn [snd] in *; [|exact K].
  destruct K as [K|K]; [now apply IH|].
  right. eapply relocated_kept; [apply scan_keeps | exact K].
Qed.

(** X1: no file is lost.  Every non-directory of the root is, after a run
    (whether it ends normally or raises), still at the root with the same
    contents and mtime, or at its target, inside the folder of its title
    or in the parent directory, with the same contents and mtime. *)
Theorem no_file_is_lost (w : world) (name : pystr) (x : node) :
  lookup name (here w) = Some x -> is_dir_node (Some x) = false ->
  lookup name (here (fs (snd (organise (start w))))) = Some x
  \/ relocated name x (fs (snd (organise (start w)))).
Proof.
  intros Hl Hx. rewrite organise_unfold.
  pose proof (@scan_conserves (names (here w)) 0 (start w) name x Hl Hx) as K.
  cbn [fs start] in *.
  destruct (scan (names (here w)) 0 (start w)) as [[m|e] stA]; cbn [snd] in *;
    [|exact K].
  destruct (sync_pass_spec (names (here (fs stA))) stA) as (wB & EB & LA & _).
  pose proof (sync_pass_keeps (names (here (fs stA))) stA) as K2.
  rewrite EB in *. cbn [snd fs logged] in *.
  destruct K as [K|K].
  - left. eapply (others_stay LA); eauto.
  - right. eapply relocated_kept; eauto.
Qed.

Lemma no_file_is_lost_witness :
  lookup (py "[G] X - 02 [AB].mkv")
    (here (fs (snd (organise (start sample_root))))) = Some (File [2%N] 3%Z)
  \/ relocated (py "[G] X - 02 [AB].mkv") (File [2%N] 3%Z)
       (fs (snd (organise (start sample_root)))).
Proof.
  apply (@no_file_is_lost sample_root (py "[G] X - 02 [AB].mkv")
           (File [2%N] 3%Z)).
  - vm_compute. reflexivity.
  - reflexivity.
Defined.

(** X2: a run never removes, renames or alters what is already filed.
    Whatever is inside a first-level folder stays there as it is; the
    parent directory keeps every entry it had; a directory of the root
    stays a directory of the root; and every non-directory found at the
    root after the run was there before, with the same contents and
    mtime (the run adds directories only). *)
Theorem run_keeps_what_is_filed (w : world) :
  (forall d n x,
     inside (here w) d n = Entry x ->
     inside (here (fs (snd (organise (start w))))) d n = Entry x)
  /\ match above w with
     | None => above (fs (snd (organise (start w)))) = None
     | Some (rn, sibs) =>
         exists sibs',
           above (fs (snd (organise (start w)))) = Some (rn, sibs')
           /\ forall n x, lookup n sibs = Some x -> lookup n sibs' = Some x
     end
  /\ (forall n,
        is_dir_node (lookup n (here w)) = true ->
        is_dir_node (lookup n (here (fs (snd (organise (start w)))))) = true)
  /\ (forall n x,
        lookup n (here (fs (snd (organise (start w))))) = Some x ->
        is_dir_node (Some x) = false -> lookup n (here w) = Some x).
Proof.
  destruct (organise_keeps w) as [A B C].
  split; [exact A|]. split; [exact B|]. split; [|exact C].
  intros n Hd. rewrite organise_unfold.
  assert (S : forall todo mv st,
             is_dir_node (lookup n (here (fs st))) = true ->
             is_dir_node (lookup n (here (fs (snd (scan todo mv st))))) = true).
  { induction todo as [|name todo IH]; intros mv st H; [exact H|].
    rewrite scan_cons.
    pose proof (dirs_stay (scan_entry_leaves_alone name mv st) n H) as H1.
    destruct (scan_entry name mv st) as [[m1|e] st1]; cbn [snd] in *; auto. }
  specialize (S (names (here w)) 0 (start w) Hd). cbn [fs start] in *.
  destruct (scan (names (here w)) 0 (start w)) as [[m|e] stA]; cbn [snd] in *;
    [|exact S].
  destruct (sync_pass_spec (names (here (fs stA))) stA) as (wB & EB & LA & _).
  rewrite EB. cbn [snd fs logged]. now apply (dirs_stay LA).
Qed.

Lemma skipn_trace_app (tr add : list event) :
  skipn (List.length tr) (tr ++ add) = add.
Proof. now rewrite skipn_app, skipn_all, Nat.sub_diag. Qed.

Lemma scan_moved (todo : list pystr) :
  forall mv st n d,
    In (Print (Moved n d)) (trace (snd (scan todo mv st))) ->
    In (Print (Moved n d)) (trace st)
    \/ (extract_title n = Some d
        /\ exists x, lookup n (here (fs st)) = Some x
                     /\ is_dir_node (Some x) = false
                     /\ relocated n x (fs (snd (scan todo mv st)))).
Proof.
  induction todo as [|name todo IH]; intros mv st n d H; [now left|].
  rewrite scan_cons in *.
  pose proof (@scan_entry_moved name mv st n d) as M.
  pose proof (scan_entry_keeps name mv st) as K.
  destruct (scan_entry_trace name mv st) as (tr1 & E1 & _).
  rewrite E1, skipn_trace_app in M.
  destruct (scan_entry name mv st) as [[m1|e] st1]; cbn [snd] in *.
  - destruct (IH m1 st1 n d H) as [H1|(Ht & x & Hl & Hx & R)].
    + rewrite E1 in H1. apply in_app_or in H1. destruct H1 as [H1|H1];
        [now left|].
      right. destruct (M H1) as (-> & Ht & x & Hl & Hx & R).
      split; [exact Ht|]. exists x. repeat split; auto.
      eapply relocated_kept; [apply scan_keeps | exact R].
    + right. split; [exact Ht|]. exists x. repeat split; auto.
      now apply (kept_files K).
  - rewrite E1 in H. apply in_app_or in H. destruct H as [H|H]; [now left|].
    right. destruct (M H) as (-> & Ht & x & Hl & Hx & R). eauto 6.
Qed.

(** X3: a "Moved" line tells the truth.  If a run prints that [name] was
    moved to [dir_name], then [name] was a non-directory of the root,
    [dir_name] is the title extracted from it, and after the run the file
    is at its target with the contents and mtime it had at the root. *)
Theorem moved_line_is_true (w : world) (name dir_name : pystr) :
  In (Moved name dir_name) (stdout (main (Directory w))) ->
  extract_title name = Some dir_name
  /\ exists x, lookup name (here w) = Some x
               /\ is_dir_node (Some x) = false
               /\ relocated name x (fs (snd (organise (start w)))).
Proof.
  intros H.
  assert (H' : In (Print (Moved name dir_name))
                 (trace (snd (organise (start w))))).
  { apply in_printed. unfold main in H.
    now destruct (organise (start w)) as [[u|e] st]. }
  clear H. rewrite organise_unfold in *.
  pose proof (@scan_moved (names (here w)) 0 (start w) name dir_name) as M.
  cbn [fs start trace] in *.
  destruct (scan (names (here w)) 0 (start w)) as [[m|e] stA]; cbn [snd] in *.
  - destruct (sync_pass_spec (names (here (fs stA))) stA) as (wB & EB & _).
    pose proof (sync_pass_keeps (names (here (fs stA))) stA) as K2.
    rewrite EB in *. cbn [snd fs logged trace] in *.
    apply in_app_or in H'. destruct H' as [H'|[H'|[]]]; [|discriminate].
    destruct (M H') as [[]|(Ht & x & Hl & Hx & R)].
    split; [exact Ht|]. exists x. repeat split; auto.
    eapply relocated_kept; eauto.
  - destruct (M H') as [[]|(Ht & x & Hl & Hx & R)]. eauto 6.
Qed.

Lemma moved_line_is_true_witness :
  extract_title (py "M (2018).mkv") = Some (py "M")
  /\ exists x, lookup (py "M (2018).mkv") (here movie_root) = Some x
               /\ is_dir_node (Some x) = false
               /\ relocated (py "M (2018).mkv") x
                    (fs (snd (organise (start movie_root)))).
Proof.
  apply (@moved_line_is_true movie_root (py "M (2018).mkv") (py "M")).
  vm_compute. auto.
Defined.

(* ================================================================== *)
(** * When a run raises *)

Lemma lookup_Some_names (n : pystr) (x : node) (es : entries) :
  lookup n es = Some x -> In n (names es).
Proof.
  intros H. destruct (in_dec (list_eq_dec N.eq_dec) n (names es)) as [I|I];
    [exact I|]. apply lookup_None in I. congruence.
Qed.

Lemma scan_entry_names_stay (name : pystr) (mv : nat) (st : state) (n : pystr) :
  In n (names (here (fs st))) -> n <> name ->
  In n (names (here (fs (snd (scan_entry name mv st))))).
Proof.
  intros Hin Hne. pose proof (scan_entry_leaves_alone name mv st) as LA.
  destruct (lookup_in_names _ _ Hin) as (x & Hx).
  destruct (is_dir_node (Some x)) eqn:Ed.
  - assert (H : is_dir_node (lookup n (here (fs st))) = true) by now rewrite Hx.
    apply (dirs_stay LA) in H.
    destruct (lookup n (here (fs (snd (scan_entry name mv st))))) eqn:E;
      [|discriminate]. eapply lookup_Some_names; eauto.
  - eapply lookup_Some_names. eapply (others_stay LA); eauto.
Qed.

(** The first loop raises only at a listed non-directory whose title is
    the name of a non-directory of the root. *)
Lemma scan_raises (todo : list pystr) :
  forall mv st e st',
    NoDup todo ->
    (forall n, In n todo -> In n (names (here (fs st)))) ->
    scan todo mv st = (Raise e, st') ->
    e = FileExistsError
    /\ exists name t y,
         In name todo
         /\ is_dir_node (lookup name (here (fs st'))) = false
         /\ extract_title name = Some t /\ t <> [] /\ root_join t = Sub t
         /\ lookup t (here (fs st')) = Some y
         /\ is_dir_node (Some y) = false.
Proof.
  induction todo as [|name todo IH]; intros mv st e st' ND Hin E;
    [discriminate|].
  rewrite scan_cons in E. inversion ND as [|? ? Hnot ND']; subst.
  pose proof (scan_entry_cases name mv st) as C.
  destruct (scan_entry name mv st) as [[m1|e1] st1] eqn:E1.
  - destruct (IH m1 st1 e st' ND') as (-> & n & t & y & H & R); [|exact E|].
    + intros n Hn. pose proof (@scan_entry_names_stay name mv st n) as K.
      rewrite E1 in K. apply K; [apply Hin; now right|].
      intros ->. contradiction.
    + split; [reflexivity|]. exists n, t, y. split; [now right | exact R].
  - injection E as <- <-.
    inversion C as [Hd|Hd Ht|t x Hd Ht Hne Hp Hl Hx|t w' Hd Ht Hne P Hex
       |t w' e' Hd Ht Hne P Hex Hl|t w' x Ht Hne P Hp Hl Hx Hex
       |t rn sibs x Ht Hne Hp Ha Hl Hx Hex]; subst.
    + split; [reflexivity|]. exists name, t, x. cbn [fs logged].
      repeat split; auto. now left.
    + exfalso. apply lookup_None in Hl. apply Hl, Hin. now left.
Qed.

Lemma scan_dirs_stay (todo : list pystr) :
  forall mv st n,
    is_dir_node (lookup n (here (fs st))) = true ->
    is_dir_node (lookup n (here (fs (snd (scan todo mv st))))) = true.
Proof.
  induction todo as [|name todo IH]; intros mv st n Hn; [exact Hn|].
  rewrite scan_cons.
  pose proof (dirs_stay (scan_entry_leaves_alone name mv st) n Hn) as H1.
  destruct (scan_entry name mv st) as [[m1|e1] st1]; cbn [snd] in *; auto.
Qed.

Lemma organise_raises (w : world) (e : exn) :
  NoDup (names (here w)) ->
  fst (organise (start w)) = Raise e ->
  e = FileExistsError
  /\ exists name x t y,
       lookup name (here w) = Some x /\ is_dir_node (Some x) = false
       /\ extract_title name = Some t /\ t <> [] /\ root_join t = Sub t
       /\ lookup t (here w) = Some y /\ is_dir_node (Some y) = false.
Proof.
  intros ND H. rewrite organise_unfold in H.
  pose proof (scan_keeps (names (here w)) 0 (start w)) as K.
  pose proof (@scan_raises (names (here w)) 0 (start w)) as R.
  pose proof (fun n => @scan_dirs_stay (names (here w)) 0 (start w) n) as D.
  cbn [fs start] in *.
  destruct (scan (names (here w)) 0 (start w)) as [[m|e1] stA];
    cbn [fst snd] in *.
  - destruct (sync_pass_spec (names (here (fs stA))) stA) as (wB & EB & _).
    rewrite EB in H. discriminate.
  - injection H as ->.
    destruct (R e stA ND (fun n Hn => Hn) eq_refl)
      as (-> & name & t & y & Hin & Hd & Ht & Hne & Hp & Hl & Hy).
    split; [reflexivity|].
    destruct (lookup_in_names _ _ Hin) as (x & Hx).
    exists name, x, t, y. repeat split; auto.
    + destruct (is_dir_node (Some x)) eqn:Ex; [|reflexivity].
      rewrite D in Hd; [discriminate | now rewrite Hx].
    + now apply (kept_files K).
Qed.

(** X4: a run that stops with [FileExistsError] was blocked by a title.
    When [organise] raises [FileExistsError], the root held from the start
    a non-directory [name] whose title [t] (other than [.] and [..]) is
    itself the name of a non-directory of the root, so that [mkdir] could
    not create the folder for [t]. *)
Theorem file_exists_error_means_blocked_title (w : world) :
  NoDup (names (here w)) ->
  fst (organise (start w)) = Raise FileExistsError ->
  exists name x t y,
    lookup name (here w) = Some x /\ is_dir_node (Some x) = false
    /\ extract_title name = Some t /\ t <> [] /\ root_join t = Sub t
    /\ lookup t (here w) = Some y /\ is_dir_node (Some y) = false.
Proof. intros ND H. exact (proj2 (@organise_raises w FileExistsError ND H)). Qed.

Lemma file_exists_error_means_blocked_title_witness :
  exists name x t y,
    lookup name (here blocked_root) = Some x
    /\ is_dir_node (Some x) = false
    /\ extract_title name = Some t /\ t <> [] /\ root_join t = Sub t
    /\ lookup t (here blocked_root) = Some y
    /\ is_dir_node (Some y) = false.
Proof.
  apply (@file_exists_error_means_blocked_title blocked_root).
  - apply nodupb_NoDup. vm_compute. reflexivity.
  - vm_compute. reflexivity.
Defined.

(** X6: after a run that ends normally nothing is left to do.  Every
    non-directory still at the root either has no usable title (no pattern
    matches, or the title is empty) or has a title whose target already
    exists. *)
Theorem normal_run_leaves_nothing_to_do (w : world) (n t : pystr) (x : node) :
  fst (organise (start w)) = Ok tt ->
  lookup n (here (fs (snd (organise (start w))))) = Some x ->
  is_dir_node (Some x) = false ->
  extract_title n = Some t -> t <> [] ->
  target_exists (fs (snd (organise (start w)))) (root_join t) n = true.
Proof.
  intros Hok Hl Hx Ht Hne. rewrite organise_unfold in *.
  destruct (scan (names (here (fs (start w)))) 0 (start w)) as [[m|e] stA] eqn:ES;
    cbn [fst snd] in *; [|discriminate].
  destruct (sync_pass_spec (names (here (fs stA))) stA) as (wB & EB & LA & O).
  rewrite EB in *. cbn [snd fs logged] in *.
  assert (Hin : In n (names (here (fs stA)))).
  { rewrite <- (oftd_names O). eapply lookup_Some_names; eauto. }
  assert (SA : settled (fs stA) n = true).
  { eapply scan_settles; [exact ES| |exact Hin]. intros k Hk. now left. }
  destruct (lookup_in_names _ _ Hin) as (x0 & Hx0).
  assert (SB : settled wB n = true) by (eapply settled_stays; eauto).
  unfold settled in SB. rewrite Hl, Hx, Ht in SB.
  destruct t; [congruence | exact SB].
Qed.

Lemma normal_run_leaves_nothing_to_do_witness :
  target_exists (fs (snd (organise (start collision_root))))
    (root_join (py "X")) (py "[G] X - 01 [AB].mkv") = true.
Proof.
  apply (@normal_run_leaves_nothing_to_do collision_root
           (py "[G] X - 01 [AB].mkv") (py "X") (File [2%N] 8%Z)).
  - vm_compute. reflexivity.
  - vm_compute. reflexivity.
  - reflexivity.
  - vm_compute. reflexivity.
  - discriminate.
Defined.

(* ================================================================== *)
(** * The second loop, folder by folder *)

Lemma sync_folder_mtime_exact (d : pystr) (st : state) (a m : Z) (es : entries) :
  lookup d (here (fs st)) = Some (Dir a m es) ->
  sync_folder_mtime d st
  = (Ok tt,
     match rglob_file_mtimes (Dir a m es) with
     | [] => st
     | t :: ts =>
         {| fs := touched d (py_max t ts) (py_max t ts) (fs st);
            trace := trace st |}
     end).
Proof.
  intros Hl. destruct st as [w tr].
  cbv beta iota zeta delta
    [sync_folder_mtime rglob_mtimes utime bind get_fs put_fs ret fs trace] in *.
  rewrite Hl. cbv beta iota.
  destruct (rglob_file_mtimes (Dir a m es)) as [|t ts]; [reflexivity|].
  cbv beta iota. now rewrite Hl.
Qed.

Lemma sync_step (d : pystr) (st : state) :
  is_dir_node (lookup d (here (fs st))) = true ->
  (forall x, lookup d (here (fs (snd (sync_folder_mtime d st)))) = Some x ->
             synced x)
  /\ (forall d' x, d' <> d ->
        lookup d' (here (fs (snd (sync_folder_mtime d st)))) = Some x ->
        lookup d' (here (fs st)) = Some x).
Proof.
  intros Hd.
  destruct (lookup d (here (fs st))) as [[data m|m|a m es]|] eqn:Hl;
    try discriminate.
  rewrite (sync_folder_mtime_exact d st Hl). cbn [snd].
  unfold synced.
  destruct (rglob_file_mtimes (Dir a m es)) as [|t ts] eqn:E.
  - split; [|auto]. intros x Hx. rewrite Hl in Hx. injection Hx as <-.
    now rewrite E.
  - cbn [fs]. unfold touched. cbn [here set_here]. split.
    + intros x. rewrite lookup_update, pystr_eqb_refl, Hl. simpl.
      intros [= <-]. cbn [rglob_file_mtimes] in *. rewrite E. auto.
    + intros d' x Hne. rewrite lookup_update.
      eqb_cases d d'; [congruence | auto].
Qed.

(** After the second loop every folder it went through is synced. *)
Lemma sync_pass_syncs (todo : list pystr) :
  forall st (done : pystr -> Prop),
    (forall d x, done d -> lookup d (here (fs st)) = Some x -> synced x) ->
    forall d x, done d \/ In d todo ->
      lookup d (here (fs (snd (sync_pass todo st)))) = Some x -> synced x.
Proof.
  induction todo as [|d0 todo IH]; intros st done Hdone d x Hd Hl.
  - destruct Hd as [Hd|[]]. eapply Hdone; eauto.
  - cbn [sync_pass] in Hl. unfold bind at 1 in Hl.
    unfold is_dir, bind, get_fs, ret in Hl.
    destruct (is_dir_node (lookup d0 (here (fs st)))) eqn:E0.
    + unfold bind in Hl. destruct (sync_step d0 st E0) as (A & B).
      destruct (sync_folder_mtime_cases d0 st E0) as [E|(t & E)];
        rewrite E in *; cbn [snd] in *.
      * eapply (IH st (fun k => done k \/ k = d0)); [|  |exact Hl].
        -- intros k y [Hk| ->] Hy; [eapply Hdone; eauto | now apply A].
        -- destruct Hd as [Hd|[<-|Hd]]; auto.
      * eapply (IH _ (fun k => done k \/ k = d0)); [|  |exact Hl].
        -- intros k y [Hk| ->] Hy; [|now apply A].
           destruct (list_eq_dec N.eq_dec k d0) as [->|Hne]; [now apply A|].
           eapply Hdone; eauto.
        -- destruct Hd as [Hd|[<-|Hd]]; auto.
    + unfold bind, ret in Hl.
      eapply (IH st (fun k => done k \/ k = d0)); [|  |exact Hl].
      * intros k y [Hk| ->] Hy; [eapply Hdone; eauto|].
        rewrite Hy in E0. unfold synced. now destruct y.
      * destruct Hd as [Hd|[<-|Hd]]; auto.
Qed.

(** X7: after a run that ends normally the timestamps of every first-level
    folder are up to date.  For each directory of the root under which a
    regular file lies (at any depth), atime and mtime are both the largest
    mtime among those files. *)
Theorem normal_run_syncs_every_folder (w : world) (d : pystr) (a m : Z)
    (es : entries) (t : Z) (ts : list Z) :
  fst (organise (start w)) = Ok tt ->
  lookup d (here (fs (snd (organise (start w))))) = Some (Dir a m es) ->
  rglob_file_mtimes (Dir a m es) = t :: ts ->
  a = m /\ In m (t :: ts) /\ forall u, In u (t :: ts) -> (u <= m)%Z.
Proof.
  intros Hok Hl E. rewrite organise_unfold in *.
  destruct (scan (names (here (fs (start w)))) 0 (start w)) as [[k|e] stA];
    cbn [fst snd] in *; [|discriminate].
  pose proof (@sync_pass_syncs (names (here (fs stA))) stA (fun _ => False)) as S.
  destruct (sync_pass_spec (names (here (fs stA))) stA) as (wB & EB & _ & O).
  rewrite EB in *. cbn [snd fs logged] in *.
  assert (Sx : synced (Dir a m es)).
  { eapply (S (fun _ _ F _ => match F with end) d); [|exact Hl]. right.
    rewrite <- (oftd_names O). eapply lookup_Some_names; eauto. }
  unfold synced in Sx. rewrite E in Sx. destruct Sx as (-> & ->).
  split; [reflexivity|]. apply py_max_spec.
Qed.

Lemma normal_run_syncs_every_folder_witness :
  50%Z = 50%Z /\ In 50%Z [50%Z] /\ forall u, In u [50%Z] -> (u <= 50)%Z.
Proof.
  apply (@normal_run_syncs_every_folder sample_root (py "M") 50 50
           [ (py "M (2018).mkv", File [] 50%Z) ]).
  - vm_compute. reflexivity.
  - vm_compute. reflexivity.
  - vm_compute. reflexivity.
Defined.

(* ================================================================== *)
(** * Which names are examined *)

Lemma scan_entry_calls (name : pystr) (mv : nat) (st : state) :
  extract_calls (skipn (List.length (trace st))
                   (trace (snd (scan_entry name mv st))))
  = if is_dir_node (lookup name (here (fs st))) then [] else [name].
Proof.
  destruct (scan_entry_cases name mv st)
    as [Hd|Hd Ht|t x Hd Ht Hne Hp Hl Hx|t w' Hd Ht Hne P Hex
       |t w' e Hd Ht Hne P Hex Hl|t w' x Ht Hne P Hp Hl Hx Hex
       |t rn sibs x Ht Hne Hp Ha Hl Hx Hex];
    cbn [snd fs trace logged]; rewrite ?skipn_trace_app;
    try (rewrite Hd; reflexivity); try (rewrite Hl, Hx; reflexivity).
  rewrite skipn_all, Hd. reflexivity.
Qed.

Lemma scan_calls (todo : list pystr) :
  forall mv st m st',
    NoDup todo ->
    (forall n, In n todo -> In n (names (here (fs st)))) ->
    scan todo mv st = (Ok m, st') ->
    extract_calls (skipn (List.length (trace st)) (trace st'))
    = filter (fun n => negb (is_dir_node (lookup n (here (fs st))))) todo.
Proof.
  induction todo as [|name todo IH]; intros mv st m st' ND Hin E.
  - injection E as <- <-. now rewrite skipn_all.
  - rewrite scan_cons in E. inversion ND as [|? ? Hnot ND']; subst.
    pose proof (scan_entry_calls name mv st) as C.
    pose proof (scan_entry_leaves_alone name mv st) as LA.
    pose proof (scan_entry_keeps name mv st) as K.
    pose proof (fun n => @scan_entry_names_stay name mv st n) as NS.
    destruct (scan_entry_trace name mv st) as (tr1 & E1 & _).
    destruct (scan_entry name mv st) as [[m1|e] st1]; cbn [snd] in *;
      [|discriminate].
    assert (Hin1 : forall n, In n todo -> In n (names (here (fs st1)))).
    { intros n Hn. apply NS; [apply Hin; now right|]. intros ->. contradiction. }
    pose proof (IH m1 st1 m st' ND' Hin1 E) as R.
    destruct (scan_trace todo m1 st1) as (tr2 & E2 & _).
    rewrite E in E2. cbn [snd] in E2.
    rewrite E2, skipn_trace_app in R.
    rewrite E2, E1, <- app_assoc, skipn_trace_app, extract_calls_app, R.
    rewrite E1, skipn_trace_app in C. rewrite C. cbn [filter].
    assert (F : filter (fun n => negb (is_dir_node (lookup n (here (fs st1))))) todo
                = filter (fun n => negb (is_dir_node (lookup n (here (fs st))))) todo).
    { apply filter_ext_in. intros n Hn. f_equal.
      assert (Hne : name <> n) by (intros ->; contradiction).
      destruct (lookup_in_names _ _ (Hin n (or_intror Hn))) as (x & Hx).
      destruct (is_dir_node (Some x)) eqn:Ex.
      - rewrite Hx, Ex. apply (dirs_stay LA). now rewrite Hx.
      - now rewrite (others_stay LA n Hne Hx Ex), Hx. }
    rewrite F. now destruct (is_dir_node (lookup name (here (fs st)))).
Qed.

(** X8: in a run that ends normally [extract_title] is called exactly once
    for each non-directory of the root, in listing order, and for nothing
    else. *)
Theorem every_non_directory_is_examined_once (w : world) :
  NoDup (names (here w)) ->
  fst (organise (start w)) = Ok tt ->
  calls (main (Directory w)) = non_dirs w.
Proof.
  intros ND Hok.
  assert (C : calls (main (Directory w))
              = extract_calls (trace (snd (organise (start w))))).
  { unfold main. now destruct (organise (start w)) as [[u|e] st]. }
  rewrite C. rewrite organise_unfold in *.
  pose proof (@scan_calls (names (here w)) 0 (start w)) as S.
  cbn [fs start trace] in *.
  destruct (scan (names (here w)) 0 (start w)) as [[m|e] stA];
    cbn [fst snd] in *; [|discriminate].
  destruct (sync_pass_spec (names (here (fs stA))) stA) as (wB & EB & _).
  rewrite EB. cbn [snd logged trace].
  rewrite extract_calls_app. cbn. rewrite app_nil_r.
  apply (S m stA ND (fun n Hn => Hn) eq_refl).
Qed.

Lemma every_non_directory_is_examined_once_witness :
  calls (main (Directory sample_root)) = non_dirs sample_root.
Proof.
  apply (@every_non_directory_is_examined_once sample_root).
  - apply nodupb_NoDup. vm_compute. reflexivity.
  - vm_compute. reflexivity.
Defined.

(* ================================================================== *)
(** * The titles [..] and [.] *)

Lemma scan_entry_above (name : pystr) (mv : nat) (st : state) :
  extract_title name <> Some (py "..") ->
  above (fs (snd (scan_entry name mv st))) = above (fs st).
Proof.
  intros Hn.
  assert (P : forall t w', prepared (fs st) t w' -> above w' = above (fs st)).
  { intros t w' [? ?|?]; reflexivity. }
  destruct (scan_entry_cases name mv st)
    as [Hd|Hd Ht|t x Hd Ht Hne Hp Hl Hx|t w' Hd Ht Hne P' Hex
       |t w' e Hd Ht Hne P' Hex Hl|t w' x Ht Hne P' Hp Hl Hx Hex
       |t rn sibs x Ht Hne Hp Ha Hl Hx Hex];
    cbn [snd fs logged]; eauto.
  - unfold moved_into. cbn [above set_here]. eauto.
  - apply root_join_DotDot in Hp. congruence.
Qed.

(** X9: the parent directory is touched only for the title [..].  If no
    name listed in the root has the title [..], a run leaves the parent
    directory exactly as it was. *)
Theorem parent_untouched_without_dotdot (w : world) :
  (forall n, In n (names (here w)) -> extract_title n <> Some (py "..")) ->
  above (fs (snd (organise (start w)))) = above w.
Proof.
  intros H. rewrite organise_unfold.
  assert (S : forall todo mv st,
             (forall n, In n todo -> extract_title n <> Some (py "..")) ->
             above (fs (snd (scan todo mv st))) = above (fs st)).
  { induction todo as [|name todo IH]; intros mv st Ht; [reflexivity|].
    rewrite scan_cons.
    pose proof (@scan_entry_above name mv st (Ht name (or_introl eq_refl))) as A.
    destruct (scan_entry name mv st) as [[m1|e] st1]; cbn [snd] in *;
      [|exact A].
    rewrite IH; [exact A|]. intros n Hn. apply Ht. now right. }
  specialize (S (names (here w)) 0 (start w) H). cbn [fs start] in *.
  destruct (scan (names (here w)) 0 (start w)) as [[m|e] stA]; cbn [snd] in *;
    [|exact S].
  destruct (sync_pass_spec (names (here (fs stA))) stA) as (wB & EB & _ & O).
  rewrite EB. cbn [snd fs logged]. destruct O as (O & _). congruence.
Qed.

Lemma parent_untouched_without_dotdot_witness :
  above (fs (snd (organise (start collision_root)))) = above collision_root.
Proof.
  apply (@parent_untouched_without_dotdot collision_root).
  intros n Hin.
  repeat (destruct Hin as [<-|Hin]; [vm_compute; discriminate|]).
  destruct Hin.
Defined.

(** X10: a file whose title is [..] leaves the root.  When the parent
    directory holds no entry of that name (and the root itself does not
    bear it), the round moves the file into the parent directory: it is
    counted and reported as moved to [..], it is no longer in the root,
    and the parent holds it with the same contents and mtime. *)
Theorem dotdot_title_moves_file_to_parent (st : state) (name rn : pystr)
    (sibs : entries) (x : node) (mv : nat) :
  lookup name (here (fs st)) = Some x -> is_dir_node (Some x) = false ->
  extract_title name = Some (py "..") ->
  above (fs st) = Some (rn, sibs) -> rn <> name -> lookup name sibs = None ->
  exists w',
    scan_entry name mv st
    = (Ok (S mv),
       {| fs := w';
          trace := trace st ++ [Call_extract_title name;
                                Print (Moved name (py ".."))] |})
    /\ lookup name (here w') = None
    /\ exists sibs', above w' = Some (rn, sibs')
                     /\ lookup name sibs' = Some x
                     /\ forall n y, lookup n sibs = Some y ->
                                    lookup n sibs' = Some y.
Proof.
  intros Hl Hx Ht Ha Hrn Hs.
  assert (Hex : target_exists (fs st) DotDot name = false).
  { unfold target_exists, target. rewrite Ha, Hs.
    eqb_cases rn name; [contradiction | reflexivity]. }
  exists (moved_up rn sibs name x (fs st)). split; [|split].
  - destruct st as [w tr]. cbn [fs trace] in *.
    assert (Hd : is_dir_node (lookup name (here w)) = false) by now rewrite Hl.
    cbv beta iota zeta delta
      [scan_entry bind is_dir get_fs ret call_extract_title emit print
       mkdir_exist_ok exists_ move put_fs raise fs trace].
    assert (Hr : root_join [46%N; 46%N] = DotDot) by reflexivity.
    rewrite Hd, Ht. change (py "..") with [46%N; 46%N].
    cbv beta iota. rewrite !Hr. cbv beta iota.
    rewrite Hex, Hl, Ha. cbv beta iota. rewrite <- app_assoc. reflexivity.
  - unfold moved_up. cbn [here set_here set_above]. apply lookup_remove_eq.
  - exists (sibs ++ [(name, x)]). unfold moved_up. cbn [above set_above].
    split; [reflexivity|]. split.
    + rewrite lookup_app, Hs. simpl. now rewrite pystr_eqb_refl.
    + intros n y H. now rewrite lookup_app, H.
Qed.

Lemma dotdot_title_moves_file_to_parent_witness :
  exists w',
    scan_entry (py "[G] .. - 01 [AB].mkv") 0 (start dotdot_root)
    = (Ok 1,
       {| fs := w';
          trace := trace (start dotdot_root)
                   ++ [Call_extract_title (py "[G] .. - 01 [AB].mkv");
                       Print (Moved (py "[G] .. - 01 [AB].mkv") (py ".."))] |})
    /\ lookup (py "[G] .. - 01 [AB].mkv") (here w') = None
    /\ exists sibs', above w' = Some (py "videos", sibs')
                     /\ lookup (py "[G] .. - 01 [AB].mkv") sibs'
                        = Some (File [4%N] 8%Z)
                     /\ forall n y, lookup n [] = Some y ->
                                    lookup n sibs' = Some y.
Proof.
  apply (@dotdot_title_moves_file_to_parent (start dotdot_root)
           (py "[G] .. - 01 [AB].mkv") (py "videos") [] (File [4%N] 8%Z) 0).
  - vm_compute. reflexivity.
  - reflexivity.
  - vm_compute. reflexivity.
  - reflexivity.
  - vm_compute. discriminate.
  - reflexivity.
Defined.

(** X11: a file whose title is [.] is never moved.  Its target is the
    file itself, so every round that scans it reports it as already
    existing and changes nothing, and it is at the root, as it was, after
    the run. *)
Theorem dot_title_is_never_moved (w : world) (name : pystr) (x : node) :
  lookup name (here w) = Some x -> is_dir_node (Some x) = false ->
  extract_title name = Some (py ".") ->
  (forall tr mv,
     scan_entry name mv {| fs := w; trace := tr |}
     = (Ok mv,
        {| fs := w;
           trace := tr ++ [Call_extract_title name;
                           Print (Skipped Here name)] |}))
  /\ lookup name (here (fs (snd (organise (start w))))) = Some x.
Proof.
  intros Hl Hx Ht.
  assert (Hex : target_exists w (root_join (py ".")) name = true).
  { change (root_join (py ".")) with Here. unfold target_exists, target.
    now rewrite Hl. }
  split.
  - intros tr mv.
    apply (@scan_entry_collision name (py ".") mv {| fs := w; trace := tr |});
      cbn [fs]; auto; [now rewrite Hl | discriminate].
  - eapply organise_keeps_settled; eauto.
    eapply settled_collision; eauto.
Qed.

Lemma dot_title_is_never_moved_witness :
  (forall tr mv,
     scan_entry (py "[G] . - 01 [AB].mkv") mv {| fs := dot_root; trace := tr |}
     = (Ok mv,
        {| fs := dot_root;
           trace := tr ++ [Call_extract_title (py "[G] . - 01 [AB].mkv");
                           Print (Skipped Here (py "[G] . - 01 [AB].mkv"))] |}))
  /\ lookup (py "[G] . - 01 [AB].mkv")
       (here (fs (snd (organise (start dot_root)))))
     = Some (File [5%N] 8%Z).
Proof.
  apply (@dot_title_is_never_moved dot_root (py "[G] . - 01 [AB].mkv")
           (File [5%N] 8%Z)).
  - vm_compute. reflexivity.
  - reflexivity.
  - vm_compute. reflexivity.
Defined.

(* ================================================================== *)
(** * sync_folder_mtime: order of listing, repetition *)

Lemma same_elements_same_max (t : Z) (ts : list Z) (u : Z) (us : list Z) :
  (forall z, In z (t :: ts) <-> In z (u :: us)) -> py_max t ts = py_max u us.
Proof.
  intros H. destruct (py_max_spec ts t) as (A & B).
  destruct (py_max_spec us u) as (C & D).
  apply Z.le_antisymm; [apply D, H, A | apply B, H, C].
Qed.

Lemma contains_perm (es es' : entries) (path : list pystr) (x : node) :
  Permutation es es' -> contains es path x -> contains es' path x.
Proof.
  intros P H. inversion H as [es0 n y Hin|es0 n a m c path' y Hin Hc]; subst.
  - constructor. eapply Permutation_in; eauto.
  - econstructor; [|exact Hc]. eapply Permutation_in; eauto.
Qed.

(** X12: the time a folder gets does not depend on the order in which any
    directory below it is listed.  Two states in which the folder has the
    same times and the same regular-file mtimes below it (reached through
    whatever listing order) give it the same atime and mtime. *)
Theorem folder_time_ignores_listing_order (st1 st2 : state) (d : pystr)
    (a m : Z) (es1 es2 : entries) :
  lookup d (here (fs st1)) = Some (Dir a m es1) ->
  lookup d (here (fs st2)) = Some (Dir a m es2) ->
  (forall t, (exists path data, contains es1 path (File data t))
             <-> (exists path data, contains es2 path (File data t))) ->
  exists a' m',
    lookup d (here (fs (snd (sync_folder_mtime d st1)))) = Some (Dir a' m' es1)
    /\ lookup d (here (fs (snd (sync_folder_mtime d st2))))
       = Some (Dir a' m' es2).
Proof.
  intros H1 H2 Hc.
  assert (Hin : forall t, In t (rglob_file_mtimes (Dir a m es1))
                          <-> In t (rglob_file_mtimes (Dir a m es2))).
  { intros t.
    rewrite (file_mtimes_contains (Dir a m es1) t).
    rewrite (file_mtimes_contains (Dir a m es2) t). apply Hc. }
  rewrite (sync_folder_mtime_exact d st1 H1), (sync_folder_mtime_exact d st2 H2).
  destruct (rglob_file_mtimes (Dir a m es1)) as [|t ts] eqn:E1;
    destruct (rglob_file_mtimes (Dir a m es2)) as [|u us] eqn:E2.
  - exists a, m. auto.
  - destruct (proj2 (Hin u)); simpl; auto.
  - destruct (proj1 (Hin t)); simpl; auto.
  - exists (py_max t ts), (py_max t ts). cbn [snd fs]. unfold touched.
    cbn [here set_here]. rewrite !lookup_update, !pystr_eqb_refl, H1, H2.
    rewrite (same_elements_same_max Hin). auto.
Qed.

Lemma folder_time_ignores_listing_order_witness :
  exists a' m',
    lookup (py "S") (here (fs (snd (sync_folder_mtime (py "S")
                                      (start nested_root)))))
    = Some (Dir a' m' nested_entries)
    /\ lookup (py "S")
         (here (fs (snd (sync_folder_mtime (py "S")
                           (start (set_here nested_root
                                     [(py "S", Dir 1 2 (rev nested_entries))]))))))
       = Some (Dir a' m' (rev nested_entries)).
Proof.
  apply (@folder_time_ignores_listing_order (start nested_root)
           (start (set_here nested_root [(py "S", Dir 1 2 (rev nested_entries))]))
           (py "S") 1 2 nested_entries (rev nested_entries)).
  - reflexivity.
  - reflexivity.
  - intros t. split; intros (path & data & H); exists path, data.
    + eapply contains_perm; [apply Permutation_rev | exact H].
    + eapply contains_perm; [apply Permutation_sym, Permutation_rev | exact H].
Defined.

Lemma update_fixed (d : pystr) (f : node -> node) (es : entries) (x : node) :
  lookup d es = Some x -> f x = x -> update d f es = es.
Proof.
  induction es as [|[n y] es IH]; simpl; [reflexivity|].
  eqb_cases n d.
  - intros [= ->] ->. reflexivity.
  - intros H Hf. now rewrite IH.
Qed.

Lemma touched_synced (d : pystr) (a : Z) (es : entries) (w : world) :
  lookup d (here w) = Some (Dir a a es) -> touched d a a w = w.
Proof.
  intros H. unfold touched, set_here.
  rewrite (update_fixed d (set_times a a) _ H eq_refl). now destruct w.
Qed.

Lemma sync_folder_mtime_synced (d : pystr) (st : state) (x : node) :
  lookup d (here (fs st)) = Some x -> is_dir_node (Some x) = true ->
  synced x -> sync_folder_mtime d st = (Ok tt, st).
Proof.
  intros Hl Hd S. destruct x as [data m|m|a m es]; try discriminate.
  rewrite (sync_folder_mtime_exact d st Hl). unfold synced in S.
  destruct (rglob_file_mtimes (Dir a m es)) as [|t ts]; [reflexivity|].
  destruct S as (-> & ->). rewrite (touched_synced d _ Hl). now destruct st.
Qed.

(** X13: [sync_folder_mtime] is idempotent: on a directory of the root, a
    second call right after the first changes nothing. *)
Theorem sync_folder_mtime_idempotent (st : state) (d : pystr) :
  is_dir_node (lookup d (here (fs st))) = true ->
  sync_folder_mtime d (snd (sync_folder_mtime d st))
  = (Ok tt, snd (sync_folder_mtime d st)).
Proof.
  intros Hd. destruct (sync_step d st Hd) as (A & _).
  assert (Hd' : is_dir_node
                  (lookup d (here (fs (snd (sync_folder_mtime d st))))) = true).
  { destruct (sync_folder_mtime_cases d st Hd) as [E|(t & E)]; rewrite E;
      cbn [snd fs]; [exact Hd|].
    now apply (dirs_stay (touched_leaves_alone d t t (fs st) Hd)). }
  destruct (lookup d (here (fs (snd (sync_folder_mtime d st))))) as [x|] eqn:Hl;
    [|discriminate].
  eapply sync_folder_mtime_synced; eauto.
Qed.

Lemma sync_folder_mtime_idempotent_witness :
  sync_folder_mtime (py "S") (snd (sync_folder_mtime (py "S") (start nested_root)))
  = (Ok tt, snd (sync_folder_mtime (py "S") (start nested_root))).
Proof.
  apply (@sync_folder_mtime_idempotent (start nested_root) (py "S")).
  reflexivity.
Defined.

Lemma sync_pass_synced (todo : list pystr) (st : state) :
  (forall d x, lookup d (here (fs st)) = Some x -> synced x) ->
  sync_pass todo st = (Ok tt, st).
Proof.
  intros S. induction todo as [|d todo IH]; [reflexivity|].
  cbn [sync_pass]. unfold bind at 1. unfold is_dir, bind, get_fs, ret.
  destruct (is_dir_node (lookup d (here (fs st)))) eqn:Hd.
  - destruct (lookup d (here (fs st))) as [x|] eqn:Hl; [|discriminate].
    unfold bind. rewrite (sync_folder_mtime_synced d st Hl Hd (S d x Hl)).
    exact IH.
  - unfold bind, ret. exact IH.
Qed.

(** X14: a second run changes nothing on disk.  When a run ends normally,
    running the organiser again on the tree it left ends normally, prints
    only skip notices and the summary with count 0, and leaves the tree,
    timestamps included, exactly as it found it. *)
Theorem second_run_changes_nothing (w : world) (st1 : state) :
  organise (start w) = (Ok tt, st1) ->
  exists skips,
    organise (start (fs st1))
    = (Ok tt, {| fs := fs st1; trace := skips ++ [Print (Done 0)] |})
    /\ forallb is_quiet skips = true.
Proof.
  intros E. rewrite organise_unfold in E.
  destruct (scan (names (here (fs (start w)))) 0 (start w)) as [[m|e] stA] eqn:ES;
    [|discriminate].
  pose proof (@sync_pass_syncs (names (here (fs stA))) stA (fun _ => False)) as Sy.
  destruct (sync_pass_spec (names (here (fs stA))) stA) as (wB & EB & LA & O).
  rewrite EB in *. injection E as <-. cbn [snd fs logged] in *.
  assert (SB : forall n, In n (names (here wB)) -> settled wB n = true).
  { intros n Hn. rewrite (oftd_names O) in Hn.
    destruct (lookup_in_names _ _ Hn) as (x & Hx).
    eapply settled_stays; eauto.
    eapply scan_settles; [exact ES| |exact Hn]. intros k Hk. now left. }
  destruct (scan_settled (names (here wB)) 0 (start wB) SB) as (tr & E2 & Q).
  exists tr. split; [|exact Q].
  rewrite organise_unfold. cbn [fs start] in *. rewrite E2.
  cbn [fs logged start trace].
  rewrite sync_pass_synced; [reflexivity|]. cbn [fs].
  intros d x Hl. eapply (Sy (fun _ _ F _ => match F with end) d); [|exact Hl].
  right. rewrite <- (oftd_names O). eapply lookup_Some_names; eauto.
Qed.

Lemma second_run_changes_nothing_witness :
  exists skips,
    organise (start (fs (snd (organise (start sample_root)))))
    = (Ok tt, {| fs := fs (snd (organise (start sample_root)));
                 trace := skips ++ [Print (Done 0)] |})
    /\ forallb is_quiet skips = true.
Proof.
  apply (@second_run_changes_nothing sample_root
           (snd (organise (start sample_root)))).
  vm_compute. reflexivity.
Defined.

(* ================================================================== *)
(** * The matcher: which match comes first *)

Lemma rep_nil (R : Type) (c : cset) (g : bool) (hi : option nat) (pos : nat)
    (k : nat -> pystr -> option R) :
  rep c g 0 hi pos [] k = k pos [].
Proof. simpl. destruct g; [reflexivity | now destruct (k pos [])]. Qed.

Lemma rep_cons (R : Type) (c : cset) (g : bool) (lo : nat) (hi : option nat)
    (pos : nat) (x : N) (s : pystr) (k : nat -> pystr -> option R) :
  rep c g lo hi pos (x :: s) k =
  let more := if mem c x && may_take hi
              then rep c g (pred lo) (one_less hi) (S pos) s k else None in
  match lo with
  | S _ => more
  | O => if g then match more with Some r => Some r | None => k pos (x :: s) end
         else match k pos (x :: s) with Some r => Some r | None => more end
  end.
Proof. reflexivity. Qed.

(** A greedy repetition that cannot take a character hands over at once. *)
Lemma rep_greedy_stop (R : Type) (c : cset) (hi : option nat) (pos : nat)
    (s : pystr) (k : nat -> pystr -> option R) :
  starts_clean (mem c) s -> rep c true 0 hi pos s k = k pos s.
Proof.
  destruct s as [|x s]; intros H; [apply rep_nil|].
  rewrite rep_cons. simpl in H. now rewrite H.
Qed.

(** A greedy repetition takes the whole run when the rest of the pattern
    then succeeds. *)
Lemma rep_greedy_max (R : Type) (c : cset) (mid rest : pystr)
    (k : nat -> pystr -> option R) (x : R) :
  forall lo pos,
    forallb (mem c) mid = true -> lo <= List.length mid ->
    k (pos + List.length mid) rest = Some x ->
    starts_clean (mem c) rest ->
    rep c true lo None pos (mid ++ rest) k = Some x.
Proof.
  induction mid as [|a mid IH]; intros lo pos Hall Hlo Hk Hrest.
  - simpl in *. assert (lo = 0) by lia. subst lo.
    rewrite rep_greedy_stop by exact Hrest. now rewrite Nat.add_0_r in Hk.
  - simpl in Hall. apply andb_true_iff in Hall. destruct Hall as (Ha & Hall).
    cbn [app]. rewrite rep_cons. rewrite Ha. cbn [may_take andb one_less].
    assert (E : rep c true (pred lo) None (S pos) (mid ++ rest) k = Some x).
    { apply IH; auto; [simpl in Hlo; lia|].
      simpl in Hk. now rewrite Nat.add_succ_r in Hk. }
    cbv zeta. rewrite E. now destruct lo.
Qed.

(** A lazy repetition stops at the first split after which the rest of
    the pattern succeeds. *)
Lemma rep_lazy_first (R : Type) (c : cset) (a b : pystr)
    (k : nat -> pystr -> option R) (x : R) :
  forall lo pos,
    forallb (mem c) a = true -> lo <= List.length a ->
    (forall a1 a2, a = a1 ++ a2 -> a2 <> [] -> lo <= List.length a1 ->
                   k (pos + List.length a1) (a2 ++ b) = None) ->
    k (pos + List.length a) b = Some x ->
    rep c false lo None pos (a ++ b) k = Some x.
Proof.
  induction a as [|y a IH]; intros lo pos Hall Hlo Hfail Hk.
  - simpl in *. assert (lo = 0) by lia. subst lo. rewrite Nat.add_0_r in Hk.
    destruct b as [|z b]; [now rewrite rep_nil|].
    rewrite rep_cons. cbv zeta. now rewrite Hk.
  - simpl in Hall. apply andb_true_iff in Hall. destruct Hall as (Ha & Hall).
    cbn [app]. rewrite rep_cons. rewrite Ha. cbn [may_take andb one_less].
    assert (E : rep c false (pred lo) None (S pos) (a ++ b) k = Some x).
    { apply IH; auto; [simpl in Hlo; lia| |].
      - intros a1 a2 E Hne Hl.
        replace (S pos + List.length a1) with (pos + List.length (y :: a1))
          by (simpl; lia).
        apply (Hfail (y :: a1) a2); [now rewrite E | exact Hne | simpl; lia].
      - simpl in Hk. now rewrite Nat.add_succ_r in Hk. }
    cbv zeta. rewrite E. destruct lo; [|reflexivity].
    assert (K : k pos (y :: a ++ b) = None).
    { pose proof (Hfail [] (y :: a) eq_refl) as F. simpl in F.
      rewrite Nat.add_0_r in F. apply F; [discriminate | lia]. }
    now rewrite K.
Qed.

(** A repetition fails when the rest of the pattern fails after every
    run it can take. *)
Lemma rep_none (R : Type) (c : cset) (g : bool) (s : pystr)
    (k : nat -> pystr -> option R) :
  forall lo hi pos,
    (forall a1 a2, s = a1 ++ a2 -> forallb (mem c) a1 = true ->
                   k (pos + List.length a1) a2 = None) ->
    rep c g lo hi pos s k = None.
Proof.
  induction s as [|y s IH]; intros lo hi pos H.
  - assert (K : k pos [] = None).
    { rewrite <- (Nat.add_0_r pos). now apply (H [] []). }
    simpl. destruct lo; [|reflexivity]. destruct g; now rewrite K.
  - assert (K : k pos (y :: s) = None).
    { rewrite <- (Nat.add_0_r pos). now apply (H [] (y :: s)). }
    assert (M : (if mem c y && may_take hi
                 then rep c g (pred lo) (one_less hi) (S pos) s k else None)
                = None).
    { destruct (mem c y) eqn:Ey; [|reflexivity].
      destruct (may_take hi); [|reflexivity]. simpl. apply IH.
      intros a1 a2 E Hall.
      replace (S pos + List.length a1) with (pos + List.length (y :: a1))
        by (simpl; lia).
      apply (H (y :: a1) a2); [now rewrite E|]. simpl. now rewrite Ey. }
    rewrite rep_cons. cbv zeta. rewrite M, K. destruct lo; [|reflexivity].
    now destruct g.
Qed.

(** A repetition followed by the rest of the pattern succeeds when some
    run of admissible length lets the rest succeed. *)
Lemma rep_complete (R : Type) (c : cset) (g : bool) (mid rest : pystr)
    (k : nat -> pystr -> option R) :
  forall lo hi pos,
    forallb (mem c) mid = true -> lo <= List.length mid ->
    match hi with Some h => List.length mid <= h | None => True end ->
    k (pos + List.length mid) rest <> None ->
    rep c g lo hi pos (mid ++ rest) k <> None.
Proof.
  induction mid as [|a mid IH]; intros lo hi pos Hall Hlo Hhi Hk.
  - simpl in *. assert (lo = 0) by lia. subst lo. rewrite Nat.add_0_r in Hk.
    destruct rest as [|z rest]; [now rewrite rep_nil|].
    rewrite rep_cons. cbv zeta.
    destruct g.
    + destruct (if mem c z && may_take hi then _ else None); [discriminate|].
      exact Hk.
    + destruct (k pos (z :: rest)); [discriminate | congruence].
  - simpl in Hall. apply andb_true_iff in Hall. destruct Hall as (Ha & Hall).
    cbn [app]. rewrite rep_cons. rewrite Ha.
    assert (Hm : may_take hi = true).
    { destruct hi as [[|h]|]; simpl in *; auto; lia. }
    rewrite Hm. cbn [andb].
    assert (E : rep c g (pred lo) (one_less hi) (S pos) (mid ++ rest) k <> None).
    { apply IH; auto.
      - simpl in Hlo. lia.
      - destruct hi as [h|]; simpl in *; auto; lia.
      - simpl in Hk. now rewrite Nat.add_succ_r in Hk. }
    cbv zeta. destruct lo; [|exact E].
    destruct g.
    + destruct (rep c true _ _ _ _ _); [discriminate | congruence].
    + destruct (k pos (a :: mid ++ rest)); [discriminate | exact E].
Qed.

(** Whatever [r] can match, followed by a rest on which the continuation
    succeeds, makes the matcher succeed. *)
Lemma run_complete (R : Type) (r : regex) :
  forall pos mid rest cap (k : cont R),
    matches r pos mid rest ->
    (forall cap', k (pos + List.length mid) rest cap' <> None) ->
    run r pos (mid ++ rest) cap k <> None.
Proof.
  induction r as [| |c|c lo hi g|r1 IH1 r2 IH2|r1 IH1|r1 IH1];
    intros pos mid rest cap k M Hk; cbn [run matches] in *.
  - destruct M as (-> & ->). simpl in *. rewrite ?Nat.add_0_r in Hk. apply Hk.
  - destruct M as (-> & [->| ->]); simpl in *; rewrite ?Nat.add_0_r in Hk;
      apply Hk.
  - destruct M as (x & -> & Hx). simpl. rewrite Hx.
    rewrite Nat.add_1_r in Hk. apply Hk.
  - destruct M as (Hall & Hlo & Hhi). apply rep_complete; auto.
  - destruct M as (m1 & m2 & -> & M1 & M2). rewrite <- app_assoc.
    apply IH1; [exact M1|]. intros cap1. apply IH2; [exact M2|].
    intros cap2. rewrite <- Nat.add_assoc, <- length_app. apply Hk.
  - destruct (run r1 pos (mid ++ rest) cap k) eqn:E; [discriminate|].
    destruct M as [->|M].
    + simpl in *. rewrite ?Nat.add_0_r in Hk. apply Hk.
    + exfalso. revert E. apply IH1; auto.
  - apply IH1; [exact M|]. intros cap'. apply Hk.
Qed.

(** A pattern without the group leaves the capture as it is. *)
Lemma run_no_title (R : Type) (r : regex) :
  has_title r = false ->
  forall pos s cap (k : cont R) x,
    run r pos s cap k = Some x ->
    exists pos' s', k pos' s' cap = Some x.
Proof.
  induction r as [| |c|c lo hi g|r1 IH1 r2 IH2|r1 IH1|r1 IH1];
    intros Ht pos s cap k x H; cbn [run has_title] in *.
  - destruct (Nat.eqb pos 0); [eauto | discriminate].
  - destruct s as [|c [|c' s]]; eauto; [|discriminate].
    destruct (c =? 10)%N; [eauto | discriminate].
  - destruct s as [|a s]; [discriminate|].
    destruct (mem c a); [eauto | discriminate].
  - apply rep_inv in H. destruct H as (mid & s' & _ & Hk & _). eauto.
  - apply orb_false_iff in Ht. destruct Ht as (T1 & T2).
    apply (IH1 T1) in H. destruct H as (p1 & s1 & H).
    apply (IH2 T2) in H. exact H.
  - destruct (run r1 pos s cap k) eqn:E; [|eauto].
    injection H as ->. eapply IH1; eauto.
  - discriminate.
Qed.

(* ================================================================== *)
(** * The title a name of the usual shape gets *)

Lemma tail_result (r : regex) (pos : nat) (mid : pystr) (cap : option pystr) :
  has_title r = false -> matches r pos mid [] ->
  exists e,
    run r pos mid cap
      (fun pos' _ cap' => Some {| m_end := pos'; m_title := cap' |})
    = Some {| m_end := e; m_title := cap |}.
Proof.
  intros Ht M.
  destruct (run r pos mid cap
              (fun pos' _ cap' => Some {| m_end := pos'; m_title := cap' |}))
    as [x|] eqn:E.
  - destruct (run_no_title r Ht _ _ _ _ E) as (p' & s' & H).
    injection H as <-. eauto.
  - exfalso. rewrite <- (app_nil_r mid) in E. revert E.
    apply run_complete; [exact M | discriminate].
Qed.

Lemma clean_suffix (p : N -> bool) (a1 a2 : pystr) :
  ends_clean p (a1 ++ a2) -> a2 <> [] -> ends_clean p a2.
Proof.
  unfold ends_clean. rewrite rev_app_distr. intros H Hne.
  destruct (rev a2) as [|c t] eqn:E; [|exact H].
  apply (f_equal (@rev N)) in E. rewrite rev_involutive in E. contradiction.
Qed.

(** A string that does not end with a [p]-character starts with a run of
    [p]-characters followed by a character that is not one. *)
Lemma clean_end_split (p : N -> bool) (a : pystr) :
  a <> [] -> ends_clean p a ->
  exists sp y r, a = sp ++ y :: r /\ forallb p sp = true /\ p y = false.
Proof.
  intros Hne Hc. destruct (dropwhile_split p a) as (sp & E & Hsp).
  destruct (dropwhile p a) as [|y r] eqn:D.
  - exfalso. rewrite app_nil_r in E. subst sp. unfold ends_clean in Hc.
    destruct (rev a) as [|c t] eqn:Er.
    + apply (f_equal (@rev N)) in Er. rewrite rev_involutive in Er.
      contradiction.
    + simpl in Hc. rewrite forallb_forall in Hsp.
      rewrite Hsp in Hc; [discriminate|]. apply in_rev. rewrite Er. now left.
  - exists sp, y, r. split; [exact E|]. split; [exact Hsp|].
    pose proof (dropwhile_clean p a) as C. now rewrite D in C.
Qed.

Lemma prefix_of_run (p : N -> bool) (a1 : pystr) :
  forall a2 sp y rest,
    a1 ++ a2 = sp ++ y :: rest ->
    forallb p a1 = true -> p y = false ->
    exists sp2, sp = a1 ++ sp2 /\ a2 = sp2 ++ y :: rest.
Proof.
  induction a1 as [|c a1 IH]; intros a2 sp y rest E Ha Hy.
  - exists sp. auto.
  - simpl in Ha. apply andb_true_iff in Ha. destruct Ha as (Hc & Ha).
    destruct sp as [|d sp]; simpl in E; injection E as -> E.
    + congruence.
    + destruct (IH a2 sp y rest E Ha Hy) as (sp2 & -> & ->).
      exists sp2. auto.
Qed.

(** A run of characters of a class, then a literal outside the class:
    no match when the first character after the run is another one. *)
Lemma star_lit_fails (R : Type) (cs : cset) (c : N) (rest_pattern : regex)
    (pos : nat) (sp : pystr) (y : N) (rest : pystr) (cap : option pystr)
    (k : cont R) :
  forallb (mem cs) sp = true -> mem cs y = false -> y <> c ->
  mem cs c = false ->
  run (Cat (star cs) (Cat (One (Lit c)) rest_pattern)) pos (sp ++ y :: rest)
    cap k = None.
Proof.
  intros Hsp Hy Hyc Hc. cbn [run star]. apply rep_none.
  intros a1 a2 E Ha.
  destruct (prefix_of_run (mem cs) a1 a2 sp y rest (eq_sym E) Ha Hy)
    as (sp2 & -> & ->).
  rewrite forallb_app in Hsp. apply andb_true_iff in Hsp.
  destruct Hsp as (_ & H2).
  destruct sp2 as [|d sp2]; cbn [app mem].
  - apply N.eqb_neq in Hyc. rewrite N.eqb_sym, Hyc. reflexivity.
  - simpl in H2. apply andb_true_iff in H2. destruct H2 as (Hd & _).
    destruct (c =? d)%N eqn:E'; [|reflexivity].
    apply N.eqb_eq in E'. congruence.
Qed.

(** The lazy title group, followed by white space and a literal
    separator: the title is the captured group when it does not contain
    the separator or a line break and does not end with white space, and
    what follows it matches the rest of the pattern. *)
Lemma title_then_tail (lo : nat) (sep : N) (after : regex)
    (title tail : pystr) (pos : nat) (cap : option pystr) :
  has_title after = false -> isspace sep = false ->
  lo <= List.length title ->
  title <> [] -> ends_clean isspace title ->
  (forall c, In c title -> c <> sep /\ c <> 10%N) ->
  matches (Cat (star Space) (Cat (One (Lit sep)) after))
    (pos + List.length title) tail [] ->
  exists e,
    run (Cat (Title (Rep Dot lo None false))
           (Cat (star Space) (Cat (One (Lit sep)) after)))
      pos (title ++ tail) cap
      (fun pos' _ cap' => Some {| m_end := pos'; m_title := cap' |})
    = Some {| m_end := e; m_title := Some title |}.
Proof.
  intros Ht Hsep Hlo Hne Hend Hc M.
  set (TAIL := Cat (star Space) (Cat (One (Lit sep)) after)) in *.
  assert (HT : has_title TAIL = false) by exact Ht.
  destruct (tail_result TAIL (pos + List.length title) tail (Some title) HT M)
    as (e & E).
  exists e. cbn [run].
  apply rep_lazy_first.
  - apply forallb_forall. intros c Hin. simpl.
    destruct (Hc c Hin) as (_ & Hnl). apply N.eqb_neq in Hnl. now rewrite Hnl.
  - exact Hlo.
  - intros a1 a2 Et Ha2 _.
    assert (Hend2 : ends_clean isspace a2).
    { rewrite Et in Hend. eapply clean_suffix; eauto. }
    destruct (@clean_end_split isspace a2 Ha2 Hend2) as (sp & y & r & -> & Hsp & Hy).
    rewrite <- app_assoc. cbn [app]. unfold TAIL. apply star_lit_fails; auto.
    apply Hc. rewrite Et. apply in_or_app. right. apply in_or_app. right.
    now left.
  - replace (pos + List.length title - pos) with (List.length title) by lia.
    rewrite firstn_app, Nat.sub_diag, firstn_all, firstn_O, app_nil_r.
    exact E.
Qed.

Lemma matches_cat (r1 r2 : regex) (pos : nat) (m1 m2 rest : pystr) :
  matches r1 pos m1 (m2 ++ rest) ->
  matches r2 (pos + List.length m1) m2 rest ->
  matches (Cat r1 r2) pos (m1 ++ m2) rest.
Proof. intros M1 M2. exists m1, m2. auto. Qed.

Lemma matches_lit (c : N) (pos : nat) (rest : pystr) :
  matches (One (Lit c)) pos [c] rest.
Proof. exists c. split; [reflexivity | apply N.eqb_refl]. Qed.

Lemma matches_rep (c : cset) (lo : nat) (g : bool) (pos : nat)
    (mid rest : pystr) :
  forallb (mem c) mid = true -> lo <= List.length mid ->
  matches (Rep c lo None g) pos mid rest.
Proof. intros H L. repeat split; auto. Qed.

Lemma nonempty_length (l : pystr) : l <> [] -> 1 <= List.length l.
Proof. destruct l; [congruence | simpl; lia]. Qed.

(** What follows the title in an episode name of the plain shape. *)
Lemma episode_tail_matches (ws1 ws2 ep ws3 hash ext : pystr) (pos : nat) :
  forallb isspace ws1 = true -> forallb isspace ws2 = true ->
  ep <> [] -> forallb isdecimal ep = true ->
  forallb isspace ws3 = true ->
  hash <> [] -> forallb (mem hexdigit) hash = true ->
  ext <> [] -> forallb (mem alnum) ext = true ->
  matches EPISODE_TAIL pos
    (ws1 ++ [chr "-"] ++ ws2 ++ (ep ++ [] ++ []) ++ [] ++ ws3 ++ [chr "["]
     ++ hash ++ [chr "]"] ++ [chr "."] ++ ext ++ []) [].
Proof.
  intros W1 W2 Ep Hep W3 Hh Hhash He Hext. unfold EPISODE_TAIL.
  repeat (first
    [ apply matches_cat
    | apply matches_lit
    | apply matches_rep; [assumption | first [apply Nat.le_0_l
                                             | now apply nonempty_length]]
    | (left; reflexivity)
    | (split; [reflexivity | left; reflexivity]) ]).
Qed.

(** What follows the title in a movie name of the plain shape. *)
Lemma movie_tail_matches (ws year rest ext : pystr) (pos : nat) :
  forallb isspace ws = true ->
  List.length year = 4 -> forallb isdecimal year = true ->
  (forall c, In c rest -> c <> 10%N) ->
  ext <> [] -> forallb (mem alnum) ext = true ->
  matches MOVIE_TAIL pos
    (ws ++ [chr "("] ++ year ++ [chr ")"] ++ rest ++ [chr "."] ++ ext ++ [])
    [].
Proof.
  intros W Ly Hy Hr He Hext. unfold MOVIE_TAIL.
  apply matches_cat; [now apply matches_rep; [|apply Nat.le_0_l]|].
  apply matches_cat; [apply matches_lit|].
  apply matches_cat.
  { cbn [matches exactly]. rewrite Ly. repeat split; auto. }
  apply matches_cat; [apply matches_lit|].
  apply matches_cat.
  { apply matches_rep; [|apply Nat.le_0_l]. apply forallb_forall.
    intros c Hc. simpl. apply Hr in Hc. apply N.eqb_neq in Hc.
    now rewrite Hc. }
  apply matches_cat; [apply matches_lit|].
  apply matches_cat;
    [apply matches_rep; [assumption | now apply nonempty_length]|].
  split; [reflexivity | left; reflexivity].
Qed.

Lemma lacks_spec (c : N) (l : pystr) :
  lacks c l = true -> forall x, In x l -> x <> c.
Proof.
  unfold lacks. rewrite forallb_forall. intros H x Hx.
  apply H in Hx. now apply negb_true_iff, N.eqb_neq in Hx.
Qed.

Lemma starts_clean_app (p : N -> bool) (a b : pystr) :
  a <> [] -> starts_clean p a -> starts_clean p (a ++ b).
Proof. destruct a; [congruence | auto]. Qed.

(** X15: an episode name of the plain shape gets its title.  For a name
    made of a bracketed group, white space, a title, a hyphen between
    optional white space, an episode number, a bracketed hexadecimal hash
    and an extension, [extract_title] returns the sanitized title,
    provided the title is not empty, has no white space at either end and
    contains neither a hyphen nor a line break. *)
Theorem episode_shape_title (g sp title ws1 ws2 ep ws3 hash ext : pystr) :
  g <> [] -> lacks (chr "]") g = true ->
  sp <> [] -> forallb isspace sp = true ->
  title <> [] -> starts_clean isspace title -> ends_clean isspace title ->
  lacks (chr "-") title = true -> lacks 10 title = true ->
  forallb isspace ws1 = true -> forallb isspace ws2 = true ->
  ep <> [] -> forallb isdecimal ep = true ->
  forallb isspace ws3 = true ->
  hash <> [] -> forallb (mem hexdigit) hash = true ->
  ext <> [] -> forallb (mem alnum) ext = true ->
  extract_title
    ([chr "["] ++ g ++ [chr "]"] ++ sp ++ title ++ ws1 ++ [chr "-"] ++ ws2
     ++ ep ++ ws3 ++ [chr "["] ++ hash ++ [chr "]"; chr "."] ++ ext)
  = Some (sanitize title).
Proof.
  intros Hg Hgb Hsp Hspb Ht Hts Hte Hth Htn W1 W2 Hep Hepb W3 Hh Hhb He Heb.
  set (tail := ws1 ++ [chr "-"] ++ ws2 ++ ep ++ ws3 ++ [chr "["] ++ hash
               ++ [chr "]"; chr "."] ++ ext).
  set (P := S (List.length g + S (List.length sp))).
  assert (M : matches EPISODE_TAIL (P + List.length title) tail []).
  { replace tail with
      (ws1 ++ [chr "-"] ++ ws2 ++ (ep ++ [] ++ []) ++ [] ++ ws3 ++ [chr "["]
       ++ hash ++ [chr "]"] ++ [chr "."] ++ ext ++ []).
    - now apply episode_tail_matches.
    - unfold tail. cbn [app]. now rewrite !app_nil_r. }
  destruct (@title_then_tail 0 (chr "-")
              (star Space &
               (plus Digit & Opt (lit "." & plus Digit)
                & Opt (lit "v" & plus Digit)) &
               Opt (star Space & lit "(" & plus (not_ch ")") & lit ")") &
               star Space & lit "[" & plus hexdigit & lit "]" &
               lit "." & plus alnum & Eol)%re
              title tail P None) as (e & E); auto.
  { apply Nat.le_0_l. }
  { intros c Hc. split; [exact (@lacks_spec _ _ Hth c Hc) | exact (@lacks_spec _ _ Htn c Hc)]. }
  assert (R : re_match EPISODE
                ([chr "["] ++ g ++ [chr "]"] ++ sp ++ title ++ tail)
              = Some {| m_end := e; m_title := Some title |}).
  { unfold re_match.
    change EPISODE with
      (Cat Bol (Cat (star Space) (Cat (lit "[") (Cat (plus (not_ch "]"))
         (Cat (lit "]") (Cat (plus Space)
            (Cat (Title (Rep Dot 0 None false))
               (Cat (star Space) (Cat (One (Lit (chr "-")))
                  (star Space &
                   (plus Digit & Opt (lit "." & plus Digit)
                    & Opt (lit "v" & plus Digit)) &
                   Opt (star Space & lit "(" & plus (not_ch ")") & lit ")") &
                   star Space & lit "[" & plus hexdigit & lit "]" &
                   lit "." & plus alnum & Eol)%re))))))))).
    set (REST := Cat (Title (Rep Dot 0 None false)) _) in *.
    cbn [run star plus lit app Nat.eqb].
    rewrite rep_greedy_stop by reflexivity.
    cbn [mem]. rewrite N.eqb_refl.
    apply rep_greedy_max.
    - apply forallb_forall. intros c Hc.
      change (mem (not_ch "]") c) with (negb ((chr "]" =? c)%N || false)).
      apply (@lacks_spec _ _ Hgb) in Hc. apply N.eqb_neq in Hc.
      rewrite N.eqb_sym, Hc. reflexivity.
    - now apply nonempty_length.
    - cbv beta iota. rewrite N.eqb_refl.
      apply rep_greedy_max.
      + exact Hspb.
      + now apply nonempty_length.
      + replace (S (1 + List.length g) + List.length sp) with P
          by (unfold P; lia).
        exact E.
      + now apply starts_clean_app.
    - reflexivity. }
  unfold extract_title, PATTERNS. cbn [first_title].
  fold tail. rewrite R. reflexivity.
Qed.

Lemma episode_shape_title_witness :
  extract_title
    ([chr "["] ++ py "SubsPlease" ++ [chr "]"] ++ py " " ++ py "Series Title"
     ++ py " " ++ [chr "-"] ++ py " " ++ py "03" ++ py " " ++ [chr "["]
     ++ py "ABCDEF12" ++ [chr "]"; chr "."] ++ py "mkv")
  = Some (sanitize (py "Series Title")).
Proof.
  apply episode_shape_title; try discriminate; reflexivity.
Defined.

(** X16: a movie name of the plain shape gets its title.  For a name made
    of a title, optional white space, a parenthesised year of four
    decimal digits, anything without a line break, a dot and an
    extension, [extract_title] returns the sanitized title, provided the
    title is not empty, has no white space at either end, does not start
    with an opening bracket and contains neither an opening parenthesis
    nor a line break. *)
Theorem movie_shape_title (title ws year rest ext : pystr) :
  title <> [] -> starts_clean isspace title -> ends_clean isspace title ->
  starts_clean (fun c => (c =? chr "[")%N) title ->
  lacks (chr "(") title = true -> lacks 10 title = true ->
  forallb isspace ws = true ->
  List.length year = 4 -> forallb isdecimal year = true ->
  lacks 10 rest = true ->
  ext <> [] -> forallb (mem alnum) ext = true ->
  extract_title
    (title ++ ws ++ [chr "("] ++ year ++ [chr ")"] ++ rest ++ [chr "."] ++ ext)
  = Some (sanitize title).
Proof.
  intros Ht Hts Hte Htb Htp Htn W Ly Hy Hr He Heb.
  set (tail := ws ++ [chr "("] ++ year ++ [chr ")"] ++ rest ++ [chr "."] ++ ext).
  assert (M : matches MOVIE_TAIL (0 + List.length title) tail []).
  { replace tail with
      (ws ++ [chr "("] ++ year ++ [chr ")"] ++ rest ++ [chr "."] ++ ext ++ []).
    - apply movie_tail_matches; auto. exact (@lacks_spec _ _ Hr).
    - unfold tail. now rewrite !app_nil_r. }
  destruct (@title_then_tail 1 (chr "(")
              (exactly 4 Digit & lit ")" &
               lazy_star Dot & lit "." & plus alnum & Eol)%re
              title tail 0 None) as (e & E); auto.
  { now apply nonempty_length. }
  { intros c Hc. split; [exact (@lacks_spec _ _ Htp c Hc) | exact (@lacks_spec _ _ Htn c Hc)]. }
  destruct title as [|y t] eqn:Et; [congruence|]. rewrite <- Et in *.
  assert (Hy1 : isspace y = false) by (rewrite Et in Hts; exact Hts).
  assert (Hy2 : (chr "[" =? y)%N = false).
  { rewrite Et in Htb. simpl in Htb. now rewrite N.eqb_sym. }
  assert (R1 : re_match EPISODE (title ++ tail) = None).
  { unfold re_match.
    change EPISODE with
      (Cat Bol (Cat (star Space) (Cat (lit "[")
         (plus (not_ch "]") & lit "]" & plus Space &
          Title (lazy_star Dot) & EPISODE_TAIL)%re))).
    set (REST := (plus (not_ch "]") & _)%re).
    rewrite Et. cbn [run star lit app Nat.eqb].
    rewrite rep_greedy_stop by exact Hy1.
    cbn [mem]. now rewrite Hy2. }
  assert (R2 : re_match MOVIE (title ++ tail)
               = Some {| m_end := e; m_title := Some title |}).
  { unfold re_match.
    change MOVIE with
      (Cat Bol (Cat (star Space)
         (Cat (Opt (Cat (lit "[")
                      (plus (not_ch "]") & lit "]" & plus Space)%re))
            (Cat (Title (Rep Dot 1 None false))
               (Cat (star Space) (Cat (One (Lit (chr "(")))
                  (exactly 4 Digit & lit ")" &
                   lazy_star Dot & lit "." & plus alnum & Eol)%re)))))).
    set (REST := Cat (Title (Rep Dot 1 None false)) _) in *.
    set (G := (plus (not_ch "]") & _)%re).
    rewrite Et at 1. cbn [run star lit app Nat.eqb].
    rewrite rep_greedy_stop by exact Hy1.
    cbn [mem]. rewrite Hy2.
    change (y :: t ++ tail) with ((y :: t) ++ tail). rewrite <- Et. exact E. }
  unfold extract_title, PATTERNS. cbn [first_title].
  fold tail. rewrite R1, R2. reflexivity.
Qed.

Lemma movie_shape_title_witness :
  extract_title
    (py "I Want to Eat Your Pancreas" ++ py " " ++ [chr "("] ++ py "2018"
     ++ [chr ")"] ++ py " 1080p AV1 Opus [UnAV1Chain] v2" ++ [chr "."]
     ++ py "mkv")
  = Some (sanitize (py "I Want to Eat Your Pancreas")).
Proof.
  apply movie_shape_title; try discriminate; reflexivity.
Defined.

(* ================================================================== *)
(** * What a matched name looks like *)

Lemma rep_sound (R : Type) (c : cset) (g : bool) (s : pystr) :
  forall lo hi pos (k : nat -> pystr -> option R) x,
    rep c g lo hi pos s k = Some x ->
    exists mid s',
      s = mid ++ s' /\ k (pos + List.length mid) s' = Some x
      /\ forallb (mem c) mid = true /\ lo <= List.length mid
      /\ match hi with Some h => List.length mid <= h | None => True end.
Proof.
  induction s as [|a s IH]; intros lo hi pos k x H.
  - destruct lo; [|discriminate]. rewrite rep_nil in H.
    exists [], []. simpl. rewrite Nat.add_0_r.
    repeat split; auto. destruct hi; [lia | exact I].
  - assert (Hmore :
      (if mem c a && may_take hi
       then rep c g (pred lo) (one_less hi) (S pos) s k else None) = Some x ->
      exists mid s',
        a :: s = mid ++ s' /\ k (pos + List.length mid) s' = Some x
        /\ forallb (mem c) mid = true /\ lo <= List.length mid
        /\ match hi with Some h => List.length mid <= h | None => True end).
    { destruct (mem c a) eqn:Ea; [|discriminate].
      destruct (may_take hi) eqn:Em; [|discriminate]. simpl. intros H'.
      apply IH in H'. destruct H' as (mid & s' & -> & Hk & Hall & Hlo & Hhi).
      exists (a :: mid), s'. simpl. rewrite Nat.add_succ_r, Ea.
      repeat split; auto; [lia|].
      destruct hi as [[|h]|]; simpl in *; auto; [discriminate | lia]. }
    rewrite rep_cons in H. cbv zeta in H. destruct lo; [|auto].
    assert (Hstop : k pos (a :: s) = Some x ->
      exists mid s',
        a :: s = mid ++ s' /\ k (pos + List.length mid) s' = Some x
        /\ forallb (mem c) mid = true /\ 0 <= List.length mid
        /\ match hi with Some h => List.length mid <= h | None => True end).
    { intros H'. exists [], (a :: s). simpl. rewrite Nat.add_0_r.
      repeat split; auto. destruct hi; [lia | exact I]. }
    destruct g.
    + destruct (if mem c a && may_take hi then _ else None) eqn:E; auto.
    + destruct (k pos (a :: s)) eqn:E; auto.
Qed.

(** Every result of the matcher comes from the continuation, called after
    a part of the subject that the pattern matches. *)
Lemma run_sound (R : Type) (r : regex) :
  forall pos s cap (k : cont R) x,
    run r pos s cap k = Some x ->
    exists mid s' cap',
      s = mid ++ s' /\ matches r pos mid s'
      /\ k (pos + List.length mid) s' cap' = Some x.
Proof.
  induction r as [| |c|c lo hi g|r1 IH1 r2 IH2|r1 IH1|r1 IH1];
    intros pos s cap k x H; cbn [run matches] in *.
  - destruct (Nat.eqb pos 0) eqn:E; [|discriminate].
    apply Nat.eqb_eq in E. exists [], s, cap. simpl. rewrite Nat.add_0_r. auto.
  - exists [], s, cap. simpl. rewrite Nat.add_0_r.
    destruct s as [|c [|c' s]]; auto; [|discriminate].
    destruct (c =? 10)%N eqn:E; [|discriminate].
    apply N.eqb_eq in E. subst c. auto.
  - destruct s as [|a s]; [discriminate|].
    destruct (mem c a) eqn:E; [|discriminate].
    exists [a], s, cap. simpl. rewrite Nat.add_1_r. eauto.
  - apply rep_sound in H. destruct H as (mid & s' & -> & Hk & Hall & Hlo & Hhi).
    exists mid, s', cap. auto.
  - apply IH1 in H. destruct H as (m1 & s1 & c1 & -> & M1 & H).
    apply IH2 in H. destruct H as (m2 & s2 & c2 & -> & M2 & H).
    exists (m1 ++ m2), s2, c2.
    rewrite length_app, Nat.add_assoc, <- app_assoc. eauto 8.
  - destruct (run r1 pos s cap k) eqn:E.
    + injection H as ->. apply IH1 in E.
      destruct E as (m1 & s1 & c1 & -> & M1 & H). exists m1, s1, c1. auto.
    + exists [], s, cap. simpl. rewrite Nat.add_0_r. auto.
  - apply IH1 in H. destruct H as (m1 & s1 & c1 & -> & M1 & H). eauto 8.
Qed.

(** A name that a pattern matches splits into a part the pattern matches
    and a rest. *)
Lemma re_match_sound (r : regex) (s : pystr) (m : match_obj) :
  re_match r s = Some m ->
  exists mid rest, s = mid ++ rest /\ matches r 0 mid rest.
Proof.
  unfold re_match. intros H. apply run_sound in H.
  destruct H as (mid & s' & _ & -> & M & _). eauto.
Qed.

Lemma extract_title_matched (name t : pystr) :
  extract_title name = Some t ->
  exists mid rest,
    name = mid ++ rest
    /\ (matches EPISODE 0 mid rest \/ matches MOVIE 0 mid rest).
Proof.
  unfold extract_title, PATTERNS. cbn [first_title]. intros H.
  destruct (re_match EPISODE name) eqn:E1.
  - apply re_match_sound in E1. destruct E1 as (mid & rest & -> & M). eauto.
  - destruct (re_match MOVIE name) eqn:E2; [|discriminate].
    apply re_match_sound in E2. destruct E2 as (mid & rest & -> & M). eauto.
Qed.

Ltac flatten_app :=
  repeat (progress (rewrite <- ?app_assoc; cbn [app])); reflexivity.

Ltac uncat M a Ha :=
  let r := fresh "r" in
  cbn [matches] in M; destruct M as (a & r & -> & Ha & M).

Lemma lit_inv (a : ascii) (pos : nat) (mid rest : pystr) :
  matches (lit a) pos mid rest -> mid = [chr a].
Proof.
  intros (x & -> & Hx). simpl in Hx. apply N.eqb_eq in Hx. now subst x.
Qed.

Lemma positive_length (l : pystr) : 1 <= List.length l -> l <> [].
Proof. destruct l; simpl; [lia | discriminate]. Qed.

Lemma not_ch_lacks (a : ascii) (l : pystr) :
  forallb (mem (not_ch a)) l = lacks (chr a) l.
Proof.
  induction l as [|x l IH]; [reflexivity|].
  simpl. rewrite orb_false_r, N.eqb_sym. f_equal. exact IH.
Qed.

(** The end of both patterns: a dot, an extension, the end of the name. *)
Lemma extension_shape (pos : nat) (mid rest : pystr) :
  matches (lit "." & plus alnum & Eol)%re pos mid rest ->
  exists ext,
    mid = chr "." :: ext /\ ext <> [] /\ forallb (mem alnum) ext = true
    /\ (rest = [] \/ rest = [10%N]).
Proof.
  intros M. uncat M d Hd. uncat M ext Hext.
  apply lit_inv in Hd. subst d.
  destruct Hext as (Hall & Hlo & _). destruct M as (-> & Hrest).
  exists ext. rewrite app_nil_r. simpl.
  repeat split; auto. now apply positive_length.
Qed.

(** What the Episode pattern matches, piece by piece. *)
Lemma episode_shape (mid rest : pystr) :
  matches EPISODE 0 mid rest ->
  exists lead g body hash ext,
    mid = lead ++ [chr "["] ++ g ++ [chr "]"] ++ body
          ++ [chr "["] ++ hash ++ [chr "]"; chr "."] ++ ext
    /\ forallb isspace lead = true
    /\ g <> [] /\ lacks (chr "]") g = true
    /\ In (chr "-") body
    /\ hash <> [] /\ forallb (mem hexdigit) hash = true
    /\ ext <> [] /\ forallb (mem alnum) ext = true
    /\ (rest = [] \/ rest = [10%N]).
Proof.
  unfold EPISODE. intros M.
  uncat M b Hb. uncat M lead Hlead. uncat M lb Hlb. uncat M g Hg.
  uncat M rb Hrb. uncat M sp Hsp. uncat M title Htitle. uncat M ws1 Hws1.
  uncat M hy Hhy. uncat M ws2 Hws2. uncat M num Hnum. uncat M res Hres.
  uncat M ws3 Hws3. uncat M lb2 Hlb2. uncat M hash Hhash. uncat M rb2 Hrb2.
  apply extension_shape in M. destruct M as (ext & -> & Hne & Hext & Hrest).
  destruct Hb as (_ & ->).
  apply lit_inv in Hlb, Hrb, Hhy, Hlb2, Hrb2. subst lb rb hy lb2 rb2.
  destruct Hlead as (Hlead & _). destruct Hg as (Hg & Hglen & _).
  destruct Hhash as (Hhash & Hhlen & _).
  exists lead, g, (sp ++ title ++ ws1 ++ [chr "-"] ++ ws2 ++ num ++ res ++ ws3),
    hash, ext.
  split; [flatten_app|].
  split; [exact Hlead|]. split; [now apply positive_length|].
  split; [now rewrite <- not_ch_lacks|].
  split; [rewrite !in_app_iff; simpl; auto 10|].
  split; [now apply positive_length|]. auto.
Qed.

(** What the Movie pattern matches, piece by piece. *)
Lemma movie_shape (mid rest : pystr) :
  matches MOVIE 0 mid rest ->
  exists front year back ext,
    mid = front ++ [chr "("] ++ year ++ [chr ")"] ++ back ++ [chr "."] ++ ext
    /\ front <> []
    /\ List.length year = 4 /\ forallb isdecimal year = true
    /\ lacks 10 back = true
    /\ ext <> [] /\ forallb (mem alnum) ext = true
    /\ (rest = [] \/ rest = [10%N]).
Proof.
  unfold MOVIE. intros M.
  uncat M b Hb. uncat M lead Hlead. uncat M grp Hgrp. uncat M title Htitle.
  uncat M ws Hws. uncat M lp Hlp. uncat M year Hyear. uncat M rp Hrp.
  uncat M back Hback.
  apply extension_shape in M. destruct M as (ext & -> & Hne & Hext & Hrest).
  destruct Hb as (_ & ->). apply lit_inv in Hlp, Hrp. subst lp rp.
  destruct Htitle as (_ & Htlen & _). destruct Hyear as (Hyear & Hy1 & Hy2).
  destruct Hback as (Hback & _).
  exists (lead ++ grp ++ title ++ ws), year, back, ext.
  split; [flatten_app|].
  split.
  { intros E. apply (f_equal (@List.length N)) in E.
    rewrite !length_app in E. simpl in E. lia. }
  split; [lia|]. split; [exact Hyear|].
  split; [exact Hback|]. auto.
Qed.

(** X17: only a name with an extension gets a title.  A name for which
    [extract_title] returns a title ends with a dot and a non-empty run of
    ASCII letters and digits, after which only a single line break may
    follow. *)
Theorem titled_name_has_extension (name t : pystr) :
  extract_title name = Some t ->
  exists stem ext nl,
    name = stem ++ [chr "."] ++ ext ++ nl
    /\ ext <> [] /\ forallb (mem alnum) ext = true
    /\ (nl = [] \/ nl = [10%N]).
Proof.
  intros H. apply extract_title_matched in H.
  destruct H as (mid & rest & -> & [M|M]).
  - apply episode_shape in M.
    destruct M as (lead & g & body & hash & ext & -> & _ & _ & _ & _ & _ & _
                   & Hne & Hext & Hrest).
    exists (lead ++ [chr "["] ++ g ++ [chr "]"] ++ body ++ [chr "["] ++ hash
            ++ [chr "]"]), ext, rest.
    split; [flatten_app|].
    auto.
  - apply movie_shape in M.
    destruct M as (front & year & back & ext & -> & _ & _ & _ & _
                   & Hne & Hext & Hrest).
    exists (front ++ [chr "("] ++ year ++ [chr ")"] ++ back), ext, rest.
    split; [flatten_app|].
    auto.
Qed.

Lemma titled_name_has_extension_witness :
  exists stem ext nl,
    py "[G] Show - 01 [AB12].mkv" = stem ++ [chr "."] ++ ext ++ nl
    /\ ext <> [] /\ forallb (mem alnum) ext = true
    /\ (nl = [] \/ nl = [10%N]).
Proof.
  apply (@titled_name_has_extension (py "[G] Show - 01 [AB12].mkv") (py "Show")).
  reflexivity.
Defined.



(* ================================================================== *)
(** * Every move is reported *)

(** A file of the root is, after a round, still at the root as it was,
    or the round has printed that it was moved. *)
Lemma scan_entry_reports (name : pystr) (mv : nat) (st : state)
    (n : pystr) (x : node) :
  lookup n (here (fs st)) = Some x -> is_dir_node (Some x) = false ->
  lookup n (here (fs (snd (scan_entry name mv st)))) = Some x
  \/ exists t, extract_title n = Some t
               /\ In (Print (Moved n t)) (trace (snd (scan_entry name mv st))).
Proof.
  intros Hl Hx.
  destruct (list_eq_dec N.eq_dec name n) as [->|Hne].
  - destruct (scan_entry_cases n mv st)
      as [Hd|Hd Ht|t y Hd Ht Hne Hp Hl' Hy|t w' Hd Ht Hne P Hex
         |t w' e Hd Ht Hne P Hex Hl'|t w' y Ht Hne P Hp Hl' Hy Hex
         |t rn sibs y Ht Hne Hp Ha Hl' Hy Hex];
      cbn [snd fs trace logged]; auto.
    + left. eapply (others_stay (prepared_leaves_alone P)); eauto.
    + left. eapply (others_stay (prepared_leaves_alone P)); eauto.
    + right. exists t. split; [exact Ht|].
      apply in_or_app. right. simpl. auto.
    + right. exists (py "..").
      split; [now rewrite Ht, (root_join_DotDot _ Hp)|].
      apply in_or_app. right. simpl. auto.
  - left. eapply (others_stay (scan_entry_leaves_alone name mv st)); eauto.
Qed.

Lemma scan_reports (todo : list pystr) :
  forall mv st n x,
    lookup n (here (fs st)) = Some x -> is_dir_node (Some x) = false ->
    lookup n (here (fs (snd (scan todo mv st)))) = Some x
    \/ exists t, extract_title n = Some t
                 /\ In (Print (Moved n t)) (trace (snd (scan todo mv st))).
Proof.
  induction todo as [|name todo IH]; intros mv st n x Hl Hx; [now left|].
  rewrite scan_cons.
  pose proof (scan_entry_reports name mv st n Hl Hx) as K.
  destruct (scan_entry name mv st) as [[m1|e] st1]; cbn [snd] in *; [|exact K].
  destruct K as [K|(t & Ht & K)]; [now apply IH|].
  right. exists t. split; [exact Ht|].
  destruct (scan_trace todo m1 st1) as (tr & E & _).
  rewrite E. apply in_or_app. now left.
Qed.

(** X19: every move is reported.  A non-directory of the root that is no
    longer at the root after a run (whether the run ends normally or
    raises) has a title, and the run has printed the line that says it was
    moved to the folder of that title. *)
Theorem every_move_is_reported (w : world) (name : pystr) (x : node) :
  lookup name (here w) = Some x -> is_dir_node (Some x) = false ->
  lookup name (here (fs (snd (organise (start w))))) <> Some x ->
  exists t, extract_title name = Some t
            /\ In (Moved name t) (stdout (main (Directory w))).
Proof.
  intros Hl Hx Hgone.
  assert (K : exists t, extract_title name = Some t
                /\ In (Print (Moved name t))
                     (trace (snd (organise (start w))))).
  { rewrite organise_unfold in *.
    pose proof (@scan_reports (names (here w)) 0 (start w) name x Hl Hx) as K.
    cbn [fs start] in *.
    destruct (scan (names (here w)) 0 (start w)) as [[m|e] stA];
      cbn [snd] in *.
    - destruct (sync_pass_spec (names (here (fs stA))) stA)
        as (wB & EB & LA & _).
      rewrite EB in *. cbn [snd fs logged trace] in *.
      destruct K as [K|(t & Ht & K)].
      + elim Hgone. eapply (others_stay LA); eauto.
      + exists t. split; [exact Ht|]. apply in_or_app. now left.
    - destruct K as [K|K]; [contradiction | exact K]. }
  destruct K as (t & Ht & K). exists t. split; [exact Ht|].
  apply in_printed in K. unfold main.
  now destruct (organise (start w)) as [[u|e] st].
Qed.

Lemma every_move_is_reported_witness :
  exists t, extract_title (py "M (2018).mkv") = Some t
            /\ In (Moved (py "M (2018).mkv") t)
                 (stdout (main (Directory movie_root))).
Proof.
  apply (@every_move_is_reported movie_root (py "M (2018).mkv")
           (File [3%N] 60%Z)).
  - reflexivity.
  - reflexivity.
  - vm_compute. discriminate.
Defined.
